(** * avs-device-sdk: directive intake, logout orchestration and endpoint resources

    A shallow embedding of
      - [AVSCommon/AVS/src/EndpointResources.cpp]  (module [EndpointResources]),
      - [ADSL/src/DirectiveSequencer.cpp]          (module [DirectiveSequencer]),
      - [RegistrationManager/src/RegistrationManager.cpp] (module [RegistrationManager]),
      - [CapabilityAgents/Messaging/src/MessagingCapabilityAgent.cpp]
        (module [MessagingCapabilityAgent]),
    with the JSON writer and parser they call (modules [JsonGenerator] and
    [JsonText]), followed by the properties established about them. *)

From Stdlib Require Import List String Ascii Bool Arith Lia Permutation.
Import ListNotations.

Local Open Scope string_scope.
Local Open Scope list_scope.

(** ** Small helpers on strings and lists *)

(** [std::string::empty()] / [length() == 0]. *)
Definition empty (s : string) : bool :=
  match s with
  | EmptyString => true
  | String _ _ => false
  end.

(** The double quote character, built from its code. *)
Definition dquote : string := String (ascii_of_nat 34) EmptyString.

(** ** JsonGenerator *)

Module JsonGenerator.
Section Writer.

(** JSON string escaping as done by the underlying writer. *)
Variable escape : string -> string.
(** Whether a text is accepted by the JSON parser used to validate raw members. *)
Variable parses : string -> bool.

(** Modelled from the spec: [utils::json::JsonGenerator]
    (AVSCommon/Utils/JSON/JSONGenerator.h) is not among the sources.  It is
    modelled as a text writer over one JSON object that is opened by the
    constructor: [buffer] is the text written so far and [scopes] has one
    entry per object still open, telling whether that object already has a
    member (so that the next key is preceded by a comma).  Members appear in
    the order they were added; [toString] closes every open object. *)
Record t := mk {
  buffer : string;
  scopes : list bool
}.

(** Modelled from the spec: the constructor opens the object. *)
Definition new : t := {| buffer := "{"; scopes := [false] |}.

(** Modelled from the spec: whether every object has been closed. *)
Definition isComplete (g : t) : bool :=
  match scopes g with [] => true | _ :: _ => false end.

Definition quoted (s : string) : string := (dquote ++ escape s ++ dquote)%string.

(** Modelled from the spec: the separator (if needed), the quoted key and
    the colon of a member. *)
Definition key (k : string) (g : t) : t :=
  match scopes g with
  | [] => g
  | hasMember :: outer =>
      {| buffer := (buffer g ++ (if hasMember then "," else EmptyString)
                             ++ quoted k ++ ":")%string;
         scopes := true :: outer |}
  end.

Definition write (text : string) (g : t) : t :=
  {| buffer := (buffer g ++ text)%string; scopes := scopes g |}.

(** Modelled from the spec: [addMember] with a string value. *)
Definition addMember (k value : string) (g : t) : t :=
  if isComplete g then g else write (quoted value) (key k g).

(** Modelled from the spec: [startObject] opens a member object. *)
Definition startObject (k : string) (g : t) : t :=
  if isComplete g then g
  else let g' := key k g in
       {| buffer := (buffer g' ++ "{")%string; scopes := false :: scopes g' |}.

(** Modelled from the spec: [addMembersArray] writes an array whose elements
    are the given JSON texts. *)
Definition addMembersArray (k : string) (members : list string) (g : t) : t :=
  if isComplete g then g
  else write ("[" ++ String.concat "," members ++ "]")%string (key k g).

(** Modelled from the spec: [addRawJsonMember] writes the given JSON text as
    a member, and nothing when the text does not pass validation. *)
Definition addRawJsonMember (k json : string) (g : t) : t :=
  if negb (parses json) then g
  else if isComplete g then g
  else write json (key k g).

Fixpoint closing (open : list bool) : string :=
  match open with
  | [] => EmptyString
  | _ :: outer => ("}" ++ closing outer)%string
  end.

(** Modelled from the spec: [toString] closes the open objects and returns
    the text. *)
Definition toString (g : t) : string := (buffer g ++ closing (scopes g))%string.

End Writer.
End JsonGenerator.

(** ** The JSON text the writer produces and the parser accepts *)

Module JsonText.

(** Modelled from the spec: the writer and the parser behind [JsonGenerator]
    are not among the sources.  The writer escapes a string as JSON asks for:
    the double quote and the backslash get a backslash in front, a control
    character below 32 becomes its short escape (b, t, n, f, r) or a
    backslash, u and four hexadecimal digits, and every other character is
    written as it is. *)
Definition quote : ascii := ascii_of_nat 34.
Definition backslash : ascii := ascii_of_nat 92.

Definition hexDigit (n : nat) : ascii :=
  match String.get n "0123456789ABCDEF" with
  | Some c => c
  | None => "0"%char
  end.

Definition escapeChar (c : ascii) : string :=
  let n := nat_of_ascii c in
  if Nat.eqb n 34 then String backslash (String quote EmptyString)
  else if Nat.eqb n 92 then String backslash (String backslash EmptyString)
  else if Nat.ltb n 32 then
    if Nat.eqb n 8 then String backslash "b"
    else if Nat.eqb n 9 then String backslash "t"
    else if Nat.eqb n 10 then String backslash "n"
    else if Nat.eqb n 12 then String backslash "f"
    else if Nat.eqb n 13 then String backslash "r"
    else String backslash
           (String "u" (String "0" (String "0"
              (String (hexDigit (Nat.div n 16))
                 (String (hexDigit (Nat.modulo n 16)) EmptyString)))))
  else String c EmptyString.

Fixpoint escape (s : string) : string :=
  match s with
  | EmptyString => EmptyString
  | String c rest => (escapeChar c ++ escape rest)%string
  end.

(** Modelled from the spec: the parser that validates a raw member accepts
    the JSON texts of RFC 8259: one value (object, array, string, number,
    true, false or null) with white space around it and between its tokens.
    It is written as a machine that reads the text character by character:
    [State] says what may come next and the stack of [Frame]s which objects
    and arrays are open. *)
Inductive Frame := InObject | InArray.

Inductive State :=
| Value                      (* a value is to come *)
| FirstElement               (* after the bracket that opens an array *)
| FirstKey                   (* after the brace that opens an object *)
| Key                        (* after a comma in an object *)
| Colon                      (* after the name of a member *)
| Done                       (* a value has ended *)
| Chars (name : bool)        (* in a string, which is a member's name or a value *)
| Escaped (name : bool)      (* after a backslash in a string *)
| Hex (name : bool) (more : nat)   (* in the digits after backslash u: [more] follow this one *)
| Word (rest : string)       (* in true, false or null: [rest] is to come *)
| Minus                      (* after the sign of a number *)
| Zero                       (* after a leading zero *)
| Digits                     (* in the integer part *)
| Point                      (* after the decimal point *)
| Fraction                   (* in the fraction *)
| Exponent                   (* after e or E *)
| ExponentSign               (* after the sign of the exponent *)
| ExponentDigits             (* in the exponent *)
| Failed.                    (* the text is not JSON *)

Definition isSpace (c : ascii) : bool :=
  let n := nat_of_ascii c in
  Nat.eqb n 32 || Nat.eqb n 9 || Nat.eqb n 10 || Nat.eqb n 13.

Definition isDigit (c : ascii) : bool :=
  let n := nat_of_ascii c in Nat.leb 48 n && Nat.leb n 57.

Definition isHex (c : ascii) : bool :=
  let n := nat_of_ascii c in
  isDigit c || (Nat.leb 65 n && Nat.leb n 70) || (Nat.leb 97 n && Nat.leb n 102).

Definition isChar (x c : ascii) : bool := Ascii.eqb x c.

(** What may follow a value. *)
Definition afterValue (stack : list Frame) (c : ascii) : State * list Frame :=
  if isSpace c then (Done, stack)
  else
    match stack with
    | [] => (Failed, stack)
    | InObject :: outer =>
        if isChar "," c then (Key, stack)
        else if isChar "}" c then (Done, outer)
        else (Failed, stack)
    | InArray :: outer =>
        if isChar "," c then (Value, stack)
        else if isChar "]" c then (Done, outer)
        else (Failed, stack)
    end.

(** The first character of a value. *)
Definition beginValue (stack : list Frame) (c : ascii) : State * list Frame :=
  if isSpace c then (Value, stack)
  else if isChar quote c then (Chars false, stack)
  else if isChar "{" c then (FirstKey, InObject :: stack)
  else if isChar "[" c then (FirstElement, InArray :: stack)
  else if isChar "t" c then (Word "rue", stack)
  else if isChar "f" c then (Word "alse", stack)
  else if isChar "n" c then (Word "ull", stack)
  else if isChar "-" c then (Minus, stack)
  else if isChar "0" c then (Zero, stack)
  else if isDigit c then (Digits, stack)
  else (Failed, stack).

Definition isExponentMark (c : ascii) : bool := isChar "e" c || isChar "E" c.

Definition step (configuration : State * list Frame) (c : ascii) : State * list Frame :=
  let (state, stack) := configuration in
  match state with
  | Value => beginValue stack c
  | FirstElement =>
      if isChar "]" c then (Done, tl stack)
      else if isSpace c then (FirstElement, stack)
      else beginValue stack c
  | FirstKey =>
      if isSpace c then (FirstKey, stack)
      else if isChar "}" c then (Done, tl stack)
      else if isChar quote c then (Chars true, stack)
      else (Failed, stack)
  | Key =>
      if isSpace c then (Key, stack)
      else if isChar quote c then (Chars true, stack)
      else (Failed, stack)
  | Colon =>
      if isSpace c then (Colon, stack)
      else if isChar ":" c then (Value, stack)
      else (Failed, stack)
  | Done => afterValue stack c
  | Chars name =>
      if isChar quote c then (if name then Colon else Done, stack)
      else if isChar backslash c then (Escaped name, stack)
      else if Nat.ltb (nat_of_ascii c) 32 then (Failed, stack)
      else (Chars name, stack)
  | Escaped name =>
      if isChar quote c || isChar backslash c || isChar "/" c || isChar "b" c || isChar "f" c
         || isChar "n" c || isChar "r" c || isChar "t" c
      then (Chars name, stack)
      else if isChar "u" c then (Hex name 3, stack)
      else (Failed, stack)
  | Hex name more =>
      if isHex c then
        match more with
        | 0 => (Chars name, stack)
        | S fewer => (Hex name fewer, stack)
        end
      else (Failed, stack)
  | Word rest =>
      match rest with
      | String x EmptyString => if isChar x c then (Done, stack) else (Failed, stack)
      | String x more => if isChar x c then (Word more, stack) else (Failed, stack)
      | EmptyString => (Failed, stack)
      end
  | Minus =>
      if isChar "0" c then (Zero, stack)
      else if isDigit c then (Digits, stack)
      else (Failed, stack)
  | Zero =>
      if isChar "." c then (Point, stack)
      else if isExponentMark c then (Exponent, stack)
      else afterValue stack c
  | Digits =>
      if isDigit c then (Digits, stack)
      else if isChar "." c then (Point, stack)
      else if isExponentMark c then (Exponent, stack)
      else afterValue stack c
  | Point => if isDigit c then (Fraction, stack) else (Failed, stack)
  | Fraction =>
      if isDigit c then (Fraction, stack)
      else if isExponentMark c then (Exponent, stack)
      else afterValue stack c
  | Exponent =>
      if isChar "+" c || isChar "-" c then (ExponentSign, stack)
      else if isDigit c then (ExponentDigits, stack)
      else (Failed, stack)
  | ExponentSign => if isDigit c then (ExponentDigits, stack) else (Failed, stack)
  | ExponentDigits =>
      if isDigit c then (ExponentDigits, stack) else afterValue stack c
  | Failed => (Failed, stack)
  end.

(** The machine run over a text. *)
Fixpoint read (text : string) (configuration : State * list Frame) : State * list Frame :=
  match text with
  | EmptyString => configuration
  | String c rest => read rest (step configuration c)
  end.

(** The text has ended where one value is complete. *)
Definition complete (configuration : State * list Frame) : bool :=
  match configuration with
  | (Done, []) | (Zero, []) | (Digits, []) | (Fraction, []) | (ExponentDigits, []) => true
  | _ => false
  end.

Definition parses (text : string) : bool := complete (read text (Value, [])).

End JsonText.

(** ** EndpointResources *)

Module EndpointResources.

(** [Label::LabelType].  A default-constructed [Label] leaves [type]
    uninitialised; [UNINITIALIZED] stands for such a value, which
    [Label::toJson] handles in its last branch. *)
Inductive LabelType := ASSET | TEXT | UNINITIALIZED.

(** [utils::Optional<Locale>] with [Locale = std::string]. *)
Definition Locale := string.

Record Label := mkLabel {
  type : LabelType;
  value : string;
  locale : option Locale
}.

Definition valueOr (o : option Locale) (other : Locale) : Locale :=
  match o with Some v => v | None => other end.

(** [Label::operator==]: the label type takes no part in the comparison. *)
Definition Label_eqb (lhs rhs : Label) : bool :=
  String.eqb (value lhs) (value rhs)
  && String.eqb (valueOr (locale lhs) EmptyString) (valueOr (locale rhs) EmptyString).

(** [std::find(begin, end, x) != end]. *)
Definition found (x : Label) (l : list Label) : bool :=
  existsb (fun y => Label_eqb y x) l.

(** Severity and reason of a log line written by the add operations. *)
Inductive LogEntry :=
| ACSDK_ERROR (event reason : string)
| ACSDK_WARN (event reason : string).

Definition isError (e : LogEntry) : bool :=
  match e with ACSDK_ERROR _ _ => true | ACSDK_WARN _ _ => false end.

(** The object; [log] collects the lines the object has written to the logger. *)
Record t := mk {
  m_isValid : bool;
  m_friendlyNames : list Label;
  m_manufacturerName : Label;
  m_description : Label;
  log : list LogEntry
}.

Definition defaultLabel : Label :=
  {| type := UNINITIALIZED; value := EmptyString; locale := None |}.

(** [EndpointResources::EndpointResources()]. *)
Definition new : t :=
  {| m_isValid := true;
     m_friendlyNames := [];
     m_manufacturerName := defaultLabel;
     m_description := defaultLabel;
     log := [] |}.

Definition MAX_FRIENDLY_NAME_LENGTH : nat := 128.
Definition MAX_MANUFACTURER_NAME_LENGTH : nat := 128.
Definition MAX_DESCRIPTION_LENGTH : nat := 128.

(** [ACSDK_ERROR(...); m_isValid = false;] *)
Definition flagError (event reason : string) (r : t) : t :=
  {| m_isValid := false;
     m_friendlyNames := m_friendlyNames r;
     m_manufacturerName := m_manufacturerName r;
     m_description := m_description r;
     log := log r ++ [ACSDK_ERROR event reason] |}.

Definition warn (event reason : string) (r : t) : t :=
  {| m_isValid := m_isValid r;
     m_friendlyNames := m_friendlyNames r;
     m_manufacturerName := m_manufacturerName r;
     m_description := m_description r;
     log := log r ++ [ACSDK_WARN event reason] |}.

Definition pushFriendlyName (l : Label) (r : t) : t :=
  {| m_isValid := m_isValid r;
     m_friendlyNames := m_friendlyNames r ++ [l];
     m_manufacturerName := m_manufacturerName r;
     m_description := m_description r;
     log := log r |}.

Definition setManufacturerName (l : Label) (r : t) : t :=
  {| m_isValid := m_isValid r;
     m_friendlyNames := m_friendlyNames r;
     m_manufacturerName := l;
     m_description := m_description r;
     log := log r |}.

Definition setDescription (l : Label) (r : t) : t :=
  {| m_isValid := m_isValid r;
     m_friendlyNames := m_friendlyNames r;
     m_manufacturerName := m_manufacturerName r;
     m_description := l;
     log := log r |}.

Definition addFriendlyNameWithAssetId (assetId : string) (r : t) : t :=
  if Nat.eqb (String.length assetId) 0 then
    flagError "addFriendlyNameWithAssetIdFailed" "invalidAssetId" r
  else if found (mkLabel ASSET assetId None) (m_friendlyNames r) then
    flagError "addFriendlyNameWithAssetIdFailed" "duplicateAssetId" r
  else
    pushFriendlyName (mkLabel ASSET assetId None) r.

Definition addFriendlyNameWithText (text : string) (loc : Locale) (r : t) : t :=
  if Nat.eqb (String.length text) 0 || Nat.ltb MAX_FRIENDLY_NAME_LENGTH (String.length text) then
    flagError "addFriendlyNameWithTextFailed" "invalidText" r
  else if empty loc then
    flagError "addFriendlyNameWithTextFailed" "invalidLocale" r
  else if found (mkLabel TEXT text (Some loc)) (m_friendlyNames r) then
    warn "addFriendlyNameWithTextFailed" "duplicateText" r
  else
    pushFriendlyName (mkLabel TEXT text (Some loc)) r.

Definition addManufacturerNameWithAssetId (assetId : string) (r : t) : t :=
  if Nat.eqb (String.length assetId) 0 then
    flagError "addManufacturerNameWithAssetIdFailed" "invalidAssetId" r
  else if negb (Nat.eqb (String.length (value (m_manufacturerName r))) 0) then
    flagError "addManufacturerNameWithAssetIdFailed" "manufacturerNameAlreadyExists" r
  else
    setManufacturerName (mkLabel ASSET assetId None) r.

(** The two validity checks flag the error and fall through. *)
Definition addManufacturerNameWithText (text : string) (loc : Locale) (r : t) : t :=
  let r1 :=
    if Nat.eqb (String.length text) 0 || Nat.ltb MAX_MANUFACTURER_NAME_LENGTH (String.length text)
    then flagError "addManufacturerNameWithTextFailed" "invalidText" r else r in
  let r2 :=
    if empty loc
    then flagError "addManufacturerNameWithTextFailed" "invalidLocale" r1 else r1 in
  if negb (Nat.eqb (String.length (value (m_manufacturerName r2))) 0) then
    flagError "addManufacturerNameWithAssetIdFailed" "manufacturerNameAlreadyExists" r2
  else
    setManufacturerName (mkLabel TEXT text (Some loc)) r2.

Definition addDescriptionWithAssetId (assetId : string) (r : t) : t :=
  if Nat.eqb (String.length assetId) 0 then
    flagError "addDescriptionWithAssetIdFailed" "invalidAssetId" r
  else if negb (Nat.eqb (String.length (value (m_description r))) 0) then
    flagError "addDescriptionWithAssetIdFailed" "descriptionAlreadyExists" r
  else
    setDescription (mkLabel ASSET assetId None) r.

Definition addDescriptionWithText (text : string) (loc : Locale) (r : t) : t :=
  let r1 :=
    if Nat.eqb (String.length text) 0 || Nat.ltb MAX_DESCRIPTION_LENGTH (String.length text)
    then flagError "addDescriptionWithTextFailed" "invalidText" r else r in
  let r2 :=
    if empty loc
    then flagError "addDescriptionWithTextFailed" "invalidLocale" r1 else r1 in
  if negb (Nat.eqb (String.length (value (m_description r2))) 0) then
    flagError "addDescriptionWithAssetIdFailed" "descriptionAlreadyExists" r2
  else
    setDescription (mkLabel TEXT text (Some loc)) r2.

(** [EndpointResources::isValid]. *)
Definition isValid (r : t) : bool :=
  m_isValid r
  && Nat.ltb 0 (List.length (m_friendlyNames r))
  && Nat.ltb 0 (String.length (value (m_description r)))
  && Nat.ltb 0 (String.length (value (m_manufacturerName r))).

Section Build.

Variable escape : string -> string.
Variable parses : string -> bool.

Let generator := JsonGenerator.new.
Let addMember := JsonGenerator.addMember escape.
Let startObject := JsonGenerator.startObject escape.

(** [Label::toJson].  [locale.value()] of an empty Optional is taken to be
    the default-constructed string. *)
Definition Label_toJson (l : Label) : string :=
  match type l with
  | TEXT =>
      let g := addMember "@type" "text" generator in
      let g := startObject "value" g in
      let g := addMember "text" (value l) g in
      let g := addMember "locale" (valueOr (locale l) EmptyString) g in
      JsonGenerator.toString g
  | ASSET =>
      let g := addMember "@type" "asset" generator in
      let g := startObject "value" g in
      let g := addMember "assetId" (value l) g in
      JsonGenerator.toString g
  | UNINITIALIZED => "{}"
  end.

(** [EndpointResources::build]. *)
Definition build (r : t) : string :=
  if negb (isValid r) then EmptyString
  else
    let friendlyNames := map Label_toJson (m_friendlyNames r) in
    let g := JsonGenerator.addMembersArray escape "friendlyNames" friendlyNames generator in
    let g := JsonGenerator.addRawJsonMember escape parses "manufacturerName"
               (Label_toJson (m_manufacturerName r)) g in
    let g := JsonGenerator.addRawJsonMember escape parses "description"
               (Label_toJson (m_description r)) g in
    JsonGenerator.toString g.

End Build.

(** The add operations as a datatype, to speak about call histories. *)
Inductive Op :=
| AddFriendlyNameWithAssetId (assetId : string)
| AddFriendlyNameWithText (text : string) (loc : Locale)
| AddManufacturerNameWithAssetId (assetId : string)
| AddManufacturerNameWithText (text : string) (loc : Locale)
| AddDescriptionWithAssetId (assetId : string)
| AddDescriptionWithText (text : string) (loc : Locale).

Definition apply (o : Op) (r : t) : t :=
  match o with
  | AddFriendlyNameWithAssetId a => addFriendlyNameWithAssetId a r
  | AddFriendlyNameWithText x l => addFriendlyNameWithText x l r
  | AddManufacturerNameWithAssetId a => addManufacturerNameWithAssetId a r
  | AddManufacturerNameWithText x l => addManufacturerNameWithText x l r
  | AddDescriptionWithAssetId a => addDescriptionWithAssetId a r
  | AddDescriptionWithText x l => addDescriptionWithText x l r
  end.

(** The object after a sequence of calls. *)
Definition run (ops : list Op) (r : t) : t := fold_left (fun r o => apply o r) ops r.

(** The objects seen after each call of a sequence (the initial one excluded). *)
Fixpoint visited (ops : list Op) (r : t) : list t :=
  match ops with
  | [] => []
  | o :: rest => apply o r :: visited rest (apply o r)
  end.

(** A friendly name as the two add operations store it. *)
Definition wellFormed (l : Label) : bool :=
  match type l, locale l with
  | ASSET, None => negb (Nat.eqb (String.length (value l)) 0)
  | TEXT, Some loc =>
      negb (Nat.eqb (String.length (value l)) 0 || Nat.ltb MAX_FRIENDLY_NAME_LENGTH (String.length (value l)))
      && negb (empty loc)
  | _, _ => false
  end.

(** The validity flag is true exactly when no error line was logged. *)
Definition flagMatchesLog (r : t) : Prop :=
  m_isValid r = forallb (fun e => negb (isError e)) (log r).

(** The text [build] writes for a valid object whose raw members pass the
    validation of [addRawJsonMember]. *)
Definition document (escape : string -> string) (r : t) : string :=
  ("{" ++ JsonGenerator.quoted escape "friendlyNames" ++ ":"
       ++ "[" ++ String.concat "," (map (Label_toJson escape) (m_friendlyNames r)) ++ "]"
   ++ "," ++ JsonGenerator.quoted escape "manufacturerName" ++ ":"
       ++ Label_toJson escape (m_manufacturerName r)
   ++ "," ++ JsonGenerator.quoted escape "description" ++ ":"
       ++ Label_toJson escape (m_description r)
   ++ "}")%string.

End EndpointResources.

(** ** AVSDirective *)

Module AVSDirective.

(** A directive, seen through the accessors the sequencer calls. *)
Record t := mk {
  getName : string;
  getMessageId : string;
  getDialogRequestId : string;
  getUnparsedDirective : string;
  getHeaderAsString : string
}.

End AVSDirective.

(** ** DirectiveSequencer *)

Module DirectiveSequencer.

Definition AVSDirective := AVSDirective.t.

(** Modelled from the spec: AVSCommon/AVS/ExceptionErrorType.h is not among
    the sources; these are the error kinds the spec lists for the
    ExceptionReporter. *)
Inductive ExceptionErrorType :=
| UNSUPPORTED_OPERATION
| UNEXPECTED_INFORMATION_RECEIVED
| INTERNAL_ERROR.

(** Identity of a [std::shared_ptr<DirectiveHandlerInterface>]. *)
Definition Handler := nat.

(** Calls the sequencer makes on its collaborators (power resource, condition
    variable, router, processor, exception sender, receiving thread), with the
    value a call returned where the sequencer uses it. *)
Inductive Event :=
| PowerAcquire
| PowerRelease
| AssignThreadPowerResource
| RemoveThreadPowerResource
| NotifyOne
| RouterAddDirectiveHandler (h : Handler) (result : bool)
| RouterRemoveDirectiveHandler (h : Handler) (result : bool)
| ProcessorSetDialogRequestId (dialogRequestId : string)
| ProcessorGetDialogRequestId (result : string)
| ProcessorDisable
| ProcessorEnable
| MetricMsg (d : AVSDirective)
| ProcessorOnDirective (d : AVSDirective) (handled : bool)
| RouterHandleDirectiveImmediately (d : AVSDirective) (handled : bool)
| SendExceptionEncountered (unparsed : string) (kind : ExceptionErrorType) (message : string)
| ThreadJoin
| ProcessorShutdown
| RouterShutdown
| ExceptionSenderReset.

(** Where the receiving thread stands in [receivingLoop]. *)
Inductive ThreadPc :=
| AtEntry                          (* created, mutex not yet taken *)
| Waiting                          (* in [m_wakeReceivingLoop.wait], mutex released *)
| Dispatching (d : AVSDirective)   (* in [receiveDirectiveLocked], after [lock.unlock()] *)
| Exited.

(** Modelled from the spec: [RequiresShutdown], the base class whose
    [shutdown()] calls [doShutdown], is not among the sources; the spec's
    [shutdown()] quiesces the sequencer once, so [doShutdown] is taken to be
    called at most once.  This is where its one caller stands. *)
Inductive ShutdownPc :=
| ShutdownNotCalled
| ShutdownJoining                  (* flag set, in [m_receivingThread.join()] *)
| ShutdownReturned.

Record t := mk {
  m_isShuttingDown : bool;
  m_isEnabled : bool;
  m_receivingQueue : list AVSDirective;
  m_powerResource : bool;          (* the pointer is not null *)
  m_exceptionSender : bool;        (* the pointer is not null *)
  m_receivingThread : ThreadPc;
  joinable : bool;                 (* [m_receivingThread.joinable()] *)
  shutdownPc : ShutdownPc;
  events : list Event
}.

Definition set_isShuttingDown (b : bool) (s : t) : t :=
  mk b (m_isEnabled s) (m_receivingQueue s) (m_powerResource s) (m_exceptionSender s)
     (m_receivingThread s) (joinable s) (shutdownPc s) (events s).

Definition set_isEnabled (b : bool) (s : t) : t :=
  mk (m_isShuttingDown s) b (m_receivingQueue s) (m_powerResource s) (m_exceptionSender s)
     (m_receivingThread s) (joinable s) (shutdownPc s) (events s).

Definition set_receivingQueue (q : list AVSDirective) (s : t) : t :=
  mk (m_isShuttingDown s) (m_isEnabled s) q (m_powerResource s) (m_exceptionSender s)
     (m_receivingThread s) (joinable s) (shutdownPc s) (events s).

Definition set_exceptionSender (b : bool) (s : t) : t :=
  mk (m_isShuttingDown s) (m_isEnabled s) (m_receivingQueue s) (m_powerResource s) b
     (m_receivingThread s) (joinable s) (shutdownPc s) (events s).

Definition set_receivingThread (pc : ThreadPc) (s : t) : t :=
  mk (m_isShuttingDown s) (m_isEnabled s) (m_receivingQueue s) (m_powerResource s)
     (m_exceptionSender s) pc (joinable s) (shutdownPc s) (events s).

Definition set_joinable (b : bool) (s : t) : t :=
  mk (m_isShuttingDown s) (m_isEnabled s) (m_receivingQueue s) (m_powerResource s)
     (m_exceptionSender s) (m_receivingThread s) b (shutdownPc s) (events s).

Definition set_shutdownPc (pc : ShutdownPc) (s : t) : t :=
  mk (m_isShuttingDown s) (m_isEnabled s) (m_receivingQueue s) (m_powerResource s)
     (m_exceptionSender s) (m_receivingThread s) (joinable s) pc (events s).

(** Appends calls to the record of calls made. *)
Definition emit (es : list Event) (s : t) : t :=
  mk (m_isShuttingDown s) (m_isEnabled s) (m_receivingQueue s) (m_powerResource s)
     (m_exceptionSender s) (m_receivingThread s) (joinable s) (shutdownPc s) (events s ++ es).

(** The constructor: [powerResource] tells whether
    [createLocalPowerResource] returned a resource. *)
Definition construct (exceptionSender powerResource : bool) : t :=
  {| m_isShuttingDown := false;
     m_isEnabled := true;
     m_receivingQueue := [];
     m_powerResource := powerResource;
     m_exceptionSender := exceptionSender;
     m_receivingThread := AtEntry;
     joinable := true;
     shutdownPc := ShutdownNotCalled;
     events := if powerResource then [PowerAcquire] else [] |}.

(** [DirectiveSequencer::create]. *)
Definition create (exceptionSender powerResource : bool) : option t :=
  if negb exceptionSender then None else Some (construct exceptionSender powerResource).

Definition addDirectiveHandler (h : Handler) (result : bool) (s : t) : bool * t :=
  (result, emit [RouterAddDirectiveHandler h result] s).

Definition removeDirectiveHandler (h : Handler) (result : bool) (s : t) : bool * t :=
  (result, emit [RouterRemoveDirectiveHandler h result] s).

Definition setDialogRequestId (dialogRequestId : string) (s : t) : t :=
  emit [ProcessorSetDialogRequestId dialogRequestId] s.

Definition getDialogRequestId (result : string) (s : t) : string * t :=
  (result, emit [ProcessorGetDialogRequestId result] s).

(** [DirectiveSequencer::onDirective]; [None] is the null pointer. *)
Definition onDirective (directive : option AVSDirective) (s : t) : bool * t :=
  match directive with
  | None => (false, s)
  | Some d =>
      if m_isShuttingDown s || negb (m_isEnabled s) then (false, s)
      else (true, emit [NotifyOne] (set_receivingQueue (m_receivingQueue s ++ [d]) s))
  end.

(** [doShutdown] up to the join. *)
Definition doShutdown_begin (s : t) : t :=
  set_shutdownPc ShutdownJoining (emit [NotifyOne] (set_isShuttingDown true s)).

(** [doShutdown] from the join on; [None] while the join has to wait. *)
Definition doShutdown_end (s : t) : option t :=
  let finish s :=
    set_shutdownPc ShutdownReturned
      (set_exceptionSender false
         (emit [ProcessorShutdown; RouterShutdown; ExceptionSenderReset] s)) in
  if joinable s then
    match m_receivingThread s with
    | Exited => Some (finish (set_joinable false (emit [ThreadJoin] s)))
    | _ => None
    end
  else Some (finish s).

Definition disable (s : t) : t :=
  emit [ProcessorSetDialogRequestId EmptyString; ProcessorDisable; NotifyOne]
       (set_isEnabled false s).

Definition enable (s : t) : t :=
  emit [ProcessorEnable; NotifyOne] (set_isEnabled true s).

(** The predicate [wake] of [receivingLoop]. *)
Definition wake (s : t) : bool :=
  negb (match m_receivingQueue s with [] => true | _ :: _ => false end) || m_isShuttingDown s.

(** [receiveDirectiveLocked] up to [lock.unlock()]. *)
Definition receiveDirectiveLocked_dequeue (s : t) : t :=
  match m_receivingQueue s with
  | [] => s
  | directive :: rest => set_receivingThread (Dispatching directive) (set_receivingQueue rest s)
  end.

Section Build.

(** The build-time option of the same name: whether it is defined. *)
Variable DIALOG_REQUEST_ID_IN_ALL_RESPONSE_DIRECTIVES : bool.

(** The dispatch call made for a directive, with the answer it gets. *)
Definition route (directive : AVSDirective) (handled : bool) : Event :=
  if DIALOG_REQUEST_ID_IN_ALL_RESPONSE_DIRECTIVES then
    if empty (AVSDirective.getDialogRequestId directive)
    then RouterHandleDirectiveImmediately directive handled
    else ProcessorOnDirective directive handled
  else ProcessorOnDirective directive handled.

Definition metric (directive : AVSDirective) : list Event :=
  if String.eqb (AVSDirective.getName directive) "StopCapture" || String.eqb (AVSDirective.getName directive) "Speak"
  then [MetricMsg directive] else [].

(** [receiveDirectiveLocked] after [lock.unlock()], up to [lock.lock()];
    [handled] is what the dispatch call returns.  [None] stands for the call
    through a null [m_exceptionSender]. *)
Definition receiveDirectiveLocked_dispatch
    (directive : AVSDirective) (handled : bool) (s : t) : option t :=
  let s1 := emit (metric directive ++ [route directive handled]) s in
  if negb handled then
    if m_exceptionSender s1 then
      Some (set_receivingThread Waiting
              (emit [SendExceptionEncountered (AVSDirective.getUnparsedDirective directive)
                       UNSUPPORTED_OPERATION "Unsupported operation"] s1))
    else None
  else Some (set_receivingThread Waiting s1).

(** One step of the receiving thread; [None] when it cannot move (blocked in
    [wait], or gone). *)
Definition receivingLoop_step (handled : bool) (s : t) : option t :=
  match m_receivingThread s with
  | AtEntry => Some (set_receivingThread Waiting (emit [AssignThreadPowerResource] s))
  | Waiting =>
      if negb (wake s) then None
      else if m_isShuttingDown s then
        Some (set_receivingThread Exited
                (emit (RemoveThreadPowerResource ::
                         if m_powerResource s then [PowerRelease] else []) s))
      else Some (receiveDirectiveLocked_dequeue s)
  | Dispatching directive => receiveDirectiveLocked_dispatch directive handled s
  | Exited => None
  end.

(** The receiving thread left to itself until it is gone, for at most [fuel]
    steps. *)
Fixpoint receivingLoop (fuel : nat) (handled : bool) (s : t) : option t :=
  match m_receivingThread s with
  | Exited => Some s
  | _ =>
      match fuel with
      | 0 => None
      | S fuel' =>
          match receivingLoop_step handled s with
          | Some s' => receivingLoop fuel' handled s'
          | None => None
          end
      end
  end.

(** [doShutdown] with no other caller in between: while it waits in the
    join, the receiving thread runs to its end. *)
Definition doShutdown (handled : bool) (s : t) : option t :=
  match receivingLoop 2 handled (doShutdown_begin s) with
  | Some s' => doShutdown_end s'
  | None => None
  end.

(** What can happen to a sequencer: a call of its interface by some thread
    (with the value a pass-through call gets back), the two halves of
    [doShutdown], or a step of the receiving thread. *)
Inductive Label :=
| CallOnDirective (directive : option AVSDirective)
| CallAddDirectiveHandler (h : Handler) (result : bool)
| CallRemoveDirectiveHandler (h : Handler) (result : bool)
| CallSetDialogRequestId (dialogRequestId : string)
| CallGetDialogRequestId (result : string)
| CallDisable
| CallEnable
| ShutdownBegin
| ShutdownEnd
| ReceivingThread (handled : bool).

Definition step (l : Label) (s : t) : option t :=
  match l with
  | CallOnDirective directive => Some (snd (onDirective directive s))
  | CallAddDirectiveHandler h result => Some (snd (addDirectiveHandler h result s))
  | CallRemoveDirectiveHandler h result => Some (snd (removeDirectiveHandler h result s))
  | CallSetDialogRequestId id => Some (setDialogRequestId id s)
  | CallGetDialogRequestId result => Some (snd (getDialogRequestId result s))
  | CallDisable => Some (disable s)
  | CallEnable => Some (enable s)
  | ShutdownBegin =>
      match shutdownPc s with
      | ShutdownNotCalled => Some (doShutdown_begin s)
      | _ => None
      end
  | ShutdownEnd =>
      match shutdownPc s with
      | ShutdownJoining => doShutdown_end s
      | _ => None
      end
  | ReceivingThread handled => receivingLoop_step handled s
  end.

Fixpoint run (ls : list Label) (s : t) : option t :=
  match ls with
  | [] => Some s
  | l :: rest =>
      match step l s with
      | Some s' => run rest s'
      | None => None
      end
  end.

(** The directives [onDirective] accepted along a run, in the order of the calls. *)
Fixpoint accepted (ls : list Label) (s : t) : list AVSDirective :=
  match ls with
  | [] => []
  | l :: rest =>
      match step l s with
      | Some s' =>
          match l with
          | CallOnDirective (Some d) =>
              if fst (onDirective (Some d) s) then d :: accepted rest s' else accepted rest s'
          | _ => accepted rest s'
          end
      | None => []
      end
  end.

End Build.

(** The directives handed to the router or the processor, in the order of the calls. *)
Fixpoint dispatched (es : list Event) : list AVSDirective :=
  match es with
  | [] => []
  | ProcessorOnDirective d _ :: rest => d :: dispatched rest
  | RouterHandleDirectiveImmediately d _ :: rest => d :: dispatched rest
  | _ :: rest => dispatched rest
  end.

(** The dispatched directives whose dispatch call returned false. *)
Fixpoint unhandled (es : list Event) : list AVSDirective :=
  match es with
  | [] => []
  | ProcessorOnDirective d false :: rest => d :: unhandled rest
  | RouterHandleDirectiveImmediately d false :: rest => d :: unhandled rest
  | _ :: rest => unhandled rest
  end.

(** The reports given to the exception sender, in the order of the calls. *)
Fixpoint reported (es : list Event) : list (string * ExceptionErrorType * string) :=
  match es with
  | [] => []
  | SendExceptionEncountered u k m :: rest => (u, k, m) :: reported rest
  | _ :: rest => reported rest
  end.

(** The directive the receiving thread has taken off the queue and not yet dispatched. *)
Definition inFlight (s : t) : list AVSDirective :=
  match m_receivingThread s with
  | Dispatching d => [d]
  | _ => []
  end.

Definition isPowerAcquire (e : Event) : bool :=
  match e with PowerAcquire => true | _ => false end.

Definition isPowerRelease (e : Event) : bool :=
  match e with PowerRelease => true | _ => false end.

Definition acquisitions (s : t) : nat := List.length (filter isPowerAcquire (events s)).
Definition releases (s : t) : nat := List.length (filter isPowerRelease (events s)).

(** The report [receiveDirectiveLocked] makes for a directive nobody handled. *)
Definition unsupported (d : AVSDirective) : string * ExceptionErrorType * string :=
  (AVSDirective.getUnparsedDirective d, UNSUPPORTED_OPERATION, "Unsupported operation").

(** The calls of a completed [doShutdown] within the calls made: its wake-up,
    then the receiving thread's way out (in [mid]), then the join and the
    shutdown of processor and router. *)
Definition shutdownTrace (powerResource : bool) (es : list Event) : Prop :=
  exists pre mid post,
    es = pre ++ NotifyOne :: mid
             ++ [ThreadJoin; ProcessorShutdown; RouterShutdown; ExceptionSenderReset] ++ post
    /\ In RemoveThreadPowerResource mid
    /\ (powerResource = true -> In PowerRelease mid).

(** The calls made while [doShutdown] waits in the join: its wake-up and,
    once the receiving thread is gone, the thread's way out after it. *)
Definition joiningTrace (powerResource : bool) (gone : Prop) (es : list Event) : Prop :=
  exists pre mid,
    es = pre ++ NotifyOne :: mid
    /\ (gone -> In RemoveThreadPowerResource mid
                /\ (powerResource = true -> In PowerRelease mid)).

(** What holds of a sequencer at each stage of its shutdown: the flag, the
    thread handle and the exception sender, and the calls made so far. *)
Definition lifecycle (exceptionSender powerResource : bool) (s : t) : Prop :=
  m_powerResource s = powerResource
  /\ match shutdownPc s with
     | ShutdownNotCalled =>
         m_isShuttingDown s = false /\ m_receivingThread s <> Exited
         /\ joinable s = true /\ m_exceptionSender s = exceptionSender
     | ShutdownJoining =>
         m_isShuttingDown s = true /\ joinable s = true
         /\ m_exceptionSender s = exceptionSender
         /\ joiningTrace powerResource (m_receivingThread s = Exited) (events s)
     | ShutdownReturned =>
         m_isShuttingDown s = true /\ m_receivingThread s = Exited
         /\ joinable s = false /\ shutdownTrace powerResource (events s)
     end.

(** The acquisitions and releases of the power resource among the calls made. *)
Definition powerCount (powerResource : bool) (s : t) : Prop :=
  m_powerResource s = powerResource
  /\ acquisitions s = (if powerResource then 1 else 0)
  /\ releases s = match m_receivingThread s with
                  | Exited => if powerResource then 1 else 0
                  | _ => 0
                  end.

(** Every directive the sequencer has taken in, oldest first: those handed
    on, the one the receiving thread holds, and those still queued. *)
Definition intake (s : t) : list AVSDirective :=
  dispatched (events s) ++ inFlight s ++ m_receivingQueue s.

(** Every unhandled dispatch has its report, and nothing else is reported. *)
Definition reportsMatch (s : t) : Prop :=
  reported (events s) = map unsupported (unhandled (events s)).

(** A run to try the sequencer on: the receiving thread starts, a directive
    nobody handles is accepted, taken off the queue and dispatched, then the
    sequencer is shut down. *)
Definition sampleDirective : AVSDirective :=
  AVSDirective.mk "Bar" "m1" EmptyString "unparsed-m1" "Foo.Bar".

Definition sampleIntake : list Label :=
  [ReceivingThread true; CallOnDirective (Some sampleDirective); ReceivingThread true].

Definition sampleRun : list Label :=
  sampleIntake ++ [ReceivingThread false; ShutdownBegin; ReceivingThread true; ShutdownEnd].

End DirectiveSequencer.

(** ** RegistrationManager *)

Module RegistrationManager.

(** Identity of a [RegistrationObserverInterface] object.  A
    [std::shared_ptr<RegistrationObserverInterface>] is an [option Observer],
    [None] being the null pointer. *)
Definition Observer := nat.

(** Equality of two such pointers. *)
Definition pointer_eqb (a b : option Observer) : bool :=
  match a, b with
  | Some x, Some y => Nat.eqb x y
  | None, None => true
  | _, _ => false
  end.

(** Calls the manager makes on its collaborators. *)
Inductive Event :=
| DirectiveSequencerDisable
| ConnectionManagerDisable
| ClearData
| OnLogout (observer : Observer)
| RecordMetric (activityName : string).

Definition METRIC_SOURCE_PREFIX : string := "REGISTRATION_MANAGER-".
Definition LOGOUT_OCCURRED : string := "LOGOUT_OCCURRED".

(** The elements at [i] and [i + 1] of a list change places. *)
Fixpoint exchange {A : Type} (i : nat) (l : list A) {struct l} : list A :=
  match l with
  | [] => []
  | x :: rest =>
      match i with
      | 0 => match rest with
             | [] => l
             | y :: others => y :: x :: others
             end
      | S j => x :: exchange j rest
      end
  end.

Section Observers.

(** What the observers' callbacks act on.  The directive sequencer is
    shared: the manager holds a pointer to it and so may an observer, so that
    a callback acts on the observers' own state and on the sequencer. *)
Variable ObserverState : Type.
Variable onLogout :
  Observer -> DirectiveSequencer.t * ObserverState -> DirectiveSequencer.t * ObserverState.
(** Whether [MetricEventBuilder::build] yields an event. *)
Variable metricEventBuilt : bool.
(** The order in which a [std::unordered_set] is gone through is not
    specified: it is the order of insertion after any number of exchanges of
    neighbours, which are given by their positions. *)
Variable exchanges : list nat.

Record t := mk {
  m_directiveSequencer : bool;                          (* the pointer is not null *)
  m_connectionManager : bool;                           (* the pointer is not null *)
  m_dataManager : bool;                                 (* the pointer is not null *)
  m_metricRecorder : bool;                              (* the pointer is not null *)
  m_observers : list (option Observer);                 (* the set, a null pointer included *)
  directiveSequencer : DirectiveSequencer.t;            (* the shared sequencer *)
  observerState : ObserverState;
  events : list Event
}.

(** How a call ends: it returns, or it goes through a null pointer; either
    way with the state reached. *)
Inductive Outcome :=
| Returned (w : t)
| NullDereference (w : t).

Definition state (outcome : Outcome) : t :=
  match outcome with
  | Returned w => w
  | NullDereference w => w
  end.

(** What follows is done when the call before it returned. *)
Definition andThen (outcome : Outcome) (next : t -> Outcome) : Outcome :=
  match outcome with
  | Returned w => next w
  | NullDereference w => NullDereference w
  end.

Definition set_observers (obs : list (option Observer)) (w : t) : t :=
  mk (m_directiveSequencer w) (m_connectionManager w) (m_dataManager w) (m_metricRecorder w)
     obs (directiveSequencer w) (observerState w) (events w).

Definition set_shared (sequencer : DirectiveSequencer.t) (o : ObserverState) (w : t) : t :=
  mk (m_directiveSequencer w) (m_connectionManager w) (m_dataManager w) (m_metricRecorder w)
     (m_observers w) sequencer o (events w).

Definition emit (es : list Event) (w : t) : t :=
  mk (m_directiveSequencer w) (m_connectionManager w) (m_dataManager w) (m_metricRecorder w)
     (m_observers w) (directiveSequencer w) (observerState w) (events w ++ es).

(** The constructor: null collaborators are logged and kept.  [sequencer] is
    the sequencer object there is, [directiveSequencerPointer] whether the
    manager is given a pointer to it. *)
Definition construct (directiveSequencerPointer connectionManager dataManager
    metricRecorder : bool) (sequencer : DirectiveSequencer.t) (o : ObserverState) : t :=
  mk directiveSequencerPointer connectionManager dataManager metricRecorder [] sequencer o [].

(** [m_observers.insert]: a set holds a pointer once; a null pointer is
    inserted as any other. *)
Definition addObserver (observer : option Observer) (w : t) : t :=
  if existsb (pointer_eqb observer) (m_observers w) then w
  else set_observers (m_observers w ++ [observer]) w.

(** [m_observers.erase]. *)
Definition removeObserver (observer : option Observer) (w : t) : t :=
  set_observers (filter (fun o => negb (pointer_eqb observer o)) (m_observers w)) w.

(** The order in which the set is gone through. *)
Definition iteration (observers : list (option Observer)) : list (option Observer) :=
  fold_left (fun l i => exchange i l) exchanges observers.

(** [observer->onLogout()] on an observer that is not null. *)
Definition callOnLogout (observer : Observer) (w : t) : t :=
  let (sequencer, o) := onLogout observer (directiveSequencer w, observerState w) in
  set_shared sequencer o (emit [OnLogout observer] w).

(** The loop of [notifyObservers] over the observers still to be called. *)
Fixpoint notify (observers : list (option Observer)) (w : t) : Outcome :=
  match observers with
  | [] => Returned w
  | None :: _ => NullDereference w
  | Some observer :: rest => notify rest (callOnLogout observer w)
  end.

Definition notifyObservers (w : t) : Outcome := notify (iteration (m_observers w)) w.

Definition submitLogoutMetric (w : t) : t :=
  if negb (m_metricRecorder w) then w
  else if negb metricEventBuilt then w
  else emit [RecordMetric (METRIC_SOURCE_PREFIX ++ LOGOUT_OCCURRED)%string] w.

(** [m_directiveSequencer->disable()]. *)
Definition disableDirectiveSequencer (w : t) : Outcome :=
  if negb (m_directiveSequencer w) then NullDereference w
  else Returned (set_shared (DirectiveSequencer.disable (directiveSequencer w))
                   (observerState w) (emit [DirectiveSequencerDisable] w)).

(** [m_connectionManager->disable()]. *)
Definition disableConnectionManager (w : t) : Outcome :=
  if negb (m_connectionManager w) then NullDereference w
  else Returned (emit [ConnectionManagerDisable] w).

(** [m_dataManager->clearData()]. *)
Definition clearData (w : t) : Outcome :=
  if negb (m_dataManager w) then NullDereference w
  else Returned (emit [ClearData] w).

(** [logout] up to the call of [notifyObservers]. *)
Definition logout_prepare (w : t) : Outcome :=
  andThen (disableDirectiveSequencer w) (fun w1 =>
  andThen (disableConnectionManager w1) clearData).

(** [RegistrationManager::logout]. *)
Definition logout (w : t) : Outcome :=
  andThen (logout_prepare w) (fun w3 =>
  andThen (notifyObservers w3) (fun w4 =>
  Returned (submitLogoutMetric w4))).

(** The callbacks of observers that are not null, one after the other. *)
Fixpoint callAll (observers : list Observer) (w : t) : t :=
  match observers with
  | [] => w
  | observer :: rest => callAll rest (callOnLogout observer w)
  end.

End Observers.

Arguments m_directiveSequencer {ObserverState}.
Arguments m_connectionManager {ObserverState}.
Arguments m_dataManager {ObserverState}.
Arguments m_metricRecorder {ObserverState}.
Arguments m_observers {ObserverState}.
Arguments directiveSequencer {ObserverState}.
Arguments observerState {ObserverState}.
Arguments events {ObserverState}.
Arguments Returned {ObserverState}.
Arguments NullDereference {ObserverState}.
Arguments state {ObserverState}.
Arguments andThen {ObserverState}.
Arguments emit {ObserverState}.
Arguments construct {ObserverState}.
Arguments addObserver {ObserverState}.
Arguments removeObserver {ObserverState}.
Arguments callOnLogout {ObserverState}.
Arguments notify {ObserverState}.
Arguments notifyObservers {ObserverState}.
Arguments submitLogoutMetric {ObserverState}.
Arguments logout_prepare {ObserverState}.
Arguments logout {ObserverState}.
Arguments callAll {ObserverState}.

End RegistrationManager.

(** ** EndpointResources: what the add operations store *)

Module EndpointResourcesSpec.
Import EndpointResources.

(** No two labels of a list compare equal under [Label::operator==]. *)
Fixpoint distinct (l : list Label) : bool :=
  match l with
  | [] => true
  | x :: rest => negb (found x rest) && distinct rest
  end.

(** The three parts of an object. *)
Inductive Part := FriendlyName | ManufacturerName | Description.

Definition part (o : Op) : Part :=
  match o with
  | AddFriendlyNameWithAssetId _ | AddFriendlyNameWithText _ _ => FriendlyName
  | AddManufacturerNameWithAssetId _ | AddManufacturerNameWithText _ _ => ManufacturerName
  | AddDescriptionWithAssetId _ | AddDescriptionWithText _ _ => Description
  end.

Definition isPart (p : Part) (o : Op) : bool :=
  match p, part o with
  | FriendlyName, FriendlyName => true
  | ManufacturerName, ManufacturerName => true
  | Description, Description => true
  | _, _ => false
  end.

(** The label an operation asks to store. *)
Definition labelOf (o : Op) : Label :=
  match o with
  | AddFriendlyNameWithAssetId a | AddManufacturerNameWithAssetId a
  | AddDescriptionWithAssetId a => mkLabel ASSET a None
  | AddFriendlyNameWithText x l | AddManufacturerNameWithText x l
  | AddDescriptionWithText x l => mkLabel TEXT x (Some l)
  end.

(** The length limit an operation checks a text against. *)
Definition limit (p : Part) : nat :=
  match p with
  | FriendlyName => MAX_FRIENDLY_NAME_LENGTH
  | ManufacturerName => MAX_MANUFACTURER_NAME_LENGTH
  | Description => MAX_DESCRIPTION_LENGTH
  end.

(** A label that passes the checks of the operations of a part: an asset
    with a non-empty id and no locale, or a text of 1 to [limit] characters
    with a non-empty locale. *)
Definition stored (p : Part) (l : Label) : bool :=
  match type l, locale l with
  | ASSET, None => negb (Nat.eqb (String.length (value l)) 0)
  | TEXT, Some loc =>
      negb (Nat.eqb (String.length (value l)) 0 || Nat.ltb (limit p) (String.length (value l)))
      && negb (empty loc)
  | _, _ => false
  end.

(** The inputs of an operation pass its checks on them. *)
Definition validInput (o : Op) : bool := stored (part o) (labelOf o).

(** The label of the first operation of a part among [ops], or the label of
    a fresh object when there is none. *)
Definition firstLabel (p : Part) (ops : list Op) : Label :=
  match filter (isPart p) ops with
  | [] => defaultLabel
  | o :: _ => labelOf o
  end.

(** While no error is flagged, manufacturer name and description are either
    untouched or labels that passed the checks. *)
Definition partsStored (r : t) : Prop :=
  m_isValid r = true ->
  (m_manufacturerName r = defaultLabel \/ stored ManufacturerName (m_manufacturerName r) = true)
  /\ (m_description r = defaultLabel \/ stored Description (m_description r) = true).

(** The object holds what a sequence of calls asked for: no error flagged,
    nothing logged, the friendly names in the order of their calls, and for manufacturer name
    and description the label of the first call for it. *)
Definition followsCalls (ops : list Op) (r : t) : Prop :=
  m_isValid r = true
  /\ log r = []
  /\ m_friendlyNames r = map labelOf (filter (isPart FriendlyName) ops)
  /\ m_manufacturerName r = firstLabel ManufacturerName ops
  /\ m_description r = firstLabel Description ops.

(** A sequence of calls as the class is meant to be used: inputs that pass
    the checks, no friendly name given twice, manufacturer name and
    description given at most once. *)
Definition wellUsed (ops : list Op) : Prop :=
  Forall (fun o => validInput o = true) ops
  /\ distinct (map labelOf (filter (isPart FriendlyName) ops)) = true
  /\ List.length (filter (isPart ManufacturerName) ops) <= 1
  /\ List.length (filter (isPart Description) ops) <= 1.

End EndpointResourcesSpec.

(** ** RegistrationManager: the calls that register observers *)

Module RegistrationManagerSpec.
Import RegistrationManager.

Inductive ObserverCall :=
| AddObserver (observer : option Observer)
| RemoveObserver (observer : option Observer).

Definition call {O : Type} (c : ObserverCall) (w : t O) : t O :=
  match c with
  | AddObserver observer => addObserver observer w
  | RemoveObserver observer => removeObserver observer w
  end.

Definition calls {O : Type} (cs : list ObserverCall) (w : t O) : t O :=
  fold_left (fun w c => call c w) cs w.

(** Whether the last call that names a pointer, if any, added it. *)
Definition registered (cs : list ObserverCall) (observer : option Observer) : bool :=
  fold_left
    (fun b c =>
       match c with
       | AddObserver x => if pointer_eqb x observer then true else b
       | RemoveObserver x => if pointer_eqb x observer then false else b
       end)
    cs false.

(** The observers of a list up to its first null pointer. *)
Fixpoint untilNull (observers : list (option Observer)) : list Observer :=
  match observers with
  | Some observer :: rest => observer :: untilNull rest
  | _ => []
  end.

(** How often an observer's [onLogout] was called. *)
Definition notifications (observer : Observer) (es : list Event) : nat :=
  List.length
    (filter (fun e => match e with OnLogout x => Nat.eqb x observer | _ => false end) es).

(** An observer that holds the pointer to the sequencer and, when logged
    out, hands it a directive and notes the answer. *)
Definition sampleOnLogout (observer : Observer)
    (shared : DirectiveSequencer.t * list (Observer * bool))
    : DirectiveSequencer.t * list (Observer * bool) :=
  let (answer, sequencer) :=
    DirectiveSequencer.onDirective (Some DirectiveSequencer.sampleDirective) (fst shared) in
  (sequencer, snd shared ++ [(observer, answer)]).

End RegistrationManagerSpec.

(** ** MessagingCapabilityAgent *)

Module MessagingCapabilityAgent.

(** [MessagingObserverInterface::MessagingEndpoint]. *)
Inductive MessagingEndpoint := DEFAULT.

Inductive StatusErrorCode := GENERIC_FAILURE | NO_CONNECTIVITY | NO_PERMISSION.

Inductive UploadMode := DELETE_ALL_AND_STORE.

Inductive ConnectionState := DISCONNECTED | CONNECTED.

Inductive PermissionState := OFF | ON.

Record MessagingEndpointState := mkState {
  connection : ConnectionState;
  sendPermission : PermissionState;
  readPermission : PermissionState
}.

(** The default constructor of [MessagingEndpointState]. *)
Definition defaultState : MessagingEndpointState := mkState DISCONNECTED OFF OFF.

(** The conversions to text of the header; a value outside an enumeration,
    for which they return UNKNOWN, is no value of these types. *)
Definition messagingEndpointToString (messagingEndpoint : MessagingEndpoint) : string :=
  match messagingEndpoint with DEFAULT => "DEFAULT" end.

Definition statusErrorCodeToString (code : StatusErrorCode) : string :=
  match code with
  | GENERIC_FAILURE => "GENERIC_FAILURE"
  | NO_CONNECTIVITY => "NO_CONNECTIVITY"
  | NO_PERMISSION => "NO_PERMISSION"
  end.

Definition uploadModeToString (mode : UploadMode) : string :=
  match mode with DELETE_ALL_AND_STORE => "DELETE_ALL_AND_STORE" end.

Definition connectionStateToString (c : ConnectionState) : string :=
  match c with CONNECTED => "CONNECTED" | DISCONNECTED => "DISCONNECTED" end.

Definition permissionStateToString (permission : PermissionState) : string :=
  match permission with ON => "ON" | OFF => "OFF" end.

Definition NamespaceAndName := (string * string)%type.

Definition NAMESPACE : string := "Alexa.Comms.MessagingController".
Definition CONTEXT_MANAGER_MESSAGING_STATE : NamespaceAndName :=
  (NAMESPACE, "MessagingControllerState").
Definition SEND_MESSAGE : NamespaceAndName := (NAMESPACE, "SendMessage").
Definition UPDATE_MESSAGES_STATUS : NamespaceAndName := (NAMESPACE, "UpdateMessagesStatus").
Definition UPLOAD_CONVERSATIONS : NamespaceAndName := (NAMESPACE, "UploadConversations").

Definition JSON_KEY_TOKEN : string := "token".
Definition JSON_KEY_CONVERSATION_ID : string := "conversationId".
Definition JSON_KEY_STATUS_MAP : string := "statusMap".
Definition JSON_KEY_MESSAGING_ENDPOINTS : string := "messagingEndpoints".
Definition JSON_KEY_MESSAGING_ENDPOINT_INFO : string := "messagingEndpointInfo".
Definition JSON_KEY_MESSAGING_ENDPOINT_NAME : string := "name".
Definition JSON_KEY_MESSAGING_ENDPOINT_STATES : string := "messagingEndpointStates".
Definition JSON_KEY_MESSAGING_PERMISSIONS : string := "permissions".
Definition JSON_KEY_MESSAGING_SEND_PERMISSION : string := "sendPermission".
Definition JSON_KEY_MESSAGING_READ_PERMISSION : string := "readPermission".
Definition JSON_KEY_CONNECTION_STATE : string := "connectionState".

(** Modelled from the spec: [BlockingPolicy] is not among the sources; a
    policy is a set of mediums and whether it blocks, the mediums being at
    least AUDIO and VISUAL. *)
Inductive Medium := AUDIO | VISUAL.

Record BlockingPolicy := mkPolicy {
  mediums : list Medium;
  isBlocking : bool
}.

Definition MEDIUMS_NONE : list Medium := [].

Definition DirectiveHandlerConfiguration := list (NamespaceAndName * BlockingPolicy).

Definition NamespaceAndName_eqb (a b : NamespaceAndName) : bool :=
  String.eqb (fst a) (fst b) && String.eqb (snd a) (snd b).

(** [configuration[key] = policy] on the map. *)
Fixpoint assignPolicy (key : NamespaceAndName) (policy : BlockingPolicy)
    (configuration : DirectiveHandlerConfiguration) : DirectiveHandlerConfiguration :=
  match configuration with
  | [] => [(key, policy)]
  | (k, p) :: rest =>
      if NamespaceAndName_eqb k key then (k, policy) :: rest
      else (k, p) :: assignPolicy key policy rest
  end.

Definition getConfiguration : DirectiveHandlerConfiguration :=
  let noneNonBlockingPolicy := mkPolicy MEDIUMS_NONE false in
  let configuration := [] in
  let configuration := assignPolicy SEND_MESSAGE noneNonBlockingPolicy configuration in
  let configuration := assignPolicy UPDATE_MESSAGES_STATUS noneNonBlockingPolicy configuration in
  let configuration := assignPolicy UPLOAD_CONVERSATIONS noneNonBlockingPolicy configuration in
  configuration.

(** A directive as the agent reads it: name and message id of the header,
    and the payload. *)
Record Directive := mkDirective {
  header : AVSDirective.t;
  getPayload : string
}.

Definition getName (d : Directive) : string := AVSDirective.getName (header d).
Definition getMessageId (d : Directive) : string := AVSDirective.getMessageId (header d).

(** [CapabilityAgent::DirectiveInfo]: [directive] may be null, [result]
    tells whether there is a result object. *)
Record DirectiveInfo := mkInfo {
  directive : option Directive;
  result : bool
}.

(** Identity of a [std::shared_ptr<MessagingObserverInterface>]. *)
Definition Observer := nat.

Definition ContextRequestToken := nat.

(** Modelled from the spec: [CapabilityTag] is not among the sources; as a
    routing key, it names a state provider by namespace and name. *)
Definition CapabilityTag := NamespaceAndName.

(** Calls the agent makes on its observers, on the [CapabilityAgent] it
    derives from, on the result object of a directive and on the context
    manager. *)
Inductive Event :=
| SendMessage (observer : Observer) (token : string) (endpoint : MessagingEndpoint)
    (jsonPayload : string)
| UpdateMessagesStatus (observer : Observer) (token : string) (endpoint : MessagingEndpoint)
    (jsonPayload : string)
| UploadConversations (observer : Observer) (token : string) (endpoint : MessagingEndpoint)
    (jsonPayload : string)
| SendExceptionEncounteredAndReportFailed (info : DirectiveInfo) (message : string)
    (type : DirectiveSequencer.ExceptionErrorType)
| SetCompleted (messageId : string)
| RemoveDirective (messageId : string)
| AddStateProvider (stateProviderName : CapabilityTag)
| ReportStateChange (stateProviderName : CapabilityTag) (context : string)
| ProvideStateResponse (stateProviderName : CapabilityTag) (context : string)
    (contextRequestToken : ContextRequestToken).

(** What is submitted to the executor. *)
Inductive Task :=
| HandleDirectiveTask (info : DirectiveInfo)
| ProvideStateTask (stateProviderName : CapabilityTag)
    (contextRequestToken : ContextRequestToken)
| UpdateMessagingEndpointStateTask (messagingEndpointState : MessagingEndpointState)
    (messagingEndpoint : MessagingEndpoint).

(** Modelled from the spec: [utils::threading::Executor] is not among the
    sources; the header has it serialize the requests, and as the worker
    threads of the spec it runs them one at a time, oldest first.
    [m_executor] holds the tasks submitted and not yet run.  [m_observers]
    never holds a null pointer, [addObserver] refusing it. *)
Record t := mk {
  m_observers : list Observer;
  m_messagingEndpointsState : list (string * MessagingEndpointState);
  m_messagingContext : string;
  m_capabilityConfigurations : list (list (string * string));
  m_executor : list Task;
  events : list Event
}.

Definition emit (es : list Event) (s : t) : t :=
  mk (m_observers s) (m_messagingEndpointsState s) (m_messagingContext s)
     (m_capabilityConfigurations s) (m_executor s) (events s ++ es).

Definition set_observers (observers : list Observer) (s : t) : t :=
  mk observers (m_messagingEndpointsState s) (m_messagingContext s)
     (m_capabilityConfigurations s) (m_executor s) (events s).

Definition set_messagingEndpointsState (m : list (string * MessagingEndpointState)) (s : t) : t :=
  mk (m_observers s) m (m_messagingContext s)
     (m_capabilityConfigurations s) (m_executor s) (events s).

Definition set_messagingContext (context : string) (s : t) : t :=
  mk (m_observers s) (m_messagingEndpointsState s) context
     (m_capabilityConfigurations s) (m_executor s) (events s).

Definition set_capabilityConfigurations (c : list (list (string * string))) (s : t) : t :=
  mk (m_observers s) (m_messagingEndpointsState s) (m_messagingContext s)
     c (m_executor s) (events s).

Definition set_executor (tasks : list Task) (s : t) : t :=
  mk (m_observers s) (m_messagingEndpointsState s) (m_messagingContext s)
     (m_capabilityConfigurations s) tasks (events s).

(** [m_executor.submit]. *)
Definition submit (task : Task) (s : t) : t := set_executor (m_executor s ++ [task]) s.

(** [m_messagingEndpointsState[key] = state] on the map. *)
Fixpoint assignState (key : string) (state : MessagingEndpointState)
    (m : list (string * MessagingEndpointState)) : list (string * MessagingEndpointState) :=
  match m with
  | [] => [(key, state)]
  | (k, v) :: rest =>
      if String.eqb k key then (k, state) :: rest else (k, v) :: assignState key state rest
  end.

(** [m_messagingEndpointsState.emplace(key, state)]: nothing when the key is there. *)
Definition emplaceState (key : string) (state : MessagingEndpointState)
    (m : list (string * MessagingEndpointState)) : list (string * MessagingEndpointState) :=
  if existsb (fun e => String.eqb (fst e) key) m then m else m ++ [(key, state)].

(** [addObserver]; [None] is the null pointer. *)
Definition addObserver (observer : option Observer) (s : t) : t :=
  match observer with
  | None => s
  | Some o =>
      if existsb (Nat.eqb o) (m_observers s) then s
      else set_observers (m_observers s ++ [o]) s
  end.

Definition removeObserver (observer : option Observer) (s : t) : t :=
  match observer with
  | None => s
  | Some o => set_observers (filter (fun x => negb (Nat.eqb o x)) (m_observers s)) s
  end.

(** [removeDirective]; called with an info that is not null. *)
Definition removeDirective (info : DirectiveInfo) (s : t) : t :=
  match directive info with
  | Some d => if result info then emit [RemoveDirective (getMessageId d)] s else s
  | None => s
  end.

Definition cancelDirective (info : DirectiveInfo) (s : t) : t := removeDirective info s.

Definition executeSetHandlingCompleted (info : DirectiveInfo) (s : t) : t :=
  let s1 :=
    match directive info with
    | Some d => if result info then emit [SetCompleted (getMessageId d)] s else s
    | None => s
    end in
  removeDirective info s1.

Section Json.

(** A parsed JSON value and the JSON helpers the agent calls
    ([rapidjson::Document::Parse] and [jsonUtils::findNode],
    [jsonUtils::retrieveValue], [Value::IsObject]); [findNode] gives the value
    of the member found. *)
Variable Value : Type.
Variable parse : string -> option Value.
Variable findNode : Value -> string -> option Value.
Variable retrieveValue : Value -> string -> option string.
Variable isObject : Value -> bool.
(** The writer's string escaping, and the operations of the writer on nested
    objects and arrays, which are not among the sources. *)
Variable escape : string -> string.
Variable finishObject : JsonGenerator.t -> JsonGenerator.t.
Variable startArray : string -> JsonGenerator.t -> JsonGenerator.t.
Variable startArrayElement : JsonGenerator.t -> JsonGenerator.t.
Variable finishArrayElement : JsonGenerator.t -> JsonGenerator.t.
Variable finishArray : JsonGenerator.t -> JsonGenerator.t.
(** The keys of a capability configuration (CapabilityConfiguration.h). *)
Variables CAPABILITY_INTERFACE_TYPE_KEY CAPABILITY_INTERFACE_NAME_KEY
  CAPABILITY_INTERFACE_VERSION_KEY CAPABILITY_INTERFACE_CONFIGURATIONS_KEY : string.

Definition MESSAGING_CAPABILITY_INTERFACE_TYPE : string := "AlexaInterface".
Definition MESSAGING_CAPABILITY_INTERFACE_VERSION : string := "1.0".

(** [sendExceptionEncounteredAndReportFailed(...); return false;] *)
Definition failed (info : DirectiveInfo) (message : string) (s : t) : bool * t :=
  (false,
   emit [SendExceptionEncounteredAndReportFailed info message
           DirectiveSequencer.UNEXPECTED_INFORMATION_RECEIVED] s).

Definition executeSendMessageDirective
    (info : DirectiveInfo) (d : Directive) (payload : Value) (s : t) : bool * t :=
  match findNode payload JSON_KEY_TOKEN with
  | None => failed info "'token' is not found or empty." s
  | Some _ =>
  match retrieveValue payload JSON_KEY_TOKEN with
  | None => failed info "'token' is not found or empty." s
  | Some token =>
  if empty token then failed info "'token' is not found or empty." s else
  match findNode payload JSON_KEY_MESSAGING_ENDPOINT_INFO with
  | None => failed info "'messagingEndpointInfo' is not found." s
  | Some it =>
  if negb (isObject it) then failed info "'messagingEndpointInfo' is not found." s else
  match findNode it JSON_KEY_MESSAGING_ENDPOINT_NAME with
  | None => failed info "'messagingEndpointInfo' is not found." s
  | Some _ =>
  match retrieveValue it JSON_KEY_MESSAGING_ENDPOINT_NAME with
  | None => failed info "'messagingEndpointInfo' is not found." s
  | Some name =>
  if String.eqb name "DEFAULT" then
    let endpoint := DEFAULT in
    (true, emit (map (fun observer => SendMessage observer token endpoint (getPayload d))
                     (m_observers s)) s)
  else failed info "'name' value is invalid." s
  end end end end end.

Definition executeUpdateMessagesStatusDirective
    (info : DirectiveInfo) (d : Directive) (payload : Value) (s : t) : bool * t :=
  match findNode payload JSON_KEY_TOKEN with
  | None => failed info "'token' is not found or empty." s
  | Some _ =>
  match retrieveValue payload JSON_KEY_TOKEN with
  | None => failed info "'token' is not found or empty." s
  | Some token =>
  if empty token then failed info "'token' is not found or empty." s else
  match findNode payload JSON_KEY_MESSAGING_ENDPOINT_INFO with
  | None => failed info "'messagingEndpointInfo' is not found." s
  | Some it =>
  if negb (isObject it) then failed info "'messagingEndpointInfo' is not found." s else
  match findNode it JSON_KEY_MESSAGING_ENDPOINT_NAME with
  | None => failed info "'messagingEndpointInfo' is not found." s
  | Some _ =>
  match retrieveValue it JSON_KEY_MESSAGING_ENDPOINT_NAME with
  | None => failed info "'messagingEndpointInfo' is not found." s
  | Some name =>
  if String.eqb name "DEFAULT" then
    let endpoint := DEFAULT in
    match findNode payload JSON_KEY_CONVERSATION_ID with
    | None => failed info "'conversationId' is not found or empty." s
    | Some _ =>
    match retrieveValue payload JSON_KEY_CONVERSATION_ID with
    | None => failed info "'conversationId' is not found or empty." s
    | Some conversationId =>
    if empty conversationId then failed info "'conversationId' is not found or empty." s else
    match findNode payload JSON_KEY_STATUS_MAP with
    | None => failed info "'statusMap' is not found." s
    | Some statusMap =>
    if negb (isObject statusMap) then failed info "'statusMap' is not found." s else
    (true, emit (map (fun observer =>
                        UpdateMessagesStatus observer token endpoint (getPayload d))
                     (m_observers s)) s)
    end end end
  else failed info "'name' value is invalid." s
  end end end end end.

Definition executeUploadConversationsDirective
    (info : DirectiveInfo) (d : Directive) (payload : Value) (s : t) : bool * t :=
  match findNode payload JSON_KEY_TOKEN with
  | None => failed info "'token' is not found or empty." s
  | Some _ =>
  match retrieveValue payload JSON_KEY_TOKEN with
  | None => failed info "'token' is not found or empty." s
  | Some token =>
  if empty token then failed info "'token' is not found or empty." s else
  match findNode payload JSON_KEY_MESSAGING_ENDPOINT_INFO with
  | None => failed info "'messagingEndpointInfo' is not found." s
  | Some it =>
  if negb (isObject it) then failed info "'messagingEndpointInfo' is not found." s else
  match findNode it JSON_KEY_MESSAGING_ENDPOINT_NAME with
  | None => failed info "'messagingEndpointInfo' is not found." s
  | Some _ =>
  match retrieveValue it JSON_KEY_MESSAGING_ENDPOINT_NAME with
  | None => failed info "'messagingEndpointInfo' is not found." s
  | Some name =>
  if String.eqb name "DEFAULT" then
    let endpoint := DEFAULT in
    (true, emit (map (fun observer =>
                        UploadConversations observer token endpoint (getPayload d))
                     (m_observers s)) s)
  else failed info "'name' value is invalid." s
  end end end end end.

(** The task [handleDirective] submits; [None] stands for the call through
    a null [info->directive]. *)
Definition handleDirectiveTask (info : DirectiveInfo) (s : t) : option t :=
  match directive info with
  | None => None
  | Some d =>
      let directiveName := getName d in
      match parse (getPayload d) with
      | None =>
          Some (snd (failed info "Unable to parse payload" s))
      | Some payload =>
          if String.eqb directiveName (snd SEND_MESSAGE) then
            let (ok, s1) := executeSendMessageDirective info d payload s in
            if ok then Some (executeSetHandlingCompleted info s1) else Some s1
          else if String.eqb directiveName (snd UPDATE_MESSAGES_STATUS) then
            let (ok, s1) := executeUpdateMessagesStatusDirective info d payload s in
            if ok then Some (executeSetHandlingCompleted info s1) else Some s1
          else if String.eqb directiveName (snd UPLOAD_CONVERSATIONS) then
            let (ok, s1) := executeUploadConversationsDirective info d payload s in
            if ok then Some (executeSetHandlingCompleted info s1) else Some s1
          else
            Some (snd (failed info "Unexpected Directive" s))
      end
  end.

(** [handleDirective]; [None] is the null info. *)
Definition handleDirective (info : option DirectiveInfo) (s : t) : t :=
  match info with
  | None => s
  | Some i => submit (HandleDirectiveTask i) s
  end.

Definition handleDirectiveImmediately (d : option Directive) (s : t) : t :=
  handleDirective (Some (mkInfo d false)) s.

Definition preHandleDirective (info : option DirectiveInfo) (s : t) : t := s.

(** The element of the context for one entry of the map. *)
Definition contextElement (g : JsonGenerator.t) (entry : string * MessagingEndpointState)
    : JsonGenerator.t :=
  let g := startArrayElement g in
  let g := JsonGenerator.startObject escape JSON_KEY_MESSAGING_ENDPOINT_INFO g in
  let g := JsonGenerator.addMember escape JSON_KEY_MESSAGING_ENDPOINT_NAME (fst entry) g in
  let g := finishObject g in
  let g := JsonGenerator.addMember escape JSON_KEY_CONNECTION_STATE
             (connectionStateToString (connection (snd entry))) g in
  let g := JsonGenerator.startObject escape JSON_KEY_MESSAGING_PERMISSIONS g in
  let g := JsonGenerator.addMember escape JSON_KEY_MESSAGING_SEND_PERMISSION
             (permissionStateToString (sendPermission (snd entry))) g in
  let g := JsonGenerator.addMember escape JSON_KEY_MESSAGING_READ_PERMISSION
             (permissionStateToString (readPermission (snd entry))) g in
  let g := finishObject g in
  finishArrayElement g.

(** The text [executeUpdateMessagingEndpointContext] builds from the map. *)
Definition contextJson (m : list (string * MessagingEndpointState)) : string :=
  let g := startArray JSON_KEY_MESSAGING_ENDPOINT_STATES
             JsonGenerator.new in
  let g := fold_left contextElement m g in
  let g := finishArray g in
  JsonGenerator.toString g.

Definition executeUpdateMessagingEndpointContext (s : t) : t :=
  let s1 := set_messagingContext (contextJson (m_messagingEndpointsState s)) s in
  emit [ReportStateChange CONTEXT_MANAGER_MESSAGING_STATE (m_messagingContext s1)] s1.

Definition executeProvideState (stateProviderName : CapabilityTag)
    (contextRequestToken : ContextRequestToken) (s : t) : t :=
  emit [ProvideStateResponse stateProviderName (m_messagingContext s) contextRequestToken] s.

Definition provideState (stateProviderName : CapabilityTag)
    (contextRequestToken : ContextRequestToken) (s : t) : t :=
  submit (ProvideStateTask stateProviderName contextRequestToken) s.

Definition updateMessagingEndpointState (messagingEndpointState : MessagingEndpointState)
    (messagingEndpoint : MessagingEndpoint) (s : t) : t :=
  submit (UpdateMessagingEndpointStateTask messagingEndpointState messagingEndpoint) s.

Definition buildMessagingEndpointConfigurationJson : string :=
  let g := startArray JSON_KEY_MESSAGING_ENDPOINTS
             JsonGenerator.new in
  let g := startArrayElement g in
  let g := JsonGenerator.startObject escape JSON_KEY_MESSAGING_ENDPOINT_INFO g in
  let g := JsonGenerator.addMember escape JSON_KEY_MESSAGING_ENDPOINT_NAME
             (messagingEndpointToString DEFAULT) g in
  let g := finishObject g in
  let g := finishArrayElement g in
  let g := finishArray g in
  JsonGenerator.toString g.

Definition generateCapabilityConfiguration (s : t) : t :=
  let configMap :=
    [(CAPABILITY_INTERFACE_TYPE_KEY, MESSAGING_CAPABILITY_INTERFACE_TYPE);
     (CAPABILITY_INTERFACE_NAME_KEY, NAMESPACE);
     (CAPABILITY_INTERFACE_VERSION_KEY, MESSAGING_CAPABILITY_INTERFACE_VERSION);
     (CAPABILITY_INTERFACE_CONFIGURATIONS_KEY, buildMessagingEndpointConfigurationJson)] in
  set_capabilityConfigurations (m_capabilityConfigurations s ++ [configMap]) s.

(** The constructor. *)
Definition construct : t := mk [] [] EmptyString [] [] [].

Definition initialize (s : t) : t :=
  let s := set_messagingEndpointsState
             (emplaceState (messagingEndpointToString DEFAULT) defaultState
                (m_messagingEndpointsState s)) s in
  let s := generateCapabilityConfiguration s in
  let s := emit [AddStateProvider CONTEXT_MANAGER_MESSAGING_STATE] s in
  executeUpdateMessagingEndpointContext s.

(** [MessagingCapabilityAgent::create]; the arguments tell which pointers
    are not null. *)
Definition create (exceptionSender contextManager messageSender : bool) : option t :=
  if negb contextManager then None
  else if negb exceptionSender then None
  else if negb messageSender then None
  else Some (initialize construct).

(** What a task does when the executor runs it. *)
Definition runTask (task : Task) (s : t) : option t :=
  match task with
  | HandleDirectiveTask info => handleDirectiveTask info s
  | ProvideStateTask stateProviderName contextRequestToken =>
      Some (executeProvideState stateProviderName contextRequestToken s)
  | UpdateMessagingEndpointStateTask messagingEndpointState messagingEndpoint =>
      Some (executeUpdateMessagingEndpointContext
              (set_messagingEndpointsState
                 (assignState (messagingEndpointToString messagingEndpoint)
                    messagingEndpointState (m_messagingEndpointsState s)) s))
  end.

(** What can happen to an agent: a call of its interface, or the executor
    running the oldest task submitted. *)
Inductive Label :=
| CallHandleDirective (info : option DirectiveInfo)
| CallHandleDirectiveImmediately (d : option Directive)
| CallPreHandleDirective (info : option DirectiveInfo)
| CallCancelDirective (info : DirectiveInfo)
| CallAddObserver (observer : option Observer)
| CallRemoveObserver (observer : option Observer)
| CallProvideState (stateProviderName : CapabilityTag)
    (contextRequestToken : ContextRequestToken)
| CallUpdateMessagingEndpointState (messagingEndpointState : MessagingEndpointState)
    (messagingEndpoint : MessagingEndpoint)
| ExecutorRuns.

Definition step (l : Label) (s : t) : option t :=
  match l with
  | CallHandleDirective info => Some (handleDirective info s)
  | CallHandleDirectiveImmediately d => Some (handleDirectiveImmediately d s)
  | CallPreHandleDirective info => Some (preHandleDirective info s)
  | CallCancelDirective info => Some (cancelDirective info s)
  | CallAddObserver observer => Some (addObserver observer s)
  | CallRemoveObserver observer => Some (removeObserver observer s)
  | CallProvideState n k => Some (provideState n k s)
  | CallUpdateMessagingEndpointState st e => Some (updateMessagingEndpointState st e s)
  | ExecutorRuns =>
      match m_executor s with
      | [] => None
      | task :: rest => runTask task (set_executor rest s)
      end
  end.

Fixpoint run (ls : list Label) (s : t) : option t :=
  match ls with
  | [] => Some s
  | l :: rest =>
      match step l s with
      | Some s' => run rest s'
      | None => None
      end
  end.

(** The directive is one the agent declares in [getConfiguration] and its
    payload has what its handler asks for: a token that is not empty, an
    endpoint object named DEFAULT and, for UpdateMessagesStatus, a
    conversation id that is not empty and a status map. *)
Definition acceptedWith (d : Directive) (payload : Value) (token : string) : Prop :=
  parse (getPayload d) = Some payload
  /\ In (NAMESPACE, getName d) (map fst getConfiguration)
  /\ findNode payload JSON_KEY_TOKEN <> None
  /\ retrieveValue payload JSON_KEY_TOKEN = Some token
  /\ token <> EmptyString
  /\ (exists it,
        findNode payload JSON_KEY_MESSAGING_ENDPOINT_INFO = Some it
        /\ isObject it = true
        /\ findNode it JSON_KEY_MESSAGING_ENDPOINT_NAME <> None
        /\ retrieveValue it JSON_KEY_MESSAGING_ENDPOINT_NAME
           = Some (messagingEndpointToString DEFAULT))
  /\ (getName d = snd UPDATE_MESSAGES_STATUS ->
      findNode payload JSON_KEY_CONVERSATION_ID <> None
      /\ (exists conversationId,
            retrieveValue payload JSON_KEY_CONVERSATION_ID = Some conversationId
            /\ conversationId <> EmptyString)
      /\ exists statusMap,
           findNode payload JSON_KEY_STATUS_MAP = Some statusMap
           /\ isObject statusMap = true).

Definition accepted (d : Directive) : Prop :=
  exists payload token, acceptedWith d payload token.

(** The call made on an observer for a directive of a given name. *)
Definition observerCall (name token payload : string) (observer : Observer) : Event :=
  if String.eqb name (snd SEND_MESSAGE) then SendMessage observer token DEFAULT payload
  else if String.eqb name (snd UPDATE_MESSAGES_STATUS)
       then UpdateMessagesStatus observer token DEFAULT payload
       else UploadConversations observer token DEFAULT payload.

(** The calls that report a directive completed. *)
Definition completion (info : DirectiveInfo) (d : Directive) : list Event :=
  if result info then [SetCompleted (getMessageId d); RemoveDirective (getMessageId d)]
  else [].

End Json.

Arguments executeSendMessageDirective {Value}.
Arguments executeUpdateMessagesStatusDirective {Value}.
Arguments executeUploadConversationsDirective {Value}.
Arguments handleDirectiveTask {Value}.
Arguments runTask {Value}.
Arguments step {Value}.
Arguments run {Value}.
Arguments acceptedWith {Value}.
Arguments accepted {Value}.

End MessagingCapabilityAgent.

(** ** What the properties of the messaging agent speak of *)

Module MessagingCapabilityAgentSpec.
Import MessagingCapabilityAgent.

(** What handling a directive leaves untouched. *)
Definition sameAgent (s s' : t) : Prop :=
  m_observers s' = m_observers s
  /\ m_messagingEndpointsState s' = m_messagingEndpointsState s
  /\ m_messagingContext s' = m_messagingContext s
  /\ m_capabilityConfigurations s' = m_capabilityConfigurations s
  /\ m_executor s' = m_executor s.

Section Handled.

Variable Value : Type.
Variable parse : string -> option Value.
Variable findNode : Value -> string -> option Value.
Variable retrieveValue : Value -> string -> option string.
Variable isObject : Value -> bool.

(** The two ways a handler of the agent ends, [r] being what it returns and
    the agent it leaves: the directive is accepted and every observer is
    called, or it is not and the failure is reported. *)
Definition handled (info : DirectiveInfo) (d : Directive) (payload : Value)
    (s : t) (r : bool * t) : Prop :=
  sameAgent s (snd r)
  /\ ((fst r = true
       /\ exists token,
            acceptedWith parse findNode retrieveValue isObject d payload token
            /\ events (snd r)
               = events s
                 ++ map (observerCall (getName d) token (getPayload d)) (m_observers s))
      \/ (fst r = false
          /\ (forall token,
                ~ acceptedWith parse findNode retrieveValue isObject d payload token)
          /\ exists message,
               events (snd r)
               = events s ++ [SendExceptionEncounteredAndReportFailed info message
                                DirectiveSequencer.UNEXPECTED_INFORMATION_RECEIVED])).

End Handled.

Arguments handled {Value}.

(** The observer a call is made on. *)
Definition calledObserver (e : Event) : option Observer :=
  match e with
  | SendMessage observer _ _ _
  | UpdateMessagesStatus observer _ _ _
  | UploadConversations observer _ _ _ => Some observer
  | _ => None
  end.

(** How many of the calls made are calls on a given observer. *)
Definition callsOn (o : Observer) (es : list Event) : nat :=
  List.length
    (filter (fun e => match calledObserver e with
                      | Some x => Nat.eqb x o
                      | None => false
                      end) es).

(** Whether the last of the calls of [addObserver] and [removeObserver] that
    name an observer, if any, added it. *)
Definition registered (ls : list Label) (o : Observer) : bool :=
  fold_left
    (fun b l =>
       match l with
       | CallAddObserver (Some x) => if Nat.eqb x o then true else b
       | CallRemoveObserver (Some x) => if Nat.eqb x o then false else b
       | _ => b
       end)
    ls false.

(** The context last reported to the context manager. *)
Fixpoint lastReported (es : list Event) : option string :=
  match es with
  | [] => None
  | e :: rest =>
      match lastReported rest with
      | Some context => Some context
      | None =>
          match e with
          | ReportStateChange _ context => Some context
          | _ => None
          end
      end
  end.

(** The calls made on the context manager with a context. *)
Definition aboutContext (e : Event) : bool :=
  match e with
  | ReportStateChange _ _ | ProvideStateResponse _ _ _ => true
  | _ => false
  end.

Section Context.

Variable escape : string -> string.
Variable finishObject : JsonGenerator.t -> JsonGenerator.t.
Variable startArray : string -> JsonGenerator.t -> JsonGenerator.t.
Variable startArrayElement : JsonGenerator.t -> JsonGenerator.t.
Variable finishArrayElement : JsonGenerator.t -> JsonGenerator.t.
Variable finishArray : JsonGenerator.t -> JsonGenerator.t.

(** The endpoint states, the saved context and the context last reported
    agree: there is one endpoint, DEFAULT, the saved context is the text
    written from the endpoint states, and it is the one last reported. *)
Definition coherent (s : t) : Prop :=
  (exists st, m_messagingEndpointsState s = [(messagingEndpointToString DEFAULT, st)])
  /\ m_messagingContext s
     = contextJson escape finishObject startArray startArrayElement finishArrayElement
         finishArray (m_messagingEndpointsState s)
  /\ lastReported (events s) = Some (m_messagingContext s).

End Context.

(** *** A small instance of the JSON helpers, for examples *)

(** An object is the empty object or an object with a member put in front. *)
Inductive Json :=
| JString (s : string)
| JObject
| JMember (k : string) (v : Json) (rest : Json).

Fixpoint sampleFindNode (v : Json) (k : string) : option Json :=
  match v with
  | JMember k' x rest => if String.eqb k' k then Some x else sampleFindNode rest k
  | _ => None
  end.

Definition sampleRetrieveValue (v : Json) (k : string) : option string :=
  match sampleFindNode v k with
  | Some (JString s) => Some s
  | _ => None
  end.

Definition sampleIsObject (v : Json) : bool :=
  match v with JString _ => false | _ => true end.

Definition sampleDocument : Json :=
  JMember "token" (JString "token-1")
    (JMember "messagingEndpointInfo" (JMember "name" (JString "DEFAULT") JObject)
       JObject).

(** The one text the sample parser knows stands for [sampleDocument]. *)
Definition samplePayload : string := "send-message-payload".

Definition sampleParse (text : string) : option Json :=
  if String.eqb text samplePayload then Some sampleDocument else None.

Definition sampleDirective : Directive :=
  mkDirective
    (AVSDirective.mk "SendMessage" "message-1" EmptyString "unparsed" "header")
    samplePayload.

Definition sampleInfo : DirectiveInfo := mkInfo (Some sampleDirective) true.

(** A writer that does not escape, with operations on arrays in the manner
    of [JsonGenerator]. *)
Definition sampleEscape (s : string) : string := s.

Definition sampleFinishObject (g : JsonGenerator.t) : JsonGenerator.t :=
  match JsonGenerator.scopes g with
  | [] => g
  | _ :: outer => JsonGenerator.mk (JsonGenerator.buffer g ++ "}")%string outer
  end.

Definition sampleStartArray (k : string) (g : JsonGenerator.t) : JsonGenerator.t :=
  let g' := JsonGenerator.key sampleEscape k g in
  JsonGenerator.mk (JsonGenerator.buffer g' ++ "[")%string (false :: JsonGenerator.scopes g').

Definition sampleStartArrayElement (g : JsonGenerator.t) : JsonGenerator.t :=
  match JsonGenerator.scopes g with
  | [] => g
  | hasElement :: outer =>
      JsonGenerator.mk
        (JsonGenerator.buffer g ++ (if hasElement then "," else EmptyString) ++ "{")%string
        (false :: true :: outer)
  end.

Definition sampleFinishArray (g : JsonGenerator.t) : JsonGenerator.t :=
  match JsonGenerator.scopes g with
  | [] => g
  | _ :: outer => JsonGenerator.mk (JsonGenerator.buffer g ++ "]")%string outer
  end.

(** The agent [create] gives with the sample writer. *)
Definition sampleCreated : t :=
  initialize sampleEscape sampleFinishObject sampleStartArray sampleStartArrayElement
    sampleFinishObject sampleFinishArray "type" "interface" "version" "configurations"
    construct.

(** Calls on the created agent: observers come and go, a state is asked
    for, the endpoint connects, a directive is handed in, and the executor
    runs the three tasks. *)
Definition sampleCalls : list Label :=
  [CallAddObserver (Some 1); CallAddObserver None; CallAddObserver (Some 2);
   CallAddObserver (Some 1); CallRemoveObserver (Some 2);
   CallProvideState CONTEXT_MANAGER_MESSAGING_STATE 7;
   CallUpdateMessagingEndpointState (mkState CONNECTED ON OFF) DEFAULT;
   CallHandleDirective (Some sampleInfo);
   ExecutorRuns; ExecutorRuns; ExecutorRuns].

(** An agent with two observers. *)
Definition sampleAgent : t := mk [1; 2] [] EmptyString [] [] [].

End MessagingCapabilityAgentSpec.

(** * Properties *)

(** ** Strings *)

Lemma empty_true_iff (s : string) : empty s = true <-> s = EmptyString.
Proof. destruct s; simpl; split; congruence. Qed.

Lemma length_pos_iff (s : string) : Nat.ltb 0 (String.length s) = true <-> s <> EmptyString.
Proof.
  destruct s; unfold Nat.ltb; simpl; split; intro H; congruence.
Qed.

Lemma append_assoc (a b c : string) : ((a ++ b) ++ c = a ++ (b ++ c))%string.
Proof. induction a as [|x a IH]; simpl; [reflexivity | now rewrite IH]. Qed.

(** ** The JSON text written *)

Module JsonTextFacts.
Import JsonText.

Lemma read_app (a b : string) (configuration : State * list Frame) :
  read (a ++ b) configuration = read b (read a configuration).
Proof.
  revert configuration. induction a as [| c a IH]; intro configuration; simpl;
    [reflexivity | apply IH].
Qed.

Lemma read_escapeChar (c : ascii) (name : bool) (stack : list Frame) :
  read (escapeChar c) (Chars name, stack) = (Chars name, stack).
Proof.
  destruct c as [b0 b1 b2 b3 b4 b5 b6 b7].
  destruct b0, b1, b2, b3, b4, b5, b6, b7; reflexivity.
Qed.

Lemma read_escape (s : string) (name : bool) (stack : list Frame) :
  read (escape s) (Chars name, stack) = (Chars name, stack).
Proof.
  induction s as [| c s IH]; [reflexivity |].
  simpl escape. rewrite read_app, read_escapeChar. exact IH.
Qed.

(** A string written as a value or as the name of a member. *)
Lemma read_quoted_Value (s : string) (stack : list Frame) :
  read (JsonGenerator.quoted escape s) (Value, stack) = (Done, stack).
Proof.
  unfold JsonGenerator.quoted. rewrite !read_app.
  change (read dquote (Value, stack)) with (Chars false, stack).
  rewrite read_escape. reflexivity.
Qed.

Lemma read_quoted_FirstElement (s : string) (stack : list Frame) :
  read (JsonGenerator.quoted escape s) (FirstElement, stack) = (Done, stack).
Proof.
  unfold JsonGenerator.quoted. rewrite !read_app.
  change (read dquote (FirstElement, stack)) with (Chars false, stack).
  rewrite read_escape. reflexivity.
Qed.

Lemma read_quoted_FirstKey (s : string) (stack : list Frame) :
  read (JsonGenerator.quoted escape s) (FirstKey, stack) = (Colon, stack).
Proof.
  unfold JsonGenerator.quoted. rewrite !read_app.
  change (read dquote (FirstKey, stack)) with (Chars true, stack).
  rewrite read_escape. reflexivity.
Qed.

Lemma read_quoted_Key (s : string) (stack : list Frame) :
  read (JsonGenerator.quoted escape s) (Key, stack) = (Colon, stack).
Proof.
  unfold JsonGenerator.quoted. rewrite !read_app.
  change (read dquote (Key, stack)) with (Chars true, stack).
  rewrite read_escape. reflexivity.
Qed.

(** Reads the innermost piece of a text split into pieces: a quoted string
    by the lemmas above, fixed text by running the machine. *)
Ltac read_piece :=
  match goal with
  | |- context [read (JsonGenerator.quoted escape ?s) (Value, ?stack)] =>
      rewrite (read_quoted_Value s stack)
  | |- context [read (JsonGenerator.quoted escape ?s) (FirstElement, ?stack)] =>
      rewrite (read_quoted_FirstElement s stack)
  | |- context [read (JsonGenerator.quoted escape ?s) (FirstKey, ?stack)] =>
      rewrite (read_quoted_FirstKey s stack)
  | |- context [read (JsonGenerator.quoted escape ?s) (Key, ?stack)] =>
      rewrite (read_quoted_Key s stack)
  | |- context [read ?text (?state, ?stack)] =>
      let r := eval vm_compute in (read text (state, stack)) in
      progress (change (read text (state, stack)) with r)
  end.

Ltac read_text := rewrite ?read_app; repeat read_piece.

End JsonTextFacts.

(** ** EndpointResources *)

Module EndpointResourcesFacts.
Import EndpointResources.

Lemma Label_eqb_refl (l : Label) : Label_eqb l l = true.
Proof. unfold Label_eqb. now rewrite !String.eqb_refl. Qed.

Lemma found_last (x y : Label) (l : list Label) :
  found x (l ++ [y]) = found x l || Label_eqb y x.
Proof.
  unfold found. rewrite existsb_app. simpl. now rewrite orb_false_r.
Qed.

Lemma found_In (x : Label) (l : list Label) : In x l -> found x l = true.
Proof.
  intro H. unfold found. apply existsb_exists. exists x. split; [assumption | apply Label_eqb_refl].
Qed.

Ltac break_if :=
  match goal with
  | |- context [if ?b then _ else _] => let E := fresh "E" in destruct b eqn:E
  end.

Lemma apply_friendlyNames (o : Op) (r : t) :
  m_friendlyNames (apply o r) = m_friendlyNames r
  \/ exists l, wellFormed l = true /\ m_friendlyNames (apply o r) = m_friendlyNames r ++ [l].
Proof.
  destruct o; simpl;
    unfold addFriendlyNameWithAssetId, addFriendlyNameWithText,
      addManufacturerNameWithAssetId, addManufacturerNameWithText,
      addDescriptionWithAssetId, addDescriptionWithText;
    repeat break_if; simpl; auto.
  - right. eexists. split; [| reflexivity]. unfold wellFormed. simpl. now rewrite E.
  - right. eexists. split; [| reflexivity]. unfold wellFormed. simpl. now rewrite E, E0.
Qed.

Lemma run_snoc (ops : list Op) (o : Op) (r : t) : run (ops ++ [o]) r = apply o (run ops r).
Proof. unfold run. now rewrite fold_left_app. Qed.

Lemma friendlyNames_wellFormed (ops : list Op) :
  Forall (fun l => wellFormed l = true) (m_friendlyNames (run ops new)).
Proof.
  induction ops as [|o ops IH] using rev_ind.
  - constructor.
  - rewrite run_snoc.
    destruct (apply_friendlyNames o (run ops new)) as [H | (l & Hl & H)]; rewrite H.
    + assumption.
    + apply Forall_app. split; [assumption | now constructor].
Qed.

Lemma flagError_matches (ev rs : string) (r : t) : flagMatchesLog (flagError ev rs r).
Proof.
  unfold flagMatchesLog, flagError. simpl.
  rewrite forallb_app. simpl. now rewrite andb_false_r.
Qed.

Lemma warn_matches (ev rs : string) (r : t) : flagMatchesLog r -> flagMatchesLog (warn ev rs r).
Proof.
  unfold flagMatchesLog, warn. simpl. intro H.
  rewrite forallb_app. simpl. now rewrite andb_true_r.
Qed.

Lemma unlogged_matches (r r' : t) :
  m_isValid r' = m_isValid r -> log r' = log r -> flagMatchesLog r -> flagMatchesLog r'.
Proof. unfold flagMatchesLog. intros -> ->. auto. Qed.

Lemma push_matches (l : Label) (r : t) : flagMatchesLog r -> flagMatchesLog (pushFriendlyName l r).
Proof. now apply unlogged_matches. Qed.

Lemma setManufacturerName_matches (l : Label) (r : t) :
  flagMatchesLog r -> flagMatchesLog (setManufacturerName l r).
Proof. now apply unlogged_matches. Qed.

Lemma setDescription_matches (l : Label) (r : t) :
  flagMatchesLog r -> flagMatchesLog (setDescription l r).
Proof. now apply unlogged_matches. Qed.

Lemma apply_matches (o : Op) (r : t) : flagMatchesLog r -> flagMatchesLog (apply o r).
Proof.
  intro H.
  destruct o; simpl;
    unfold addFriendlyNameWithAssetId, addFriendlyNameWithText,
      addManufacturerNameWithAssetId, addManufacturerNameWithText,
      addDescriptionWithAssetId, addDescriptionWithText;
    repeat break_if;
    auto using flagError_matches, warn_matches, push_matches,
      setManufacturerName_matches, setDescription_matches.
Qed.

Lemma run_matches (ops : list Op) : flagMatchesLog (run ops new).
Proof.
  induction ops as [|o ops IH] using rev_ind.
  - reflexivity.
  - rewrite run_snoc. now apply apply_matches.
Qed.

(** A property that no add operation undoes holds at the end of a sequence
    of calls exactly when it held at the start or after one of the calls. *)
Lemma stable_visited (P : t -> Prop) :
  (forall o r, P r -> P (apply o r)) ->
  forall ops r, P (run ops r) <-> P r \/ exists r', In r' (visited ops r) /\ P r'.
Proof.
  intros Hstable ops. induction ops as [|o ops IH]; intro r; simpl.
  - split; [auto | intros [H | (r' & [] & _)]; exact H].
  - change (run (o :: ops) r) with (run ops (apply o r)). rewrite IH. split.
    + intros [H | (r' & Hin & H)]; right.
      * exists (apply o r). auto.
      * exists r'. auto.
    + intros [H | (r' & [<- | Hin] & H)].
      * left. now apply Hstable.
      * now left.
      * right. now exists r'.
Qed.

Lemma friendlyNames_stable (o : Op) (r : t) :
  m_friendlyNames r <> [] -> m_friendlyNames (apply o r) <> [].
Proof.
  intro H. destruct (apply_friendlyNames o r) as [E | (l & _ & E)]; rewrite E.
  - assumption.
  - intro C. now apply app_eq_nil in C.
Qed.

Lemma manufacturerName_stable (o : Op) (r : t) :
  value (m_manufacturerName r) <> EmptyString ->
  value (m_manufacturerName (apply o r)) <> EmptyString.
Proof.
  intro H. apply length_pos_iff in H.
  assert (Hz : Nat.eqb (String.length (value (m_manufacturerName r))) 0 = false)
    by (destruct (value (m_manufacturerName r)); [discriminate | reflexivity]).
  apply length_pos_iff.
  destruct o; simpl;
    unfold addFriendlyNameWithAssetId, addFriendlyNameWithText,
      addManufacturerNameWithAssetId, addManufacturerNameWithText,
      addDescriptionWithAssetId, addDescriptionWithText;
    repeat break_if; simpl in *; try assumption; try congruence.
  all: rewrite Hz in *; simpl in *; congruence.
Qed.

Lemma description_stable (o : Op) (r : t) :
  value (m_description r) <> EmptyString ->
  value (m_description (apply o r)) <> EmptyString.
Proof.
  intro H. apply length_pos_iff in H.
  assert (Hz : Nat.eqb (String.length (value (m_description r))) 0 = false)
    by (destruct (value (m_description r)); [discriminate | reflexivity]).
  apply length_pos_iff.
  destruct o; simpl;
    unfold addFriendlyNameWithAssetId, addFriendlyNameWithText,
      addManufacturerNameWithAssetId, addManufacturerNameWithText,
      addDescriptionWithAssetId, addDescriptionWithText;
    repeat break_if; simpl in *; try assumption; try congruence.
  all: rewrite Hz in *; simpl in *; congruence.
Qed.

Section BuildFacts.

Variable escape : string -> string.
Variable parses : string -> bool.

Lemma build_invalid (r : t) : isValid r = false -> build escape parses r = EmptyString.
Proof. intro H. unfold build. now rewrite H. Qed.

Lemma build_valid_opens (r : t) :
  isValid r = true ->
  exists rest,
    build escape parses r
    = ("{" ++ JsonGenerator.quoted escape "friendlyNames" ++ ":"
           ++ "[" ++ String.concat "," (map (Label_toJson escape) (m_friendlyNames r)) ++ "]"
           ++ rest)%string.
Proof.
  intro H. unfold build. rewrite H. simpl.
  unfold JsonGenerator.addRawJsonMember, JsonGenerator.addMembersArray.
  destruct (parses (Label_toJson escape (m_manufacturerName r)));
    destruct (parses (Label_toJson escape (m_description r))); simpl;
    unfold JsonGenerator.toString; simpl;
    eexists; repeat (progress (rewrite ?append_assoc; simpl)); reflexivity.
Qed.

Lemma build_valid_document (r : t) :
  isValid r = true ->
  parses (Label_toJson escape (m_manufacturerName r)) = true ->
  parses (Label_toJson escape (m_description r)) = true ->
  build escape parses r = document escape r.
Proof.
  intros H Hm Hd. unfold build, document. rewrite H. simpl.
  unfold JsonGenerator.addRawJsonMember, JsonGenerator.addMembersArray.
  rewrite Hm, Hd. simpl. unfold JsonGenerator.toString. simpl.
  repeat (progress (rewrite ?append_assoc; simpl)). reflexivity.
Qed.

End BuildFacts.

Lemma isValid_true_iff (r : t) :
  isValid r = true <->
  m_isValid r = true /\ m_friendlyNames r <> []
  /\ value (m_manufacturerName r) <> EmptyString /\ value (m_description r) <> EmptyString.
Proof.
  unfold isValid. rewrite !andb_true_iff, !length_pos_iff.
  assert (Hn : Nat.ltb 0 (List.length (m_friendlyNames r)) = true <-> m_friendlyNames r <> []).
  { destruct (m_friendlyNames r); unfold Nat.ltb; simpl; split; congruence. }
  rewrite Hn. tauto.
Qed.

Lemma no_error_iff (r : t) :
  flagMatchesLog r ->
  (m_isValid r = true <-> forall e, In e (log r) -> isError e = false).
Proof.
  unfold flagMatchesLog. intros ->. rewrite forallb_forall. split; intros H e He.
  - apply negb_true_iff. now apply H.
  - apply negb_true_iff. now apply H.
Qed.

(** *** The text built is JSON *)

Section BuiltText.
Import JsonText JsonTextFacts.

(** The text of a label is read as one value, whatever the label. *)
Lemma read_label (l : Label) (stack : list Frame) :
  read (Label_toJson escape l) (Value, stack) = (Done, stack)
  /\ read (Label_toJson escape l) (FirstElement, stack) = (Done, stack).
Proof.
  unfold Label_toJson.
  destruct (type l);
    unfold JsonGenerator.toString, JsonGenerator.addMember, JsonGenerator.startObject;
    cbn [JsonGenerator.isComplete JsonGenerator.scopes JsonGenerator.key JsonGenerator.write
         JsonGenerator.buffer JsonGenerator.new JsonGenerator.closing];
    split; read_text; reflexivity.
Qed.

Lemma parses_label (l : Label) : parses (Label_toJson escape l) = true.
Proof. unfold parses. rewrite (proj1 (read_label l [])). reflexivity. Qed.

(** The texts of labels, with commas between them, are read as the elements
    of an array. *)
Lemma read_labels_from (ls : list Label) :
  forall (l : Label) (state : State) (stack : list Frame),
    state = Value \/ state = FirstElement ->
    read (String.concat "," (map (Label_toJson escape) (l :: ls))) (state, InArray :: stack)
    = (Done, InArray :: stack).
Proof.
  induction ls as [| l' ls IH]; intros l state stack Hstate.
  - simpl. destruct Hstate as [-> | ->]; apply read_label.
  - change (String.concat "," (map (Label_toJson escape) (l :: l' :: ls)))
      with (Label_toJson escape l ++ "," ++
            String.concat "," (map (Label_toJson escape) (l' :: ls)))%string.
    rewrite !read_app.
    assert (Hl : read (Label_toJson escape l) (state, InArray :: stack)
                 = (Done, InArray :: stack))
      by (destruct Hstate as [-> | ->]; apply read_label).
    rewrite Hl.
    change (read "," (Done, InArray :: stack)) with (Value, InArray :: stack).
    apply IH. left. reflexivity.
Qed.

Lemma read_array (ls : list Label) (stack : list Frame) :
  read "]" (read (String.concat "," (map (Label_toJson escape) ls))
              (FirstElement, InArray :: stack))
  = (Done, stack).
Proof.
  destruct ls as [| l ls]; [reflexivity |].
  rewrite read_labels_from by (right; reflexivity). reflexivity.
Qed.

Lemma parses_document (r : t) : parses (document escape r) = true.
Proof.
  unfold parses, document. rewrite ?read_app.
  do 4 read_piece.
  rewrite read_array.
  do 3 read_piece.
  rewrite (proj1 (read_label (m_manufacturerName r) _)).
  do 3 read_piece.
  rewrite (proj1 (read_label (m_description r) _)).
  read_piece. reflexivity.
Qed.

Lemma build_document (r : t) (Hvalid : isValid r = true) :
  build escape parses r = document escape r.
Proof.
  apply build_valid_document; [exact Hvalid | apply parses_label | apply parses_label].
Qed.

(** The text of a label, written out. *)
Lemma label_text (l : Label) :
  Label_toJson escape l
  = match type l with
    | TEXT =>
        ("{" ++ JsonGenerator.quoted escape "@type" ++ ":"
             ++ JsonGenerator.quoted escape "text"
         ++ "," ++ JsonGenerator.quoted escape "value" ++ ":"
             ++ "{" ++ JsonGenerator.quoted escape "text" ++ ":"
                    ++ JsonGenerator.quoted escape (value l)
                ++ "," ++ JsonGenerator.quoted escape "locale" ++ ":"
                    ++ JsonGenerator.quoted escape (valueOr (locale l) EmptyString)
                ++ "}"
         ++ "}")%string
    | ASSET =>
        ("{" ++ JsonGenerator.quoted escape "@type" ++ ":"
             ++ JsonGenerator.quoted escape "asset"
         ++ "," ++ JsonGenerator.quoted escape "value" ++ ":"
             ++ "{" ++ JsonGenerator.quoted escape "assetId" ++ ":"
                    ++ JsonGenerator.quoted escape (value l)
                ++ "}"
         ++ "}")%string
    | UNINITIALIZED => "{}"
    end.
Proof.
  unfold Label_toJson.
  destruct (type l);
    unfold JsonGenerator.toString, JsonGenerator.addMember, JsonGenerator.startObject;
    cbn [JsonGenerator.isComplete JsonGenerator.scopes JsonGenerator.key JsonGenerator.write
         JsonGenerator.buffer JsonGenerator.new JsonGenerator.closing];
    rewrite ?append_assoc; reflexivity.
Qed.

End BuiltText.

(** C9: [build] returns the empty string exactly when [isValid] is false;
    after any sequence of add operations on a fresh object, [isValid] is true
    exactly when no operation logged an error, some operation left a
    non-empty friendly-name list, some operation left a non-empty manufacturer
    name and some operation left a non-empty description; and for a valid
    object [build] returns a text that is not empty, that the JSON parser
    accepts, and that is the JSON object with the members friendlyNames (the
    array of the labels), manufacturerName and description, in this order,
    each label being the object [Label::toJson] writes for it.  The writer
    and the parser are those of [JsonText]: every string is escaped, so the
    raw members always pass the validation. *)
Theorem build_isValid_history (ops : list Op) :
  let r := run ops new in
  let text := build JsonText.escape JsonText.parses r in
  (text = EmptyString <-> isValid r = false)
  /\ (isValid r = true <->
        (forall e, In e (log r) -> isError e = false)
        /\ (exists r', In r' (visited ops new) /\ m_friendlyNames r' <> [])
        /\ (exists r', In r' (visited ops new) /\ value (m_manufacturerName r') <> EmptyString)
        /\ (exists r', In r' (visited ops new) /\ value (m_description r') <> EmptyString))
  /\ (isValid r = true ->
        text <> EmptyString
        /\ JsonText.parses text = true
        /\ text
           = ("{" ++ JsonGenerator.quoted JsonText.escape "friendlyNames" ++ ":"
                  ++ "[" ++ String.concat ","
                              (map (Label_toJson JsonText.escape) (m_friendlyNames r))
                  ++ "]"
              ++ "," ++ JsonGenerator.quoted JsonText.escape "manufacturerName" ++ ":"
                  ++ Label_toJson JsonText.escape (m_manufacturerName r)
              ++ "," ++ JsonGenerator.quoted JsonText.escape "description" ++ ":"
                  ++ Label_toJson JsonText.escape (m_description r)
              ++ "}")%string
        /\ (forall l,
              JsonText.parses (Label_toJson JsonText.escape l) = true
              /\ Label_toJson JsonText.escape l
                 = match type l with
                   | TEXT =>
                       ("{" ++ JsonGenerator.quoted JsonText.escape "@type" ++ ":"
                            ++ JsonGenerator.quoted JsonText.escape "text"
                        ++ "," ++ JsonGenerator.quoted JsonText.escape "value" ++ ":"
                            ++ "{" ++ JsonGenerator.quoted JsonText.escape "text" ++ ":"
                                   ++ JsonGenerator.quoted JsonText.escape (value l)
                               ++ "," ++ JsonGenerator.quoted JsonText.escape "locale" ++ ":"
                                   ++ JsonGenerator.quoted JsonText.escape
                                        (valueOr (locale l) EmptyString)
                               ++ "}"
                        ++ "}")%string
                   | ASSET =>
                       ("{" ++ JsonGenerator.quoted JsonText.escape "@type" ++ ":"
                            ++ JsonGenerator.quoted JsonText.escape "asset"
                        ++ "," ++ JsonGenerator.quoted JsonText.escape "value" ++ ":"
                            ++ "{" ++ JsonGenerator.quoted JsonText.escape "assetId" ++ ":"
                                   ++ JsonGenerator.quoted JsonText.escape (value l)
                               ++ "}"
                        ++ "}")%string
                   | UNINITIALIZED => "{}"
                   end)).
Proof.
  intros r text. split; [| split].
  - split.
    + intro Hb. destruct (isValid r) eqn:Hv; [| reflexivity].
      subst text. rewrite (build_document r Hv) in Hb. discriminate.
    + apply build_invalid.
  - rewrite isValid_true_iff.
    rewrite (no_error_iff r (run_matches ops)).
    pose proof (stable_visited (fun x => m_friendlyNames x <> []) friendlyNames_stable ops new) as Hf.
    pose proof (stable_visited (fun x => value (m_manufacturerName x) <> EmptyString)
                  manufacturerName_stable ops new) as Hm.
    pose proof (stable_visited (fun x => value (m_description x) <> EmptyString)
                  description_stable ops new) as Hd.
    simpl in Hf, Hm, Hd. fold r in Hf, Hm, Hd.
    split.
    + intros (Hv & Hn & Hmn & Hds). repeat split.
      * exact Hv.
      * apply Hf in Hn. destruct Hn as [C | Hn]; [now contradiction C | exact Hn].
      * apply Hm in Hmn. destruct Hmn as [C | Hmn]; [now contradiction C | exact Hmn].
      * apply Hd in Hds. destruct Hds as [C | Hds]; [now contradiction C | exact Hds].
    + intros (Hv & Hn & Hmn & Hds). repeat split.
      * exact Hv.
      * apply Hf. now right.
      * apply Hm. now right.
      * apply Hd. now right.
  - intro Hv. subst text. rewrite (build_document r Hv).
    split; [discriminate |]. split; [apply parses_document |].
    split; [reflexivity |].
    intro l. split; [apply parses_label | apply label_text].
Qed.

(** C10: repeating [addFriendlyNameWithText] changes neither the list nor
    the validity flag, and so does a call with a pair that is already on the
    list; repeating [addFriendlyNameWithAssetId] leaves the list as it is and
    the object invalid, also when the first call was a valid one. *)
Theorem duplicate_friendly_names
    (r : t) (text : string) (loc : Locale) (assetId : string) (ops : list Op) :
  let t1 := addFriendlyNameWithText text loc r in
  let t2 := addFriendlyNameWithText text loc t1 in
  let a1 := addFriendlyNameWithAssetId assetId r in
  let a2 := addFriendlyNameWithAssetId assetId a1 in
  let reached := run ops new in
  (m_friendlyNames t2 = m_friendlyNames t1 /\ m_isValid t2 = m_isValid t1
   /\ m_manufacturerName t2 = m_manufacturerName t1 /\ m_description t2 = m_description t1)
  /\ (Nat.eqb (String.length text) 0 || Nat.ltb MAX_FRIENDLY_NAME_LENGTH (String.length text) = false ->
      empty loc = false ->
      found (mkLabel TEXT text (Some loc)) (m_friendlyNames r) = true ->
      m_friendlyNames t1 = m_friendlyNames r /\ m_isValid t1 = m_isValid r)
  /\ (In (mkLabel TEXT text (Some loc)) (m_friendlyNames reached) ->
      m_friendlyNames (addFriendlyNameWithText text loc reached) = m_friendlyNames reached
      /\ m_isValid (addFriendlyNameWithText text loc reached) = m_isValid reached)
  /\ (m_friendlyNames a2 = m_friendlyNames a1 /\ m_isValid a2 = false)
  /\ (found (mkLabel ASSET assetId None) (m_friendlyNames r) = true ->
      m_friendlyNames a1 = m_friendlyNames r /\ m_isValid a1 = false)
  /\ (m_isValid r = true ->
      Nat.eqb (String.length assetId) 0 = false ->
      found (mkLabel ASSET assetId None) (m_friendlyNames r) = false ->
      m_friendlyNames a1 = m_friendlyNames r ++ [mkLabel ASSET assetId None]
      /\ m_isValid a1 = true /\ m_isValid a2 = false).
Proof.
  intros t1 t2 a1 a2 reached.
  assert (Htext : forall x,
             Nat.eqb (String.length text) 0 || Nat.ltb MAX_FRIENDLY_NAME_LENGTH (String.length text) = false ->
             empty loc = false ->
             found (mkLabel TEXT text (Some loc)) (m_friendlyNames x) = true ->
             m_friendlyNames (addFriendlyNameWithText text loc x) = m_friendlyNames x
             /\ m_isValid (addFriendlyNameWithText text loc x) = m_isValid x).
  { intros x H1 H2 H3. unfold addFriendlyNameWithText. rewrite H1, H2, H3. now split. }
  split; [| split; [| split; [| split; [| split]]]].
  - subst t2 t1. unfold addFriendlyNameWithText.
    destruct (_ || _) eqn:E1; [now repeat split |].
    destruct (empty loc) eqn:E2; [now repeat split |].
    destruct (found _ (m_friendlyNames r)) eqn:E3; simpl.
    + rewrite E3. now repeat split.
    + rewrite found_last, Label_eqb_refl, orb_true_r. now repeat split.
  - apply Htext.
  - intro Hin.
    pose proof (friendlyNames_wellFormed ops) as Hwf. fold reached in Hwf.
    rewrite Forall_forall in Hwf. specialize (Hwf _ Hin).
    unfold wellFormed in Hwf. simpl in Hwf.
    apply andb_true_iff in Hwf. destruct Hwf as [Hv Hl].
    apply negb_true_iff in Hv, Hl.
    apply Htext; auto using found_In.
  - clear Htext. subst a2 a1. unfold addFriendlyNameWithAssetId.
    destruct (Nat.eqb (String.length assetId) 0) eqn:E1; [now split |].
    destruct (found _ (m_friendlyNames r)) eqn:E3; simpl.
    + rewrite E3. now split.
    + rewrite found_last, Label_eqb_refl, orb_true_r. now split.
  - intro Hf. subst a1. unfold addFriendlyNameWithAssetId. rewrite Hf.
    now destruct (Nat.eqb (String.length assetId) 0).
  - intros Hv Hl Hf. subst a2 a1. unfold addFriendlyNameWithAssetId.
    rewrite Hl, Hf. simpl.
    rewrite found_last, Label_eqb_refl, orb_true_r. now repeat split.
Qed.

(** The two duplicate cases on a concrete object: English text added twice
    keeps the object valid, an asset id added twice does not. *)
Example friendly_name_twice_run :
  let named := addDescriptionWithAssetId "d" (addManufacturerNameWithAssetId "m" new) in
  isValid (addFriendlyNameWithText "lamp" "en-US" (addFriendlyNameWithText "lamp" "en-US" named)) = true
  /\ isValid (addFriendlyNameWithAssetId "a" (addFriendlyNameWithAssetId "a" named)) = false
  /\ List.length (m_friendlyNames
        (addFriendlyNameWithAssetId "a" (addFriendlyNameWithAssetId "a" named))) = 1.
Proof. repeat split. Qed.

(** The text built for a small object, with a writer that escapes nothing and
    a validation that accepts everything. *)
Example build_run :
  let q := fun x => (dquote ++ x ++ dquote)%string in
  let r := addDescriptionWithAssetId "d"
             (addManufacturerNameWithText "Acme" "en-US"
                (addFriendlyNameWithAssetId "a" new)) in
  isValid r = true
  /\ build (fun x => x) (fun _ => true) r
     = ("{" ++ q "friendlyNames" ++ ":[{" ++ q "@type" ++ ":" ++ q "asset" ++ ","
            ++ q "value" ++ ":{" ++ q "assetId" ++ ":" ++ q "a" ++ "}}],"
            ++ q "manufacturerName" ++ ":{" ++ q "@type" ++ ":" ++ q "text" ++ ","
            ++ q "value" ++ ":{" ++ q "text" ++ ":" ++ q "Acme" ++ ","
            ++ q "locale" ++ ":" ++ q "en-US" ++ "}},"
            ++ q "description" ++ ":{" ++ q "@type" ++ ":" ++ q "asset" ++ ","
            ++ q "value" ++ ":{" ++ q "assetId" ++ ":" ++ q "d" ++ "}}}")%string
  /\ build (fun x => x) (fun _ => true) (addFriendlyNameWithAssetId "a" r) = EmptyString.
Proof. repeat split. Qed.

(** A friendly name with a double quote in it: the writer escapes it and
    the text built is JSON; written without escaping it would not be. *)
Example build_escaped_run :
  let name := ("6" ++ String JsonText.quote " lamp")%string in
  let r := addDescriptionWithAssetId "d"
             (addManufacturerNameWithText "Acme" "en-US"
                (addFriendlyNameWithText name "en-US" new)) in
  isValid r = true
  /\ JsonText.escape name
     = ("6" ++ String JsonText.backslash (String JsonText.quote " lamp"))%string
  /\ JsonText.parses (build JsonText.escape JsonText.parses r) = true
  /\ JsonText.parses (build (fun x => x) (fun _ => true) r) = false.
Proof. repeat split. Qed.

End EndpointResourcesFacts.

(** ** DirectiveSequencer *)

Module DirectiveSequencerFacts.
Import DirectiveSequencer.

Lemma dispatched_app (a b : list Event) : dispatched (a ++ b) = dispatched a ++ dispatched b.
Proof.
  induction a as [|e a IH]; simpl; [reflexivity |].
  destruct e; simpl; now rewrite ?IH.
Qed.

Lemma unhandled_app (a b : list Event) : unhandled (a ++ b) = unhandled a ++ unhandled b.
Proof.
  induction a as [|e a IH]; simpl; [reflexivity |].
  destruct e as [| | | | | | | | | | | | d [|] | d [|] | | | | |]; simpl; now rewrite ?IH.
Qed.

Lemma reported_app (a b : list Event) : reported (a ++ b) = reported a ++ reported b.
Proof.
  induction a as [|e a IH]; simpl; [reflexivity |].
  destruct e; simpl; now rewrite ?IH.
Qed.

Section Runs.

Variable flag : bool.

Lemma run_app (l1 l2 : list Label) (s : t) :
  run flag (l1 ++ l2) s
  = match run flag l1 s with Some s' => run flag l2 s' | None => None end.
Proof.
  revert s. induction l1 as [|l l1 IH]; intro s; simpl; [reflexivity |].
  destruct (step flag l s); [apply IH | reflexivity].
Qed.

(** Reachability is proved by induction on the run, last step first. *)
Lemma run_ind (P : t -> Prop) (s0 : t) :
  P s0 ->
  (forall l s s', P s -> step flag l s = Some s' -> P s') ->
  forall ls s, run flag ls s0 = Some s -> P s.
Proof.
  intros H0 Hstep ls. induction ls as [|l ls IH] using rev_ind; intros s Hrun.
  - simpl in Hrun. inversion Hrun; subst. exact H0.
  - rewrite run_app in Hrun. destruct (run flag ls s0) as [s1|] eqn:E; [| discriminate].
    simpl in Hrun. destruct (step flag l s1) as [s2|] eqn:E2; [| discriminate].
    inversion Hrun; subst. eapply Hstep; [apply IH; reflexivity | exact E2].
Qed.

End Runs.

(** Case analysis of a step [H : step flag l s = Some s']. *)
Ltac step_cases H :=
  match type of H with
  | step _ ?l _ = Some _ =>
      destruct l; simpl in H;
      unfold onDirective, addDirectiveHandler, removeDirectiveHandler, setDialogRequestId,
        getDialogRequestId, doShutdown_end, receivingLoop_step,
        receiveDirectiveLocked_dispatch, receiveDirectiveLocked_dequeue in H;
      repeat match type of H with
        | context [match ?x with _ => _ end] =>
            match x with
            | context [match _ with _ => _ end] => fail 1
            | _ => let E := fresh "E" in destruct x eqn:E; simpl in H
            end
        end;
      try discriminate H;
      injection H as H;
      match type of H with _ = ?s' => subst s' end
  end.

Lemma joiningTrace_begin (p : bool) (gone : Prop) (es : list Event) :
  ~ gone -> joiningTrace p gone (es ++ [NotifyOne]).
Proof. intro H. exists es, []. split; [reflexivity | tauto]. Qed.

Lemma joiningTrace_extend (p : bool) (gone gone' : Prop) (es extra : list Event) :
  (gone' -> gone) -> joiningTrace p gone es -> joiningTrace p gone' (es ++ extra).
Proof.
  intros Hg (pre & mid & -> & H). exists pre, (mid ++ extra). split.
  - now rewrite <- app_assoc.
  - intro G. destruct (H (Hg G)) as [H1 H2]. split.
    + apply in_or_app. now left.
    + intro Hp. apply in_or_app. left. now apply H2.
Qed.

Lemma joiningTrace_exit (p : bool) (gone gone' : Prop) (es : list Event) :
  joiningTrace p gone es ->
  joiningTrace p gone'
    (es ++ RemoveThreadPowerResource :: (if p then [PowerRelease] else [])).
Proof.
  intros (pre & mid & -> & _).
  exists pre, (mid ++ RemoveThreadPowerResource :: (if p then [PowerRelease] else [])). split.
  - now rewrite <- app_assoc.
  - intros _. split.
    + apply in_or_app. right. now left.
    + intros ->. apply in_or_app. right. right. now left.
Qed.

Lemma shutdownTrace_extend (p : bool) (es extra : list Event) :
  shutdownTrace p es -> shutdownTrace p (es ++ extra).
Proof.
  intros (pre & mid & post & -> & H1 & H2). exists pre, mid, (post ++ extra).
  split; [| now split].
  rewrite <- ?app_assoc. simpl. rewrite <- ?app_assoc. simpl. now rewrite <- ?app_assoc.
Qed.

Lemma shutdownTrace_end (p : bool) (gone : Prop) (es : list Event) :
  gone -> joiningTrace p gone es ->
  shutdownTrace p (es ++ [ThreadJoin; ProcessorShutdown; RouterShutdown; ExceptionSenderReset]).
Proof.
  intros G (pre & mid & -> & H). destruct (H G) as [H1 H2].
  exists pre, mid, []. split; [| now split].
  rewrite <- ?app_assoc. simpl. now rewrite <- ?app_assoc.
Qed.

Lemma metric_acquire (d : AVSDirective) : filter isPowerAcquire (metric d) = [].
Proof. unfold metric. now destruct (_ || _). Qed.

Lemma metric_release (d : AVSDirective) : filter isPowerRelease (metric d) = [].
Proof. unfold metric. now destruct (_ || _). Qed.

Lemma route_acquire (flag : bool) (d : AVSDirective) (h : bool) :
  isPowerAcquire (route flag d h) = false.
Proof. unfold route. destruct flag; [destruct (empty _) |]; reflexivity. Qed.

Lemma route_release (flag : bool) (d : AVSDirective) (h : bool) :
  isPowerRelease (route flag d h) = false.
Proof. unfold route. destruct flag; [destruct (empty _) |]; reflexivity. Qed.

Section Invariants.

Variable flag : bool.
Variables exceptionSender powerResource : bool.

Lemma lifecycle_construct :
  lifecycle exceptionSender powerResource (construct exceptionSender powerResource).
Proof. unfold lifecycle. simpl. repeat split. discriminate. Qed.

Lemma lifecycle_step (l : Label) (s s' : t) :
  lifecycle exceptionSender powerResource s -> step flag l s = Some s' ->
  lifecycle exceptionSender powerResource s'.
Proof.
  intros [Hp Hl] H. unfold lifecycle.
  step_cases H; simpl in *; (split; [congruence |]).
  all: try exact Hl.
  all: destruct (shutdownPc s) eqn:Epc; simpl in *; try discriminate;
       repeat match goal with H : _ /\ _ |- _ => destruct H end;
       repeat split; auto; try congruence.
  all: try (apply shutdownTrace_extend; assumption).
  all: rewrite <- ?app_assoc.
  all: try (eapply joiningTrace_extend; [| eassumption]; congruence).
  - now apply joiningTrace_begin.
  - simpl. eapply shutdownTrace_end; [| eassumption]. reflexivity.
  - assert (Ep : powerResource = true) by congruence. rewrite Ep in *.
    eapply (joiningTrace_exit true); eassumption.
  - assert (Ep : powerResource = false) by congruence. rewrite Ep in *.
    eapply (joiningTrace_exit false); eassumption.
Qed.

Lemma lifecycle_run (ls : list Label) (s : t) :
  run flag ls (construct exceptionSender powerResource) = Some s ->
  lifecycle exceptionSender powerResource s.
Proof.
  apply run_ind; [apply lifecycle_construct |].
  intros l s1 s2. apply lifecycle_step.
Qed.

Lemma powerCount_construct : powerCount powerResource (construct exceptionSender powerResource).
Proof. unfold powerCount, acquisitions, releases. simpl. now destruct powerResource. Qed.

Lemma powerCount_step (l : Label) (s s' : t) :
  powerCount powerResource s -> step flag l s = Some s' -> powerCount powerResource s'.
Proof.
  intros (Hp & Ha & Hr) H. unfold powerCount.
  step_cases H; simpl in *.
  all: try match goal with E : m_receivingThread _ = _, Hr : releases _ = _ |- _ => rewrite E in Hr end.
  all: unfold acquisitions, releases, disable, enable, doShutdown_begin in *; simpl in *.
  all: rewrite ?filter_app, ?length_app; simpl.
  all: try match goal with E : m_receivingThread _ = _, Hr : releases _ = _ |- _ => rewrite E in Hr end.
  all: try match goal with E : m_receivingThread _ = _ |- _ => rewrite E end.
  all: rewrite ?metric_acquire, ?metric_release, ?route_acquire, ?route_release; simpl.
  all: repeat split; try congruence; try lia.
  all: destruct powerResource; try congruence; lia.
Qed.

Lemma powerCount_run (ls : list Label) (s : t) :
  run flag ls (construct exceptionSender powerResource) = Some s ->
  powerCount powerResource s.
Proof.
  apply run_ind; [apply powerCount_construct |].
  intros l s1 s2. apply powerCount_step.
Qed.


End Invariants.

Lemma metric_calls (d : AVSDirective) :
  dispatched (metric d) = [] /\ unhandled (metric d) = [] /\ reported (metric d) = [].
Proof. unfold metric. now destruct (_ || _). Qed.

Lemma route_calls (flag : bool) (d : AVSDirective) (h : bool) :
  dispatched [route flag d h] = [d]
  /\ unhandled [route flag d h] = (if h then [] else [d])
  /\ reported [route flag d h] = [].
Proof.
  unfold route. destruct flag; [destruct (empty _) |]; destruct h; now repeat split.
Qed.

Section Intake.

Variable flag : bool.

Lemma intake_step (l : Label) (s s' : t) :
  step flag l s = Some s' -> intake s' = intake s ++ accepted flag [l] s.
Proof.
  intro H. unfold intake. simpl. rewrite H.
  step_cases H; simpl; unfold inFlight, disable, enable, doShutdown_begin; simpl.
  all: rewrite ?dispatched_app; simpl.
  all: rewrite ?dispatched_app; simpl.
  all: rewrite ?(proj1 (metric_calls _)), ?(proj1 (route_calls _ _ _)); simpl.
  all: try match goal with E : m_receivingThread _ = _ |- _ => rewrite E end.
  all: try match goal with E : m_receivingQueue _ = _ |- _ => rewrite E end.
  all: rewrite ?app_nil_r, <- ?app_assoc; simpl; try reflexivity.
  all: unfold route; destruct flag; [destruct (empty _) |]; reflexivity.
Qed.

Lemma accepted_cons (l : Label) (ls : list Label) (s s' : t) :
  step flag l s = Some s' -> accepted flag (l :: ls) s = accepted flag [l] s ++ accepted flag ls s'.
Proof.
  intro H. cbn [accepted]. rewrite H.
  destruct l as [[d|] | | | | | | | | |]; try reflexivity.
  destruct (fst (onDirective (Some d) s)); reflexivity.
Qed.

Lemma intake_run (ls : list Label) (s s' : t) :
  run flag ls s = Some s' -> intake s' = intake s ++ accepted flag ls s.
Proof.
  revert s. induction ls as [|l ls IH]; intros s H; simpl in H.
  - injection H as <-. simpl. now rewrite app_nil_r.
  - destruct (step flag l s) as [s1|] eqn:E; [| discriminate].
    rewrite (accepted_cons l ls s s1 E), app_assoc, <- (intake_step l s s1 E).
    now apply IH.
Qed.

Lemma reportsMatch_step (l : Label) (s s' : t) :
  reportsMatch s -> step flag l s = Some s' -> reportsMatch s'.
Proof.
  unfold reportsMatch. intros Hm H.
  step_cases H; simpl; unfold disable, enable, doShutdown_begin; simpl.
  all: rewrite ?reported_app, ?unhandled_app, ?map_app, ?Hm.
  all: rewrite ?(proj2 (proj2 (metric_calls _))), ?(proj1 (proj2 (metric_calls _))),
         ?(proj2 (proj2 (route_calls _ _ _))), ?(proj1 (proj2 (route_calls _ _ _))).
  all: simpl; rewrite ?app_nil_r; try reflexivity.
  all: destruct handled; try discriminate; simpl; rewrite ?app_nil_r; reflexivity.
Qed.

Lemma reportsMatch_run (es pr : bool) (ls : list Label) (s : t) :
  run flag ls (construct es pr) = Some s -> reportsMatch s.
Proof.
  apply run_ind.
  - unfold reportsMatch. simpl. now destruct pr.
  - intros l s1 s2. apply reportsMatch_step.
Qed.

Lemma disabled_step (l : Label) (s s' : t) :
  l <> CallEnable -> m_isEnabled s = false -> step flag l s = Some s' -> m_isEnabled s' = false.
Proof.
  intros Hl He H.
  step_cases H; simpl; unfold disable, enable, doShutdown_begin; simpl; congruence.
Qed.

Lemma disabled_run (ls : list Label) (s s' : t) :
  ~ In CallEnable ls -> m_isEnabled s = false -> run flag ls s = Some s' ->
  m_isEnabled s' = false.
Proof.
  revert s. induction ls as [|l ls IH]; intros s Hn He H; simpl in H.
  - now injection H as <-.
  - destruct (step flag l s) as [s1|] eqn:E; [| discriminate].
    apply (IH s1); [| | exact H].
    + intro C. apply Hn. now right.
    + apply (disabled_step l s s1); auto. intro C. apply Hn. now left.
Qed.

End Intake.

(** C1: [onDirective] returns false exactly for a null directive, a
    sequencer that is shutting down or a disabled one, and then changes
    nothing; otherwise it returns true, puts the directive at the back of the
    queue and wakes the receiving thread.  After [disable], whatever happens
    short of a call of [enable], every [onDirective] returns false and leaves
    the sequencer, its queue included, as it is. *)
Theorem onDirective_accepts_iff (flag : bool) (directive : option AVSDirective) (s : t) :
  (fst (onDirective directive s) = false <->
     directive = None \/ m_isShuttingDown s = true \/ m_isEnabled s = false)
  /\ (fst (onDirective directive s) = false -> snd (onDirective directive s) = s)
  /\ (forall d, directive = Some d -> fst (onDirective directive s) = true ->
        m_receivingQueue (snd (onDirective directive s)) = m_receivingQueue s ++ [d]
        /\ events (snd (onDirective directive s)) = events s ++ [NotifyOne])
  /\ (forall ls s', ~ In CallEnable ls -> run flag ls (disable s) = Some s' ->
        fst (onDirective directive s') = false
        /\ snd (onDirective directive s') = s'
        /\ m_receivingQueue (snd (onDirective directive s')) = m_receivingQueue s').
Proof.
  assert (Hrej : forall x, m_isEnabled x = false ->
                   onDirective directive x = (false, x)).
  { intros x Hx. unfold onDirective. destruct directive; [| reflexivity].
    now rewrite Hx, orb_true_r. }
  split; [| split; [| split]].
  - unfold onDirective. destruct directive as [d|]; simpl.
    + destruct (m_isShuttingDown s), (m_isEnabled s); simpl; split; intro H;
        try discriminate; auto.
      destruct H as [H | [H | H]]; discriminate.
    + split; auto.
  - unfold onDirective. destruct directive as [d|]; simpl; [| reflexivity].
    destruct (_ || _); simpl; [reflexivity | discriminate].
  - intros d -> H. unfold onDirective in *.
    destruct (_ || _); simpl in *; [discriminate | now split].
  - intros ls s' Hn Hrun.
    assert (He : m_isEnabled s' = false) by (apply (disabled_run flag ls (disable s) s'); auto).
    rewrite (Hrej s' He). now repeat split.
Qed.

(** C5: [disable] clears the enabled flag, sets the processor's dialog request
    id to the empty string, disables the processor and wakes the receiving
    thread; [enable] sets the flag, enables the processor and wakes the
    thread; neither touches the queue or anything else of the sequencer. *)
Theorem disable_enable_effects (s : t) :
  (m_isEnabled (disable s) = false
   /\ events (disable s)
      = events s ++ [ProcessorSetDialogRequestId EmptyString; ProcessorDisable; NotifyOne]
   /\ m_receivingQueue (disable s) = m_receivingQueue s
   /\ disable s = emit [ProcessorSetDialogRequestId EmptyString; ProcessorDisable; NotifyOne]
                       (set_isEnabled false s))
  /\ (m_isEnabled (enable s) = true
      /\ events (enable s) = events s ++ [ProcessorEnable; NotifyOne]
      /\ m_receivingQueue (enable s) = m_receivingQueue s
      /\ enable s = emit [ProcessorEnable; NotifyOne] (set_isEnabled true s))
  /\ (m_isShuttingDown (disable s) = m_isShuttingDown s
      /\ m_isShuttingDown (enable s) = m_isShuttingDown s
      /\ m_receivingThread (disable s) = m_receivingThread s
      /\ m_receivingThread (enable s) = m_receivingThread s).
Proof. now repeat split. Qed.

Lemma dispatching_sender (flag pr : bool) (ls : list Label) (s : t) (d : AVSDirective) :
  run flag ls (construct true pr) = Some s ->
  m_receivingThread s = Dispatching d -> m_exceptionSender s = true.
Proof.
  intros Hrun Hd. destruct (lifecycle_run flag true pr ls s Hrun) as [_ Hl].
  destruct (shutdownPc s); try tauto.
  destruct Hl as (_ & He & _). congruence.
Qed.

(** What a dispatch step does to the calls made. *)
Lemma dispatch_step (flag pr : bool) (ls : list Label) (s : t) (d : AVSDirective) (handled : bool) :
  run flag ls (construct true pr) = Some s ->
  m_receivingThread s = Dispatching d ->
  exists s',
    step flag (ReceivingThread handled) s = Some s'
    /\ events s'
       = events s ++ metric d ++ route flag d handled
           :: (if handled then []
               else [SendExceptionEncountered (AVSDirective.getUnparsedDirective d)
                       UNSUPPORTED_OPERATION "Unsupported operation"])
    /\ reported (events s')
       = reported (events s) ++ (if handled then [] else [unsupported d]).
Proof.
  intros Hrun Hd.
  pose proof (dispatching_sender flag pr ls s d Hrun Hd) as Hs.
  simpl. unfold receivingLoop_step, receiveDirectiveLocked_dispatch. rewrite Hd. simpl.
  rewrite Hs. destruct handled; simpl; eexists; (split; [reflexivity |]); simpl.
  - split; [reflexivity |].
    now rewrite !reported_app, (proj2 (proj2 (metric_calls d))),
      (proj2 (proj2 (route_calls flag d true))), !app_nil_r.
  - split; [now rewrite <- !app_assoc |].
    rewrite !reported_app, (proj2 (proj2 (metric_calls d))),
      (proj2 (proj2 (route_calls flag d false))). simpl. now rewrite app_nil_r.
Qed.

(** C2: along every run of a sequencer made by [create], the reports given
    to the exception sender are exactly one per dispatch that returned false,
    each with the directive's unparsed text and UNSUPPORTED_OPERATION; and a
    dispatch step reports once when the call returned false and not at all
    when it returned true. *)
Theorem unhandled_directives_reported
    (flag pr : bool) (ls : list Label) (s : t)
    (Hrun : run flag ls (construct true pr) = Some s) :
  reported (events s) = map unsupported (unhandled (events s))
  /\ forall d handled, m_receivingThread s = Dispatching d ->
       exists s',
         step flag (ReceivingThread handled) s = Some s'
         /\ events s'
            = events s ++ metric d ++ route flag d handled
                :: (if handled then []
                    else [SendExceptionEncountered (AVSDirective.getUnparsedDirective d)
                            UNSUPPORTED_OPERATION "Unsupported operation"])
         /\ reported (events s')
            = reported (events s) ++ (if handled then [] else [unsupported d]).
Proof.
  split.
  - exact (reportsMatch_run flag true pr ls s Hrun).
  - intros d handled Hd. exact (dispatch_step flag pr ls s d handled Hrun Hd).
Qed.

(** C3: a dispatch step makes one dispatch call; with the option defined it
    goes to the router's immediate path when the dialog request id is empty
    and to the processor otherwise; without the option it always goes to the
    processor. *)
Theorem dispatch_route
    (flag pr : bool) (ls : list Label) (s : t) (d : AVSDirective) (handled : bool)
    (Hrun : run flag ls (construct true pr) = Some s)
    (Hd : m_receivingThread s = Dispatching d) :
  exists s' call report,
    step flag (ReceivingThread handled) s = Some s'
    /\ events s' = events s ++ metric d ++ call :: report
    /\ dispatched (metric d) = [] /\ dispatched report = []
    /\ (flag = true -> AVSDirective.getDialogRequestId d = EmptyString ->
        call = RouterHandleDirectiveImmediately d handled)
    /\ (flag = true -> AVSDirective.getDialogRequestId d <> EmptyString ->
        call = ProcessorOnDirective d handled)
    /\ (flag = false -> call = ProcessorOnDirective d handled).
Proof.
  destruct (dispatch_step flag pr ls s d handled Hrun Hd) as (s' & Hstep & Hev & _).
  exists s', (route flag d handled). eexists. split; [exact Hstep |]. split; [exact Hev |].
  split; [apply metric_calls |]. split; [now destruct handled |].
  unfold route. repeat split.
  - intros -> ->. reflexivity.
  - intros -> Hne. destruct (empty _) eqn:E; [| reflexivity].
    apply empty_true_iff in E. contradiction.
  - intros ->. reflexivity.
Qed.

(** C6: the directives [onDirective] accepted, in the order it accepted
    them, are those dispatched so far in dispatch order, then the one the
    receiving thread holds, then the queue front to back; the receiving thread
    takes exactly the front of the queue, and dispatches exactly what it took. *)
Theorem intake_fifo (flag es pr : bool) (ls : list Label) (s : t)
    (Hrun : run flag ls (construct es pr) = Some s) :
  accepted flag ls (construct es pr)
  = dispatched (events s) ++ inFlight s ++ m_receivingQueue s
  /\ (exists rest, accepted flag ls (construct es pr) = dispatched (events s) ++ rest)
  /\ (forall handled d q,
        m_receivingThread s = Waiting -> m_isShuttingDown s = false ->
        m_receivingQueue s = d :: q ->
        exists s', step flag (ReceivingThread handled) s = Some s'
                   /\ m_receivingQueue s' = q
                   /\ m_receivingThread s' = Dispatching d
                   /\ events s' = events s)
  /\ (forall handled d s',
        m_receivingThread s = Dispatching d ->
        step flag (ReceivingThread handled) s = Some s' ->
        dispatched (events s') = dispatched (events s) ++ [d]
        /\ m_receivingQueue s' = m_receivingQueue s
        /\ m_receivingThread s' = Waiting).
Proof.
  pose proof (intake_run flag ls _ s Hrun) as Hi.
  assert (H0 : intake (construct es pr) = []) by (unfold intake; simpl; now destruct pr).
  rewrite H0 in Hi. simpl in Hi. unfold intake in Hi.
  split; [now symmetry |]. split; [eexists; symmetry; exact Hi |]. split.
  - intros handled d q Ht Hs Hq. simpl. unfold receivingLoop_step, wake.
    rewrite Ht, Hs, Hq. simpl. unfold receiveDirectiveLocked_dequeue. rewrite Hq.
    eexists. split; [reflexivity |]. now repeat split.
  - intros handled d s' Ht Hstep. simpl in Hstep.
    unfold receivingLoop_step, receiveDirectiveLocked_dispatch in Hstep. rewrite Ht in Hstep.
    destruct (negb handled); [destruct (m_exceptionSender _); [| discriminate] |];
      injection Hstep as <-; simpl;
      rewrite ?dispatched_app, (proj1 (metric_calls d)), (proj1 (route_calls flag d handled));
      simpl; rewrite ?app_nil_r; now repeat split.
Qed.


Section Join.

Variable flag : bool.

(** Once the flag is set the receiving thread is gone after at most two of
    its steps, whatever its dispatch call returns, and nothing else of the
    shutdown has moved. *)
Lemma receivingThread_exits (s : t) :
  m_isShuttingDown s = true -> m_exceptionSender s = true ->
  m_receivingThread s <> Exited ->
  exists n, n <= 2 /\ forall handled, exists s',
    run flag (repeat (ReceivingThread handled) n) s = Some s'
    /\ m_receivingThread s' = Exited
    /\ shutdownPc s' = shutdownPc s /\ joinable s' = joinable s
    /\ m_isShuttingDown s' = true.
Proof.
  intros Hs He Hn. destruct (m_receivingThread s) as [| | d |] eqn:Et.
  - exists 2. split; [lia |]. intro handled. simpl.
    unfold receivingLoop_step. rewrite Et. simpl. unfold wake. simpl.
    rewrite Hs, orb_true_r. simpl. eexists. split; [reflexivity |]. now repeat split.
  - exists 1. split; [lia |]. intro handled. simpl.
    unfold receivingLoop_step. rewrite Et. unfold wake.
    rewrite Hs, orb_true_r. simpl. eexists. split; [reflexivity |]. now repeat split.
  - exists 2. split; [lia |]. intro handled. simpl.
    unfold receivingLoop_step at 1. rewrite Et.
    unfold receiveDirectiveLocked_dispatch. simpl. rewrite He.
    destruct handled; simpl; unfold receivingLoop_step; simpl; unfold wake; simpl;
      rewrite Hs, orb_true_r; simpl; eexists; (split; [reflexivity |]); now repeat split.
  - now contradiction Hn.
Qed.

End Join.

(** [doShutdown] with nobody in between, on a sequencer whose receiving
    thread is there: the calls it and the thread make, in order. *)
Lemma doShutdown_alone (flag handled : bool) (s : t) :
  m_exceptionSender s = true -> joinable s = true -> m_receivingThread s <> Exited ->
  exists s' mid,
    doShutdown flag handled s = Some s'
    /\ events s'
       = events s ++ NotifyOne :: mid
           ++ [ThreadJoin; ProcessorShutdown; RouterShutdown; ExceptionSenderReset]
    /\ In RemoveThreadPowerResource mid
    /\ (m_powerResource s = true -> In PowerRelease mid)
    /\ (forall e, In e mid -> e <> ThreadJoin /\ e <> ProcessorShutdown /\ e <> RouterShutdown)
    /\ shutdownPc s' = ShutdownReturned
    /\ m_receivingThread s' = Exited.
Proof.
  intros He Hj Hn. unfold doShutdown.
  destruct (m_receivingThread s) as [| | d |] eqn:Et; [| | | now contradiction Hn].
  - cbn [receivingLoop doShutdown_begin set_shutdownPc emit set_isShuttingDown
           m_receivingThread]. rewrite Et.
    unfold receivingLoop_step. cbn. rewrite Et. cbn. unfold wake. cbn.
    rewrite orb_true_r. cbn. unfold doShutdown_end. cbn. rewrite Hj.
    eexists. exists (AssignThreadPowerResource :: RemoveThreadPowerResource
                       :: (if m_powerResource s then [PowerRelease] else [])).
    split; [reflexivity |]. cbn. rewrite <- ?app_assoc. cbn.
    split; [reflexivity |]. split; [now right; left |]. split.
    + intros ->. now right; right; left.
    + split; [| now split].
      intros e [<- | [<- | H]]; try (repeat split; discriminate).
      destruct (m_powerResource s); [destruct H as [<- | []] | destruct H];
        repeat split; discriminate.
  - cbn [receivingLoop doShutdown_begin set_shutdownPc emit set_isShuttingDown
           m_receivingThread]. rewrite Et.
    unfold receivingLoop_step. cbn. rewrite Et. unfold wake. cbn.
    rewrite orb_true_r. cbn. unfold doShutdown_end. cbn. rewrite Hj.
    eexists. exists (RemoveThreadPowerResource
                       :: (if m_powerResource s then [PowerRelease] else [])).
    split; [reflexivity |]. cbn. rewrite <- ?app_assoc. cbn.
    split; [reflexivity |]. split; [now left |]. split.
    + intros ->. now right; left.
    + split; [| now split].
      intros e [<- | H]; try (repeat split; discriminate).
      destruct (m_powerResource s); [destruct H as [<- | []] | destruct H];
        repeat split; discriminate.
  - cbn [receivingLoop doShutdown_begin set_shutdownPc emit set_isShuttingDown
           m_receivingThread]. rewrite Et.
    unfold receivingLoop_step at 1. cbn. rewrite Et.
    unfold receiveDirectiveLocked_dispatch. cbn. rewrite He.
    assert (Hm : forall e, In e (metric d) ->
                   e <> ThreadJoin /\ e <> ProcessorShutdown /\ e <> RouterShutdown).
    { unfold metric. destruct (_ || _); intros e H;
        [destruct H as [<- | []] | destruct H]; repeat split; discriminate. }
    assert (Hr : route flag d handled <> ThreadJoin /\ route flag d handled <> ProcessorShutdown
                 /\ route flag d handled <> RouterShutdown).
    { unfold route. destruct flag; [destruct (empty _) |]; repeat split; discriminate. }
    destruct handled; cbn; unfold receivingLoop_step; cbn; unfold wake; cbn;
      rewrite orb_true_r; cbn; unfold doShutdown_end; cbn; rewrite Hj; eexists.
    + exists (metric d ++ route flag d true :: RemoveThreadPowerResource
                :: (if m_powerResource s then [PowerRelease] else [])).
      split; [reflexivity |]. cbn. rewrite <- ?app_assoc. cbn. rewrite <- ?app_assoc. cbn.
      split; [reflexivity |].
      split; [apply in_or_app; right; now right; left |]. split.
      * intros ->. apply in_or_app. right. now right; right; left.
      * split; [| now split]. intros e H. apply in_app_or in H.
        destruct H as [H | [<- | [<- | H]]]; auto; try (repeat split; discriminate).
        destruct (m_powerResource s); [destruct H as [<- | []] | destruct H];
          repeat split; discriminate.
    + exists (metric d ++ route flag d false
                :: SendExceptionEncountered (AVSDirective.getUnparsedDirective d)
                     UNSUPPORTED_OPERATION "Unsupported operation"
                :: RemoveThreadPowerResource
                :: (if m_powerResource s then [PowerRelease] else [])).
      split; [reflexivity |]. cbn. rewrite <- ?app_assoc. cbn. rewrite <- ?app_assoc. cbn.
      split; [reflexivity |].
      split; [apply in_or_app; right; now right; right; left |]. split.
      * intros ->. apply in_or_app. right. now right; right; right; left.
      * split; [| now split]. intros e H. apply in_app_or in H.
        destruct H as [H | [<- | [<- | [<- | H]]]]; auto; try (repeat split; discriminate).
        destruct (m_powerResource s); [destruct H as [<- | []] | destruct H];
          repeat split; discriminate.
Qed.

(** C4: [doShutdown] first sets the flag and wakes the receiving thread; its
    join waits as long as the thread is there, and the thread is gone after
    at most two of its steps; then come the join, the processor's shutdown and
    the router's shutdown.  Once [doShutdown] has returned, the calls made
    show the wake-up, then the thread's way out with the release of the power
    resource, then join, processor shutdown and router shutdown, in this
    order, and the resource has been released once. *)
Theorem doShutdown_order (flag pr : bool) (ls : list Label) (s : t)
    (Hrun : run flag ls (construct true pr) = Some s) :
  (shutdownPc s = ShutdownNotCalled ->
     step flag ShutdownBegin s = Some (doShutdown_begin s)
     /\ m_isShuttingDown (doShutdown_begin s) = true
     /\ events (doShutdown_begin s) = events s ++ [NotifyOne]
     /\ shutdownPc (doShutdown_begin s) = ShutdownJoining
     /\ releases s = 0
     /\ forall handled, exists s' mid,
          doShutdown flag handled s = Some s'
          /\ events s'
             = events s ++ NotifyOne :: mid
                 ++ [ThreadJoin; ProcessorShutdown; RouterShutdown; ExceptionSenderReset]
          /\ In RemoveThreadPowerResource mid
          /\ (pr = true -> In PowerRelease mid)
          /\ (forall e, In e mid ->
                e <> ThreadJoin /\ e <> ProcessorShutdown /\ e <> RouterShutdown)
          /\ shutdownPc s' = ShutdownReturned
          /\ m_receivingThread s' = Exited)
  /\ (shutdownPc s = ShutdownJoining ->
        m_isShuttingDown s = true
        /\ (m_receivingThread s <> Exited -> step flag ShutdownEnd s = None)
        /\ exists n, n <= 2 /\ forall handled, exists s' s'',
             run flag (repeat (ReceivingThread handled) n) s = Some s'
             /\ m_receivingThread s' = Exited
             /\ step flag ShutdownEnd s' = Some s''
             /\ events s''
                = events s' ++ [ThreadJoin; ProcessorShutdown; RouterShutdown;
                                ExceptionSenderReset]
             /\ shutdownPc s'' = ShutdownReturned)
  /\ (shutdownPc s = ShutdownReturned ->
        shutdownTrace pr (events s)
        /\ m_receivingThread s = Exited
        /\ joinable s = false
        /\ releases s = (if pr then 1 else 0)
        /\ acquisitions s = releases s).
Proof.
  destruct (lifecycle_run flag true pr ls s Hrun) as [Hp Hl].
  destruct (powerCount_run flag true pr ls s Hrun) as (_ & Ha & Hr).
  split; [| split]; intro Hpc; rewrite Hpc in Hl.
  - destruct Hl as (Hs & Ht & Hj & He). simpl. rewrite Hpc.
    split; [reflexivity |]. split; [reflexivity |]. split; [reflexivity |].
    split; [reflexivity |]. split.
    + rewrite Hr. now destruct (m_receivingThread s).
    + intro handled.
      destruct (doShutdown_alone flag handled s He Hj Ht)
        as (s' & mid & H1 & H2 & H3 & H4 & H5 & H6 & H7).
      exists s', mid. rewrite Hp in H4.
      split; [exact H1 |]. split; [exact H2 |]. split; [exact H3 |].
      split; [exact H4 |]. split; [exact H5 |]. split; assumption.
  - destruct Hl as (Hs & Hj & He & Htr). split; [exact Hs |]. split.
    + intro Ht. simpl. rewrite Hpc. unfold doShutdown_end. rewrite Hj.
      now destruct (m_receivingThread s).
    + destruct (m_receivingThread s) eqn:Et.
      4: { exists 0. split; [lia |]. intro handled. exists s. simpl.
           unfold doShutdown_end. rewrite Hpc, Hj, Et.
           eexists. split; [reflexivity |]. split; [reflexivity |].
           split; [reflexivity |]. simpl. rewrite <- app_assoc. now split. }
      all: destruct (receivingThread_exits flag s Hs He) as (n & Hn & Hex);
        [rewrite Et; discriminate |];
        exists n; (split; [exact Hn |]); intro handled;
        destruct (Hex handled) as (s' & Hr' & Ht' & Hpc' & Hj' & _);
        exists s'; simpl; unfold doShutdown_end; rewrite Hpc', Hpc, Hj', Hj, Ht';
        eexists; (split; [exact Hr' |]); (split; [reflexivity |]);
        (split; [reflexivity |]); simpl; rewrite <- app_assoc; now split.
  - destruct Hl as (Hs & Ht & Hj & Htr). rewrite Ht in Hr.
    repeat split; auto. congruence.
Qed.

(** C7: a sequencer that got a power resource acquires it once, in the
    constructor; the only step that releases it is the receiving thread's
    last one, taken with the shutdown flag set; so the acquisition is held
    (one acquire, no release) as long as the thread is there, in particular
    until [doShutdown] is called, and is given back (one release) by the time
    [doShutdown] has returned. *)
Theorem power_resource_held (flag es : bool) (ls : list Label) (s : t)
    (Hrun : run flag ls (construct es true) = Some s) :
  events (construct es true) = [PowerAcquire]
  /\ acquisitions s = 1
  /\ releases s = (match m_receivingThread s with Exited => 1 | _ => 0 end)
  /\ (m_receivingThread s <> Exited -> acquisitions s - releases s = 1)
  /\ (shutdownPc s = ShutdownNotCalled -> acquisitions s - releases s = 1)
  /\ (shutdownPc s = ShutdownReturned -> releases s = 1)
  /\ (forall l s', step flag l s = Some s' ->
        acquisitions s' = acquisitions s
        /\ (releases s' <> releases s ->
            exists handled, l = ReceivingThread handled
              /\ m_receivingThread s = Waiting /\ m_isShuttingDown s = true
              /\ m_receivingThread s' = Exited
              /\ events s' = events s ++ [RemoveThreadPowerResource; PowerRelease])).
Proof.
  destruct (lifecycle_run flag es true ls s Hrun) as [Hp Hl].
  destruct (powerCount_run flag es true ls s Hrun) as (_ & Ha & Hr).
  split; [reflexivity |]. split; [exact Ha |]. split; [exact Hr |].
  split; [| split; [| split]].
  - intro Ht. rewrite Ha, Hr. now destruct (m_receivingThread s).
  - intro Hpc. rewrite Hpc in Hl. destruct Hl as (_ & Ht & _).
    rewrite Ha, Hr. now destruct (m_receivingThread s).
  - intro Hpc. rewrite Hpc in Hl. destruct Hl as (_ & Ht & _). now rewrite Hr, Ht.
  - intros l s' Hstep.
    destruct (powerCount_step flag true l s s' (conj Hp (conj Ha Hr)) Hstep) as (_ & Ha' & Hr').
    split; [congruence |]. intro Hne. clear Ha' Hr'.
    step_cases Hstep;
      try (exfalso; apply Hne;
           unfold releases, disable, enable, doShutdown_begin; simpl;
           rewrite ?filter_app, ?length_app, ?metric_release; simpl;
           rewrite ?route_release; simpl; lia).
    exists handled. now repeat split.
Qed.

Lemma unhandled_directives_reported_witness :
  exists s,
    run true sampleRun (construct true true) = Some s
    /\ reported (events s) = map unsupported (unhandled (events s))
    /\ reported (events s) = [("unparsed-m1", UNSUPPORTED_OPERATION, "Unsupported operation")].
Proof.
  eexists. split; [cbv; reflexivity |]. split; [| reflexivity].
  refine (proj1 (unhandled_directives_reported true true sampleRun _ _)); cbv; reflexivity.
Defined.

Lemma dispatch_route_witness :
  exists s,
    run true sampleIntake (construct true true) = Some s
    /\ m_receivingThread s = Dispatching sampleDirective
    /\ exists s' call report,
         step true (ReceivingThread false) s = Some s'
         /\ events s' = events s ++ metric sampleDirective ++ call :: report
         /\ dispatched (metric sampleDirective) = [] /\ dispatched report = []
         /\ (true = true -> AVSDirective.getDialogRequestId sampleDirective = EmptyString ->
             call = RouterHandleDirectiveImmediately sampleDirective false)
         /\ (true = true -> AVSDirective.getDialogRequestId sampleDirective <> EmptyString ->
             call = ProcessorOnDirective sampleDirective false)
         /\ (true = false -> call = ProcessorOnDirective sampleDirective false).
Proof.
  eexists. split; [cbv; reflexivity |]. split; [reflexivity |].
  refine (dispatch_route true true sampleIntake _ sampleDirective false _ _); cbv; reflexivity.
Defined.

Lemma doShutdown_order_witness :
  exists s,
    run true sampleRun (construct true true) = Some s
    /\ shutdownPc s = ShutdownReturned
    /\ shutdownTrace true (events s)
    /\ m_receivingThread s = Exited
    /\ joinable s = false
    /\ releases s = 1
    /\ acquisitions s = releases s.
Proof.
  eexists. split; [cbv; reflexivity |]. split; [reflexivity |].
  refine (proj2 (proj2 (doShutdown_order true true sampleRun _ _)) _); cbv; reflexivity.
Defined.

Lemma intake_fifo_witness :
  exists s,
    run true sampleIntake (construct true true) = Some s
    /\ accepted true sampleIntake (construct true true)
       = dispatched (events s) ++ inFlight s ++ m_receivingQueue s
    /\ accepted true sampleIntake (construct true true) = [sampleDirective].
Proof.
  eexists. split; [cbv; reflexivity |]. split; [| reflexivity].
  refine (proj1 (intake_fifo true true true sampleIntake _ _)); cbv; reflexivity.
Defined.

Lemma power_resource_held_witness :
  exists s,
    run true sampleIntake (construct true true) = Some s
    /\ acquisitions s = 1
    /\ releases s = 0.
Proof.
  eexists. split; [cbv; reflexivity |].
  assert (H := power_resource_held true true sampleIntake _
                 ltac:(cbv; reflexivity)).
  split; [exact (proj1 (proj2 H)) | exact (proj1 (proj2 (proj2 H)))].
Defined.

(** A directive is taken in, then the sequencer is shut down by one call
    while the receiving thread still holds the directive: the calls made. *)
Example doShutdown_run :
  option_map events
    (match run true sampleIntake (construct true true) with
     | Some s => doShutdown true false s
     | None => None
     end)
  = Some [PowerAcquire; AssignThreadPowerResource; NotifyOne;
          NotifyOne;
          RouterHandleDirectiveImmediately sampleDirective false;
          SendExceptionEncountered "unparsed-m1" UNSUPPORTED_OPERATION "Unsupported operation";
          RemoveThreadPowerResource; PowerRelease;
          ThreadJoin; ProcessorShutdown; RouterShutdown; ExceptionSenderReset].
Proof. reflexivity. Qed.

(** After [disable] a directive is turned down, whatever else was called in
    between, and taken in again after [enable]. *)
Example onDirective_after_disable_run :
  let s := disable (construct true true) in
  option_map (fun s' => fst (onDirective (Some sampleDirective) s'))
    (run true [ReceivingThread true; CallSetDialogRequestId "dlg"; CallAddDirectiveHandler 1 true] s)
  = Some false
  /\ option_map (fun s' => fst (onDirective (Some sampleDirective) s'))
       (run true [ReceivingThread true; CallEnable] s)
     = Some true.
Proof. split; reflexivity. Qed.

End DirectiveSequencerFacts.

(** ** RegistrationManager *)

Module RegistrationManagerFacts.
Import RegistrationManager RegistrationManagerSpec.

Section Logout.

Variable ObserverState : Type.
Variable onLogout :
  Observer -> DirectiveSequencer.t * ObserverState -> DirectiveSequencer.t * ObserverState.
Variable metricEventBuilt : bool.
Variable exchanges : list nat.

Lemma exchange_permutation {A : Type} (i : nat) (l : list A) :
  Permutation (exchange i l) l.
Proof.
  revert i. induction l as [| x rest IH]; intro i; simpl; [constructor |].
  destruct i as [| j].
  - destruct rest as [| y others]; [apply Permutation_refl | apply perm_swap].
  - apply perm_skip. apply IH.
Qed.

(** However the set is gone through, every pointer in it is met once. *)
Lemma iteration_permutation (l : list (option Observer)) :
  Permutation (iteration exchanges l) l.
Proof.
  unfold iteration. revert l.
  induction exchanges as [| i rest IH]; intro l; simpl; [apply Permutation_refl |].
  apply Permutation_trans with (exchange i l); [apply IH | apply exchange_permutation].
Qed.

(** The callbacks leave the manager's pointers and observers alone and add
    their calls to the record in the order of the loop. *)
Lemma callOnLogout_frame (o : Observer) (w : t ObserverState) :
  m_directiveSequencer (callOnLogout onLogout o w) = m_directiveSequencer w
  /\ m_observers (callOnLogout onLogout o w) = m_observers w
  /\ m_metricRecorder (callOnLogout onLogout o w) = m_metricRecorder w
  /\ events (callOnLogout onLogout o w) = events w ++ [OnLogout o]
  /\ directiveSequencer (callOnLogout onLogout o w)
     = fst (onLogout o (directiveSequencer w, observerState w)).
Proof.
  unfold callOnLogout.
  destruct (onLogout o (directiveSequencer w, observerState w)) as [q st].
  repeat split.
Qed.

Lemma callAll_frame (observers : list Observer) (w : t ObserverState) :
  m_directiveSequencer (callAll onLogout observers w) = m_directiveSequencer w
  /\ m_observers (callAll onLogout observers w) = m_observers w
  /\ m_metricRecorder (callAll onLogout observers w) = m_metricRecorder w
  /\ events (callAll onLogout observers w) = events w ++ map OnLogout observers.
Proof.
  revert w. induction observers as [| o rest IH]; intro w; simpl.
  - now rewrite app_nil_r.
  - destruct (IH (callOnLogout onLogout o w)) as (H1 & H2 & H3 & H4).
    destruct (callOnLogout_frame o w) as (C1 & C2 & C3 & C4 & _).
    rewrite H1, H2, H3, H4, C1, C2, C3, C4. simpl. now rewrite <- app_assoc.
Qed.

(** The loop calls the observers in front of the first null pointer, and
    goes through that pointer if there is one. *)
Lemma notify_split (before : list Observer) (rest : list (option Observer))
    (w : t ObserverState) :
  notify onLogout (map Some before ++ rest) w
  = notify onLogout rest (callAll onLogout before w).
Proof.
  revert w. induction before as [| o before IH]; intro w; simpl; [reflexivity | apply IH].
Qed.

Lemma untilNull_split (l : list (option Observer)) :
  (l = map Some (untilNull l) /\ ~ In None l)
  \/ exists rest, l = map Some (untilNull l) ++ None :: rest.
Proof.
  induction l as [| [o |] l IH]; simpl.
  - left. split; [reflexivity | tauto].
  - destruct IH as [(H & Hn) | (rest & H)].
    + left. split; [now rewrite <- H |]. intros [C | C]; [discriminate | exact (Hn C)].
    + right. exists rest. now rewrite <- H.
  - right. exists l. reflexivity.
Qed.

Lemma notify_outcome (l : list (option Observer)) (w : t ObserverState) :
  (~ In None l /\ notify onLogout l w = Returned (callAll onLogout (untilNull l) w))
  \/ (In None l
      /\ notify onLogout l w = NullDereference (callAll onLogout (untilNull l) w)).
Proof.
  destruct (untilNull_split l) as [(H & Hn) | (rest & H)].
  - left. split; [exact Hn |].
    rewrite H at 1. rewrite <- (app_nil_r (map Some (untilNull l))), notify_split.
    reflexivity.
  - right. split; [rewrite H; apply in_or_app; right; left; reflexivity |].
    rewrite H at 1. rewrite notify_split. reflexivity.
Qed.



Lemma submitLogoutMetric_events (w : t ObserverState) :
  exists metric,
    events (submitLogoutMetric metricEventBuilt w) = events w ++ metric
    /\ forall o, ~ In (OnLogout o) metric.
Proof.
  unfold submitLogoutMetric.
  destruct (negb (m_metricRecorder w)); [| destruct (negb metricEventBuilt)].
  - exists []. rewrite app_nil_r. split; [reflexivity | auto].
  - exists []. rewrite app_nil_r. split; [reflexivity | auto].
  - eexists. split; [reflexivity |]. intros o [C | []]. discriminate.
Qed.

(** The calls of a [logout] with its collaborators in place. *)
Lemma logout_calls (w : t ObserverState)
    (Hsequencer : m_directiveSequencer w = true)
    (Hconnection : m_connectionManager w = true)
    (Hdata : m_dataManager w = true) :
  exists prepared,
    logout_prepare w = Returned prepared
    /\ events prepared
       = events w ++ [DirectiveSequencerDisable; ConnectionManagerDisable; ClearData]
    /\ directiveSequencer prepared = DirectiveSequencer.disable (directiveSequencer w)
    /\ m_observers prepared = m_observers w
    /\ logout onLogout metricEventBuilt exchanges w
       = andThen (notify onLogout (iteration exchanges (m_observers w)) prepared)
           (fun w4 => Returned (submitLogoutMetric metricEventBuilt w4))
    /\ (exists metric,
          events (state (logout onLogout metricEventBuilt exchanges w))
          = events w ++ [DirectiveSequencerDisable; ConnectionManagerDisable; ClearData]
              ++ map OnLogout (untilNull (iteration exchanges (m_observers w))) ++ metric
          /\ forall o, ~ In (OnLogout o) metric)
    /\ ((exists w', logout onLogout metricEventBuilt exchanges w = Returned w')
        <-> ~ In None (m_observers w)).
Proof.
  unfold logout, logout_prepare, disableDirectiveSequencer, disableConnectionManager,
    clearData.
  rewrite Hsequencer. simpl. rewrite Hconnection. simpl. rewrite Hdata. simpl.
  eexists. split; [reflexivity |].
  set (prepared := emit [ClearData] _).
  assert (Hev : events prepared
                = events w ++ [DirectiveSequencerDisable; ConnectionManagerDisable; ClearData]).
  { subst prepared. simpl. now rewrite <- !app_assoc. }
  split; [exact Hev |]. split; [reflexivity |]. split; [reflexivity |].
  unfold notifyObservers. change (m_observers prepared) with (m_observers w).
  split; [reflexivity |].
  set (order := iteration exchanges (m_observers w)).
  pose proof (iteration_permutation (m_observers w)) as Hperm. fold order in Hperm.
  assert (Hnull : In None order <-> In None (m_observers w)).
  { split; intro H.
    - exact (Permutation_in _ Hperm H).
    - exact (Permutation_in _ (Permutation_sym Hperm) H). }
  split.
  - destruct (notify_outcome order prepared) as [(Hn & ->) | (Hn & ->)]; simpl.
    + destruct (submitLogoutMetric_events (callAll onLogout (untilNull order) prepared))
        as (metric & Hm & Hno).
      destruct (callAll_frame (untilNull order) prepared) as (_ & _ & _ & C4).
      exists metric. split; [| exact Hno].
      rewrite Hm, C4, Hev, <- !app_assoc. reflexivity.
    + destruct (callAll_frame (untilNull order) prepared) as (_ & _ & _ & C4).
      exists []. split; [| auto].
      rewrite C4, Hev, app_nil_r, <- !app_assoc. reflexivity.
  - destruct (notify_outcome order prepared) as [(Hn & ->) | (Hn & ->)]; simpl.
    + split; [intros _; rewrite <- Hnull; exact Hn | intros _; eexists; reflexivity].
    + split; [intros (w' & C); discriminate | intro C; rewrite <- Hnull in C; contradiction].
Qed.


End Logout.



End RegistrationManagerFacts.

(** ** DirectiveSequencer: shutdown, draining and wake-ups *)

Module DirectiveSequencerMore.
Import DirectiveSequencer.
Import DirectiveSequencerFacts.

Section Shutdown.

Variable flag : bool.

Lemma shuttingDown_step (l : Label) (s s' : t) :
  m_isShuttingDown s = true -> step flag l s = Some s' ->
  m_isShuttingDown s' = true
  /\ m_receivingQueue s' = m_receivingQueue s
  /\ dispatched (events s') ++ inFlight s' = dispatched (events s) ++ inFlight s
  /\ List.length (reported (events s')) + List.length (inFlight s')
     <= List.length (reported (events s)) + List.length (inFlight s).
Proof.
  intros Hs H.
  step_cases H; simpl; unfold disable, enable, doShutdown_begin, inFlight; simpl.
  all: try match goal with E : m_receivingThread _ = _ |- _ => rewrite E end.
  all: rewrite ?dispatched_app, ?reported_app, ?length_app; simpl.
  all: rewrite ?(proj1 (metric_calls _)), ?(proj2 (proj2 (metric_calls _))); simpl.
  all: try (assert (Hd := proj1 (route_calls flag d handled));
            assert (Hr := proj2 (proj2 (route_calls flag d handled)));
            simpl in Hd, Hr; rewrite ?Hd, ?Hr).
  all: rewrite ?app_nil_r, <- ?app_assoc; simpl.
  all: try (repeat split; auto; lia).
  rewrite Hs in *. discriminate.
Qed.

Lemma shuttingDown_run (ls : list Label) (s s' : t) :
  m_isShuttingDown s = true -> run flag ls s = Some s' ->
  m_isShuttingDown s' = true
  /\ m_receivingQueue s' = m_receivingQueue s
  /\ dispatched (events s') ++ inFlight s' = dispatched (events s) ++ inFlight s
  /\ List.length (reported (events s')) + List.length (inFlight s')
     <= List.length (reported (events s)) + List.length (inFlight s).
Proof.
  revert s. induction ls as [|l ls IH]; intros s Hs H; simpl in H.
  - injection H as <-. repeat split; auto.
  - destruct (step flag l s) as [s1|] eqn:E; [| discriminate].
    destruct (shuttingDown_step l s s1 Hs E) as (H1 & H2 & H3 & H4).
    destruct (IH s1 H1 H) as (I1 & I2 & I3 & I4).
    repeat split; try congruence. lia.
Qed.

End Shutdown.

(** X1: once [doShutdown] has set the flag, intake stays closed: whatever is
    called afterwards, [enable] included, the flag stays set and every
    [onDirective] returns false and changes nothing. *)
Theorem shutdown_closes_intake
    (flag : bool) (ls : list Label) (s0 s' : t) (directive : option AVSDirective)
    (Hrun : run flag ls (doShutdown_begin s0) = Some s') :
  m_isShuttingDown s' = true /\ onDirective directive s' = (false, s').
Proof.
  destruct (shuttingDown_run flag ls (doShutdown_begin s0) s' eq_refl Hrun) as (Hs & _).
  split; [exact Hs |]. unfold onDirective. destruct directive; [| reflexivity].
  now rewrite Hs.
Qed.

Lemma shutdown_closes_intake_witness :
  exists s',
    run true [CallEnable; ReceivingThread true; CallEnable]
        (doShutdown_begin (construct true true)) = Some s'
    /\ m_isEnabled s' = true
    /\ m_isShuttingDown s' = true
    /\ onDirective (Some sampleDirective) s' = (false, s').
Proof.
  eexists. split; [cbv; reflexivity |]. split; [reflexivity |].
  refine (shutdown_closes_intake true [CallEnable; ReceivingThread true; CallEnable]
            (construct true true) _ (Some sampleDirective) _).
  cbv. reflexivity.
Defined.

(** X2: what is still queued when [doShutdown] sets the flag is dropped: from
    then on the queue stays as it is, nothing is taken off it, only the
    directive the receiving thread already holds can still be dispatched, and
    at most that one is reported to the exception sender. *)
Theorem shutdown_drops_queue (flag : bool) (ls : list Label) (s0 s' : t)
    (Hrun : run flag ls (doShutdown_begin s0) = Some s') :
  m_receivingQueue s' = m_receivingQueue s0
  /\ dispatched (events s') ++ inFlight s' = dispatched (events s0) ++ inFlight s0
  /\ List.length (reported (events s')) <= List.length (reported (events s0)) + List.length (inFlight s0).
Proof.
  destruct (shuttingDown_run flag ls (doShutdown_begin s0) s' eq_refl Hrun) as (_ & Hq & Hd & Hr).
  unfold doShutdown_begin, inFlight in *. simpl in *.
  rewrite dispatched_app, reported_app in *. simpl in *. rewrite app_nil_r in *.
  repeat split; auto. lia.
Qed.

Lemma shutdown_drops_queue_witness :
  exists s0 s',
    run true [CallOnDirective (Some sampleDirective); CallOnDirective (Some sampleDirective)]
        (construct true true) = Some s0
    /\ run true [ReceivingThread true; ReceivingThread true; ShutdownEnd]
           (doShutdown_begin s0) = Some s'
    /\ m_receivingQueue s0 = [sampleDirective; sampleDirective]
    /\ shutdownPc s' = ShutdownReturned
    /\ (m_receivingQueue s' = m_receivingQueue s0
        /\ dispatched (events s') ++ inFlight s' = dispatched (events s0) ++ inFlight s0
        /\ List.length (reported (events s'))
           <= List.length (reported (events s0)) + List.length (inFlight s0)).
Proof.
  eexists. eexists. split; [cbv; reflexivity |]. split; [cbv; reflexivity |].
  split; [reflexivity |]. split; [reflexivity |].
  refine (shutdown_drops_queue true [ReceivingThread true; ReceivingThread true; ShutdownEnd]
            _ _ _).
  cbv. reflexivity.
Defined.

(** X3: no wake-up is lost: a call that makes the receiving thread's wait
    condition true (a directive taken in, the shutdown flag set) also calls
    [notifyOne]. *)
Theorem wake_is_notified (flag : bool) (l : Label) (s s' : t)
    (Hstep : step flag l s = Some s')
    (Hcall : forall handled, l <> ReceivingThread handled)
    (Hbefore : wake s = false)
    (Hafter : wake s' = true) :
  exists es, events s' = events s ++ es /\ In NotifyOne es.
Proof.
  step_cases Hstep; simpl in *; unfold wake, disable, enable, doShutdown_begin in *;
    simpl in *; try congruence.
  all: try (eexists; split; [reflexivity |]; simpl; tauto).
  all: try (exfalso; eapply Hcall; reflexivity).
Qed.

Lemma wake_is_notified_witness :
  exists s',
    step true (CallOnDirective (Some sampleDirective)) (construct true true) = Some s'
    /\ wake (construct true true) = false
    /\ wake s' = true
    /\ exists es, events s' = events (construct true true) ++ es /\ In NotifyOne es.
Proof.
  eexists. split; [cbv; reflexivity |]. split; [reflexivity |]. split; [reflexivity |].
  refine (wake_is_notified true (CallOnDirective (Some sampleDirective))
            (construct true true) _ _ _ _ _).
  - cbv. reflexivity.
  - intros handled. discriminate.
  - reflexivity.
  - reflexivity.
Defined.

Section Drain.

Variable flag : bool.
(** What the dispatch call answers for each directive. *)
Variable answer : AVSDirective -> bool.

Lemma drain_waiting (q : list AVSDirective) :
  forall s,
    m_receivingThread s = Waiting -> m_receivingQueue s = q ->
    m_exceptionSender s = true -> m_isShuttingDown s = false ->
    exists hs s',
      run flag (map ReceivingThread hs) s = Some s'
      /\ List.length hs = 2 * List.length q
      /\ m_receivingQueue s' = [] /\ m_receivingThread s' = Waiting
      /\ m_isShuttingDown s' = false /\ m_isEnabled s' = m_isEnabled s
      /\ dispatched (events s') = dispatched (events s) ++ q
      /\ reported (events s')
         = reported (events s) ++ map unsupported (filter (fun d => negb (answer d)) q).
Proof.
  induction q as [|d q IH]; intros s Ht Hq He Hs.
  - exists [], s. simpl. rewrite !app_nil_r. now repeat split.
  - set (s1 := receiveDirectiveLocked_dequeue s).
    assert (H1 : step flag (ReceivingThread true) s = Some s1).
    { simpl. unfold receivingLoop_step, wake. now rewrite Ht, Hq, Hs. }
    assert (Hs1 : s1 = set_receivingThread (Dispatching d) (set_receivingQueue q s)).
    { unfold s1, receiveDirectiveLocked_dequeue. now rewrite Hq. }
    destruct (receiveDirectiveLocked_dispatch flag d (answer d) s1) as [s2|] eqn:E2.
    2: { unfold receiveDirectiveLocked_dispatch in E2. rewrite Hs1 in E2. simpl in E2.
         rewrite He in E2. now destruct (answer d). }
    assert (H2 : step flag (ReceivingThread (answer d)) s1 = Some s2).
    { simpl. unfold receivingLoop_step. rewrite Hs1 at 1. simpl. exact E2. }
    assert (P2 : m_receivingThread s2 = Waiting /\ m_receivingQueue s2 = q
                 /\ m_exceptionSender s2 = true /\ m_isShuttingDown s2 = false
                 /\ m_isEnabled s2 = m_isEnabled s
                 /\ dispatched (events s2) = dispatched (events s) ++ [d]
                 /\ reported (events s2)
                    = reported (events s) ++ (if answer d then [] else [unsupported d])).
    { unfold receiveDirectiveLocked_dispatch in E2. rewrite Hs1 in E2. simpl in E2.
      rewrite He in E2.
      destruct (answer d); simpl in E2; injection E2 as <-; simpl;
        rewrite ?dispatched_app, ?reported_app, (proj1 (metric_calls d)),
          (proj2 (proj2 (metric_calls d)));
        [assert (Hd := proj1 (route_calls flag d true));
         assert (Hr := proj2 (proj2 (route_calls flag d true)))
        |assert (Hd := proj1 (route_calls flag d false));
         assert (Hr := proj2 (proj2 (route_calls flag d false)))];
        rewrite ?Hd, ?Hr; simpl; rewrite ?app_nil_r; now repeat split. }
    destruct P2 as (Q1 & Q2 & Q3 & Q4 & Q5 & Q6 & Q7).
    destruct (IH s2 Q1 Q2 Q3 Q4) as (hs & s' & R1 & R2 & R3 & R4 & R5 & R6 & R7 & R8).
    exists (true :: answer d :: hs), s'. simpl map. simpl run.
    simpl in H1, H2. rewrite H1, H2.
    split; [exact R1 |]. split; [simpl; lia |]. split; [exact R3 |]. split; [exact R4 |].
    split; [exact R5 |]. split; [congruence |]. split.
    + rewrite R7, Q6, <- app_assoc. reflexivity.
    + rewrite R8, Q7, <- app_assoc. simpl. now destruct (answer d).
Qed.

End Drain.

(** X4: the receiving thread left to run, with nothing else called, hands on
    everything taken in: from any state reached without the shutdown flag set
    it dispatches the directive it holds and then the whole queue, front to
    back, reports exactly those whose dispatch call answers false, and then
    waits with an empty queue.  Whether the sequencer is enabled plays no part. *)
Theorem receiving_thread_drains
    (flag pr : bool) (answer : AVSDirective -> bool) (ls : list Label) (s : t)
    (Hrun : run flag ls (construct true pr) = Some s)
    (Hup : m_isShuttingDown s = false) :
  exists hs s',
    run flag (map ReceivingThread hs) s = Some s'
    /\ m_receivingQueue s' = [] /\ m_receivingThread s' = Waiting
    /\ m_isEnabled s' = m_isEnabled s
    /\ dispatched (events s') = dispatched (events s) ++ inFlight s ++ m_receivingQueue s
    /\ reported (events s')
       = reported (events s)
           ++ map unsupported
                (filter (fun d => negb (answer d)) (inFlight s ++ m_receivingQueue s))
    /\ (forall handled, step flag (ReceivingThread handled) s' = None).
Proof.
  destruct (lifecycle_run flag true pr ls s Hrun) as [_ Hl].
  assert (Hlive : m_receivingThread s <> Exited /\ m_exceptionSender s = true).
  { destruct (shutdownPc s); try (destruct Hl as (C & _); congruence).
    destruct Hl as (_ & H1 & _ & H2). now split. }
  destruct Hlive as [Hn He].
  assert (Hblocked : forall x, m_receivingQueue x = [] -> m_receivingThread x = Waiting ->
                       m_isShuttingDown x = false ->
                       forall handled, step flag (ReceivingThread handled) x = None).
  { intros x Hq Ht Hs handled. simpl. unfold receivingLoop_step, wake. now rewrite Ht, Hq, Hs. }
  assert (Hcons : forall l rest x x1, step flag l x = Some x1 ->
                    run flag (l :: rest) x = run flag rest x1).
  { intros l rest x x1 H. simpl. now rewrite H. }
  destruct (m_receivingThread s) as [| | d |] eqn:Et; [| | | now contradiction Hn].
  - set (s1 := set_receivingThread Waiting (emit [AssignThreadPowerResource] s)).
    assert (H1 : step flag (ReceivingThread true) s = Some s1).
    { simpl. unfold receivingLoop_step. now rewrite Et. }
    destruct (drain_waiting flag answer (m_receivingQueue s) s1)
      as (hs & s' & R1 & _ & R3 & R4 & R5 & R6 & R7 & R8); auto.
    exists (true :: hs), s'. cbn [map]. rewrite (Hcons _ _ _ _ H1).
    unfold inFlight. rewrite Et. cbn [app].
    split; [exact R1 |]. split; [exact R3 |]. split; [exact R4 |]. split; [exact R6 |].
    split; [| split].
    + rewrite R7. unfold s1. simpl. now rewrite dispatched_app, app_nil_r.
    + rewrite R8. unfold s1. simpl. now rewrite reported_app, app_nil_r.
    + now apply Hblocked.
  - destruct (drain_waiting flag answer (m_receivingQueue s) s)
      as (hs & s' & R1 & _ & R3 & R4 & R5 & R6 & R7 & R8); auto.
    exists hs, s'. unfold inFlight. rewrite Et. cbn [app].
    split; [exact R1 |]. split; [exact R3 |]. split; [exact R4 |]. split; [exact R6 |].
    split; [exact R7 |]. split; [exact R8 |]. now apply Hblocked.
  - destruct (dispatch_step flag pr ls s d (answer d) Hrun Et) as (s1 & H1 & Hev & Hrep).
    assert (P1 : m_receivingThread s1 = Waiting /\ m_receivingQueue s1 = m_receivingQueue s
                 /\ m_exceptionSender s1 = true /\ m_isShuttingDown s1 = false
                 /\ m_isEnabled s1 = m_isEnabled s).
    { pose proof H1 as H1'. simpl in H1'.
      unfold receivingLoop_step, receiveDirectiveLocked_dispatch in H1'.
      rewrite Et in H1'. simpl in H1'. rewrite He in H1'.
      destruct (answer d); simpl in H1'; injection H1' as <-; now repeat split. }
    destruct P1 as (Q1 & Q2 & Q3 & Q4 & Q5).
    destruct (drain_waiting flag answer (m_receivingQueue s1) s1)
      as (hs & s' & R1 & _ & R3 & R4 & R5 & R6 & R7 & R8); auto.
    exists (answer d :: hs), s'. cbn [map]. rewrite (Hcons _ _ _ _ H1).
    unfold inFlight. rewrite Et. cbn [app].
    split; [exact R1 |]. split; [exact R3 |]. split; [exact R4 |]. split; [congruence |].
    split; [| split].
    + rewrite R7, Hev, Q2, !dispatched_app, (proj1 (metric_calls d)). cbn [app].
      assert (Hd : dispatched (route flag d (answer d)
                     :: (if answer d then []
                         else [SendExceptionEncountered (AVSDirective.getUnparsedDirective d)
                                 UNSUPPORTED_OPERATION "Unsupported operation"])) = [d]).
      { unfold route. destruct flag; [destruct (empty _) |]; destruct (answer d); reflexivity. }
      rewrite Hd, <- app_assoc. reflexivity.
    + rewrite R8, Hrep, Q2, <- app_assoc. cbn [filter].
      now destruct (answer d).
    + now apply Hblocked.
Qed.

Lemma receiving_thread_drains_witness :
  exists s,
    run true [CallOnDirective (Some sampleDirective); CallDisable;
              CallOnDirective (Some sampleDirective)] (construct true true) = Some s
    /\ m_receivingQueue s = [sampleDirective]
    /\ exists hs s',
         run true (map ReceivingThread hs) s = Some s'
         /\ m_receivingQueue s' = [] /\ m_receivingThread s' = Waiting
         /\ m_isEnabled s' = m_isEnabled s
         /\ dispatched (events s') = dispatched (events s) ++ inFlight s ++ m_receivingQueue s
         /\ reported (events s')
            = reported (events s)
                ++ map unsupported
                     (filter (fun d => negb ((fun _ => false) d))
                        (inFlight s ++ m_receivingQueue s))
         /\ (forall handled, step true (ReceivingThread handled) s' = None).
Proof.
  eexists. split; [cbv; reflexivity |]. split; [reflexivity |].
  refine (receiving_thread_drains true true (fun _ => false)
            [CallOnDirective (Some sampleDirective); CallDisable;
             CallOnDirective (Some sampleDirective)] _ _ _); cbv; reflexivity.
Defined.


End DirectiveSequencerMore.

(** ** EndpointResources: validity, write-once parts and stored labels *)

Module EndpointResourcesMore.
Import EndpointResources.
Import EndpointResourcesSpec.
Import EndpointResourcesFacts.

Ltac unfold_ops :=
  unfold addFriendlyNameWithAssetId, addFriendlyNameWithText,
    addManufacturerNameWithAssetId, addManufacturerNameWithText,
    addDescriptionWithAssetId, addDescriptionWithText.

Lemma invalid_apply (o : Op) (r : t) : m_isValid r = false -> m_isValid (apply o r) = false.
Proof.
  intro H. destruct o; simpl; unfold_ops; repeat break_if; simpl; auto.
Qed.

Lemma invalid_run (ops : list Op) (r : t) :
  m_isValid r = false -> m_isValid (run ops r) = false.
Proof.
  revert r. induction ops as [|o ops IH]; intros r H; [exact H |].
  change (run (o :: ops) r) with (run ops (apply o r)). apply IH. now apply invalid_apply.
Qed.

(** X5: invalidity is for good: once an operation has flagged an error, no
    further operation makes the object valid again, and [build] returns the
    empty string. *)
Theorem invalid_forever
    (escape : string -> string) (parses : string -> bool) (ops : list Op) (r : t)
    (Hflag : m_isValid r = false) :
  m_isValid (run ops r) = false
  /\ isValid (run ops r) = false
  /\ build escape parses (run ops r) = EmptyString.
Proof.
  pose proof (invalid_run ops r Hflag) as H.
  assert (Hv : isValid (run ops r) = false) by (unfold isValid; now rewrite H).
  split; [exact H |]. split; [exact Hv |]. now apply build_invalid.
Qed.

Lemma invalid_forever_witness :
  let r := addFriendlyNameWithAssetId EmptyString new in
  let ops := [AddFriendlyNameWithAssetId "a"; AddManufacturerNameWithAssetId "m";
              AddDescriptionWithAssetId "d"] in
  m_isValid r = false
  /\ isValid (run ops new) = true
  /\ (m_isValid (run ops r) = false
      /\ isValid (run ops r) = false
      /\ build (fun x => x) (fun _ => true) (run ops r) = EmptyString).
Proof.
  intros r ops. split; [reflexivity |]. split; [reflexivity |].
  exact (invalid_forever (fun x => x) (fun _ => true) ops r eq_refl).
Defined.

Lemma manufacturerName_kept (o : Op) (r : t) :
  value (m_manufacturerName r) <> EmptyString ->
  m_manufacturerName (apply o r) = m_manufacturerName r
  /\ (part o = ManufacturerName -> m_isValid (apply o r) = false).
Proof.
  intro H.
  assert (Hz : Nat.eqb (String.length (value (m_manufacturerName r))) 0 = false)
    by (destruct (value (m_manufacturerName r)); [congruence | reflexivity]).
  destruct o; simpl; unfold_ops; repeat break_if; simpl in *;
    try (split; [reflexivity | intros; try reflexivity; discriminate]).
  all: rewrite Hz in *; simpl in *; discriminate.
Qed.

Lemma description_kept (o : Op) (r : t) :
  value (m_description r) <> EmptyString ->
  m_description (apply o r) = m_description r
  /\ (part o = Description -> m_isValid (apply o r) = false).
Proof.
  intro H.
  assert (Hz : Nat.eqb (String.length (value (m_description r))) 0 = false)
    by (destruct (value (m_description r)); [congruence | reflexivity]).
  destruct o; simpl; unfold_ops; repeat break_if; simpl in *;
    try (split; [reflexivity | intros; try reflexivity; discriminate]).
  all: rewrite Hz in *; simpl in *; discriminate.
Qed.

(** X6: manufacturer name and description are written once: when one is there
    (non-empty), every operation leaves it as it is, over any sequence of
    calls, and every further attempt to set it, by asset id or by text,
    makes the object invalid. *)
Theorem names_written_once (r : t) (ops : list Op) (o : Op) :
  (value (m_manufacturerName r) <> EmptyString ->
     m_manufacturerName (run ops r) = m_manufacturerName r
     /\ (part o = ManufacturerName ->
         m_isValid (apply o r) = false /\ isValid (run ops (apply o r)) = false))
  /\ (value (m_description r) <> EmptyString ->
        m_description (run ops r) = m_description r
        /\ (part o = Description ->
            m_isValid (apply o r) = false /\ isValid (run ops (apply o r)) = false)).
Proof.
  split; intro H; split.
  - revert r H. induction ops as [|x ops IH]; intros r H; [reflexivity |].
    change (run (x :: ops) r) with (run ops (apply x r)).
    destruct (manufacturerName_kept x r H) as [E _].
    rewrite IH; [exact E | now rewrite E].
  - intro Hp. destruct (manufacturerName_kept o r H) as [_ E]. specialize (E Hp).
    split; [exact E |]. unfold isValid. now rewrite (invalid_run ops _ E).
  - revert r H. induction ops as [|x ops IH]; intros r H; [reflexivity |].
    change (run (x :: ops) r) with (run ops (apply x r)).
    destruct (description_kept x r H) as [E _].
    rewrite IH; [exact E | now rewrite E].
  - intro Hp. destruct (description_kept o r H) as [_ E]. specialize (E Hp).
    split; [exact E |]. unfold isValid. now rewrite (invalid_run ops _ E).
Qed.

Lemma Label_eqb_sym (a b : Label) : Label_eqb a b = Label_eqb b a.
Proof. unfold Label_eqb. now rewrite String.eqb_sym, (String.eqb_sym (valueOr (locale a) _)). Qed.

Lemma distinct_snoc (l : list Label) (x : Label) :
  distinct (l ++ [x]) = distinct l && negb (found x l).
Proof.
  induction l as [|a l IH]; simpl; [reflexivity |].
  rewrite IH, found_last, (Label_eqb_sym x a). clear IH.
  change (found x (a :: l)) with (Label_eqb a x || found x l).
  generalize (found a l), (Label_eqb a x), (distinct l), (found x l).
  intros [|] [|] [|] [|]; reflexivity.
Qed.

(** X7: the friendly names of an object never hold two labels that compare
    equal: whatever is called on a fresh object, the list stays free of
    duplicates under [Label::operator==]. *)
Theorem friendlyNames_distinct (ops : list Op) :
  distinct (m_friendlyNames (run ops new)) = true.
Proof.
  induction ops as [|o ops IH] using rev_ind; [reflexivity |].
  rewrite run_snoc. set (r := run ops new) in *.
  destruct o; simpl; unfold_ops; repeat break_if; simpl; try exact IH.
  all: rewrite distinct_snoc, IH; simpl; apply negb_true_iff; assumption.
Qed.

Lemma partsStored_apply (o : Op) (r : t) : partsStored r -> partsStored (apply o r).
Proof.
  unfold partsStored. intros H.
  destruct o; simpl; unfold_ops; repeat break_if; simpl; try discriminate; try exact H.
  all: intro Hv; destruct (H Hv) as [Hm Hd]; split; auto; right;
    unfold stored, limit; simpl;
    repeat match goal with E : _ = false |- _ => rewrite E end; reflexivity.
Qed.

Lemma partsStored_run (ops : list Op) : partsStored (run ops new).
Proof.
  induction ops as [|o ops IH] using rev_ind.
  - intros _. split; now left.
  - rewrite run_snoc. now apply partsStored_apply.
Qed.

Lemma stored_initialized (p : Part) (l : Label) :
  stored p l = true ->
  type l <> UNINITIALIZED /\ value l <> EmptyString
  /\ (type l = TEXT ->
      String.length (value l) <= limit p
      /\ exists loc, locale l = Some loc /\ loc <> EmptyString).
Proof.
  unfold stored. destruct l as [[| |] v [loc|]]; simpl; try discriminate; intro H.
  - apply negb_true_iff in H. split; [discriminate |]. split.
    + intros ->. discriminate.
    + discriminate.
  - apply andb_true_iff in H. destruct H as [H1 H2].
    apply negb_true_iff, orb_false_iff in H1. destruct H1 as [H1 H3].
    apply negb_true_iff in H2.
    split; [discriminate |]. split.
    + intros ->. discriminate.
    + intros _. split.
      * apply Nat.ltb_ge in H3. exact H3.
      * exists loc. split; [reflexivity |]. intros ->. discriminate.
Qed.

(** X8: a valid object holds only labels that passed the checks: every friendly
    name, the manufacturer name and the description are an asset with a
    non-empty id or a text within the length limit with a non-empty locale;
    so [build] never writes a label whose type was left uninitialised or
    whose locale is missing. *)
Theorem valid_object_labels (ops : list Op)
    (Hvalid : isValid (run ops new) = true) :
  Forall (fun l => stored FriendlyName l = true) (m_friendlyNames (run ops new))
  /\ stored ManufacturerName (m_manufacturerName (run ops new)) = true
  /\ stored Description (m_description (run ops new)) = true
  /\ forall l,
       In l (m_manufacturerName (run ops new) :: m_description (run ops new)
               :: m_friendlyNames (run ops new)) ->
       type l <> UNINITIALIZED /\ value l <> EmptyString
       /\ (type l = TEXT ->
           String.length (value l) <= 128
           /\ exists loc, locale l = Some loc /\ loc <> EmptyString).
Proof.
  apply isValid_true_iff in Hvalid. destruct Hvalid as (Hv & Hn & Hm & Hd).
  destruct (partsStored_run ops Hv) as [[Cm | Sm] [Cd | Sd]];
    try (rewrite Cm in Hm; now contradiction Hm);
    try (rewrite Cd in Hd; now contradiction Hd).
  pose proof (friendlyNames_wellFormed ops) as Hf.
  split; [exact Hf |]. split; [exact Sm |]. split; [exact Sd |].
  intros l [<- | [<- | Hin]].
  - exact (stored_initialized ManufacturerName _ Sm).
  - exact (stored_initialized Description _ Sd).
  - rewrite Forall_forall in Hf. exact (stored_initialized FriendlyName _ (Hf l Hin)).
Qed.

Lemma valid_object_labels_witness :
  let ops := [AddManufacturerNameWithText "Acme" "en-US"; AddFriendlyNameWithAssetId "a";
              AddDescriptionWithAssetId "d"] in
  isValid (run ops new) = true
  /\ stored ManufacturerName (m_manufacturerName (run ops new)) = true
  /\ stored Description (m_description (run ops new)) = true.
Proof.
  intro ops. split; [reflexivity |].
  destruct (valid_object_labels ops eq_refl) as (_ & Hm & Hd & _). now split.
Defined.

Lemma wellUsed_snoc (ops : list Op) (o : Op) :
  wellUsed (ops ++ [o]) ->
  wellUsed ops /\ validInput o = true
  /\ (part o = FriendlyName ->
      found (labelOf o) (map labelOf (filter (isPart FriendlyName) ops)) = false)
  /\ (part o = ManufacturerName -> filter (isPart ManufacturerName) ops = [])
  /\ (part o = Description -> filter (isPart Description) ops = []).
Proof.
  unfold wellUsed. rewrite Forall_app, !filter_app, !length_app, map_app.
  intros ((Hf & Ho) & Hd & Hm & Hs).
  inversion Ho as [|? ? Hv _]; subst.
  assert (Hd' : distinct (map labelOf (filter (isPart FriendlyName) ops)) = true
                /\ (part o = FriendlyName ->
                    found (labelOf o) (map labelOf (filter (isPart FriendlyName) ops)) = false)).
  { cbn [filter] in Hd. destruct (isPart FriendlyName o) eqn:Ei; cbn [map] in Hd.
    - rewrite distinct_snoc in Hd. apply andb_true_iff in Hd. destruct Hd as [H1 H2].
      apply negb_true_iff in H2. now split.
    - rewrite app_nil_r in Hd. split; [exact Hd |]. intro Ep.
      unfold isPart in Ei. rewrite Ep in Ei. discriminate. }
  destruct Hd' as [Hd1 Hd2].
  assert (Hlen : forall p, List.length (filter (isPart p) ops)
                           + List.length (filter (isPart p) [o]) <= 1 ->
                   List.length (filter (isPart p) ops) <= 1
                   /\ (isPart p o = true -> filter (isPart p) ops = [])).
  { intros p H. cbn [filter] in H. destruct (isPart p o); cbn [List.length] in H.
    - split; [lia |]. intros _. destruct (filter (isPart p) ops); [reflexivity | simpl in H; lia].
    - split; [lia | discriminate]. }
  destruct (Hlen _ Hm) as [Hm1 Hm2]. destruct (Hlen _ Hs) as [Hs1 Hs2].
  repeat split; auto.
  - intro Ep. apply Hm2. unfold isPart. now rewrite Ep.
  - intro Ep. apply Hs2. unfold isPart. now rewrite Ep.
Qed.

Lemma firstLabel_snoc (p : Part) (ops : list Op) (o : Op) :
  firstLabel p (ops ++ [o])
  = if isPart p o
    then match filter (isPart p) ops with [] => labelOf o | _ :: _ => firstLabel p ops end
    else firstLabel p ops.
Proof.
  unfold firstLabel. rewrite filter_app. simpl.
  destruct (isPart p o); simpl.
  - now destruct (filter (isPart p) ops).
  - now rewrite app_nil_r.
Qed.

Lemma followsCalls_run (ops : list Op) : wellUsed ops -> followsCalls ops (run ops new).
Proof.
  induction ops as [|o ops IH] using rev_ind; intro Hw.
  - now repeat split.
  - destruct (wellUsed_snoc ops o Hw) as (Hw' & Hv & Hf & Hm & Hd).
    destruct (IH Hw') as (I1 & I0 & I2 & I3 & I4). clear IH.
    rewrite run_snoc. set (r := run ops new) in *.
    assert (Ef : part o = FriendlyName -> found (labelOf o) (m_friendlyNames r) = false)
      by (intro E; rewrite I2; auto).
    assert (Em : part o = ManufacturerName ->
                 Nat.eqb (String.length (value (m_manufacturerName r))) 0 = true).
    { intro E. rewrite I3. unfold firstLabel. now rewrite (Hm E). }
    assert (Ed : part o = Description ->
                 Nat.eqb (String.length (value (m_description r))) 0 = true).
    { intro E. rewrite I4. unfold firstLabel. now rewrite (Hd E). }
    unfold followsCalls. rewrite filter_app, map_app, !firstLabel_snoc.
    unfold validInput, stored in Hv.
    destruct o as [a | x l | a | x l | a | x l];
      cbn [part labelOf type value locale limit] in Hv, Ef, Em, Ed, Hm, Hd;
      cbn [isPart part filter map labelOf EndpointResources.apply].
    + apply negb_true_iff in Hv. unfold addFriendlyNameWithAssetId.
      rewrite Hv, (Ef eq_refl). simpl. now rewrite I2.
    + apply andb_true_iff in Hv. destruct Hv as [H1 H2].
      apply negb_true_iff in H1, H2. unfold addFriendlyNameWithText.
      rewrite H1, H2, (Ef eq_refl). simpl. now rewrite I2.
    + apply negb_true_iff in Hv. unfold addManufacturerNameWithAssetId.
      rewrite Hv, (Em eq_refl), (Hm eq_refl). simpl. now rewrite app_nil_r.
    + apply andb_true_iff in Hv. destruct Hv as [H1 H2].
      apply negb_true_iff in H1, H2. unfold addManufacturerNameWithText.
      rewrite H1, H2. cbv zeta. rewrite (Em eq_refl), (Hm eq_refl). simpl.
      now rewrite app_nil_r.
    + apply negb_true_iff in Hv. unfold addDescriptionWithAssetId.
      rewrite Hv, (Ed eq_refl), (Hd eq_refl). simpl. now rewrite app_nil_r.
    + apply andb_true_iff in Hv. destruct Hv as [H1 H2].
      apply negb_true_iff in H1, H2. unfold addDescriptionWithText.
      rewrite H1, H2. cbv zeta. rewrite (Ed eq_refl), (Hd eq_refl). simpl.
      now rewrite app_nil_r.
Qed.

Lemma filter_nonempty_iff (A : Type) (f : A -> bool) (l : list A) :
  filter f l <> [] <-> exists x, In x l /\ f x = true.
Proof.
  split.
  - intro H. destruct (filter f l) as [|x rest] eqn:E; [now contradiction H |].
    exists x. apply filter_In. rewrite E. now left.
  - intros (x & Hin & Hx) E.
    assert (Hx' : In x (filter f l)) by (apply filter_In; now split).
    rewrite E in Hx'. exact Hx'.
Qed.

Lemma firstLabel_nonempty (p : Part) (ops : list Op) :
  Forall (fun o => validInput o = true) ops ->
  (value (firstLabel p ops) <> EmptyString <-> filter (isPart p) ops <> []).
Proof.
  intro Hv. unfold firstLabel. destruct (filter (isPart p) ops) as [|o rest] eqn:E; simpl.
  - split; intro H; now contradiction H.
  - split; [discriminate |]. intros _.
    assert (Hin : In o ops) by (apply (filter_In (isPart p)); rewrite E; now left).
    rewrite Forall_forall in Hv. specialize (Hv o Hin).
    exact (proj1 (proj2 (stored_initialized _ _ Hv))).
Qed.

(** X9: used as meant, the class builds what was asked for: after calls with
    inputs that pass the checks, no friendly name twice and manufacturer name
    and description at most once, in any order, no error is flagged and
    nothing is logged, the friendly names are those given, in the order
    given, and the object is valid exactly when each of the three parts was
    given. *)
Theorem well_used_object (ops : list Op) (Hused : wellUsed ops) :
  m_isValid (run ops new) = true
  /\ log (run ops new) = []
  /\ m_friendlyNames (run ops new) = map labelOf (filter (isPart FriendlyName) ops)
  /\ m_manufacturerName (run ops new) = firstLabel ManufacturerName ops
  /\ m_description (run ops new) = firstLabel Description ops
  /\ (isValid (run ops new) = true <->
        (exists o, In o ops /\ part o = FriendlyName)
        /\ (exists o, In o ops /\ part o = ManufacturerName)
        /\ (exists o, In o ops /\ part o = Description)).
Proof.
  destruct (followsCalls_run ops Hused) as (H1 & H0 & H2 & H3 & H4).
  split; [exact H1 |]. split; [exact H0 |]. split; [exact H2 |].
  split; [exact H3 |]. split; [exact H4 |].
  destruct Hused as (Hv & _).
  assert (Hp : forall p, filter (isPart p) ops <> [] <-> exists o, In o ops /\ part o = p).
  { intro p. rewrite filter_nonempty_iff. split; intros (o & Hin & Ho); exists o; split; auto.
    - unfold isPart in Ho. destruct p, (part o); congruence.
    - unfold isPart. rewrite Ho. now destruct p. }
  rewrite isValid_true_iff, H3, H4, !(firstLabel_nonempty _ _ Hv), <- !Hp, H2.
  assert (Hn : map labelOf (filter (isPart FriendlyName) ops) <> []
               <-> filter (isPart FriendlyName) ops <> []).
  { destruct (filter (isPart FriendlyName) ops); simpl; split; congruence. }
  rewrite Hn. tauto.
Qed.

Lemma well_used_object_witness :
  let ops := [AddDescriptionWithText "A lamp" "en-US";
              AddFriendlyNameWithText "lamp" "en-US";
              AddFriendlyNameWithAssetId "Alexa.Lamp";
              AddManufacturerNameWithAssetId "Acme"] in
  wellUsed ops
  /\ isValid (run ops new) = true
  /\ m_friendlyNames (run ops new)
     = [mkLabel TEXT "lamp" (Some "en-US"); mkLabel ASSET "Alexa.Lamp" None].
Proof.
  intro ops.
  assert (Hw : wellUsed ops).
  { split; [repeat constructor |]. split; [reflexivity |]. split; simpl; lia. }
  split; [exact Hw |]. split; [reflexivity |].
  exact (proj1 (proj2 (proj2 (well_used_object ops Hw)))).
Defined.

End EndpointResourcesMore.

(** ** RegistrationManager: registered observers *)

Module RegistrationManagerMore.
Import RegistrationManager RegistrationManagerSpec RegistrationManagerFacts.

Section Registered.

Variable ObserverState : Type.
Variable onLogout :
  Observer -> DirectiveSequencer.t * ObserverState -> DirectiveSequencer.t * ObserverState.
Variable metricEventBuilt : bool.
Variable exchanges : list nat.

Lemma pointer_eqb_eq (a b : option Observer) : pointer_eqb a b = true <-> a = b.
Proof.
  destruct a as [x |], b as [y |]; simpl; try (split; congruence).
  rewrite Nat.eqb_eq. split; congruence.
Qed.

Lemma pointer_eqb_refl (a : option Observer) : pointer_eqb a a = true.
Proof. apply pointer_eqb_eq. reflexivity. Qed.

Lemma call_frame (c : ObserverCall) (w : t ObserverState) :
  m_directiveSequencer (call c w) = m_directiveSequencer w
  /\ m_connectionManager (call c w) = m_connectionManager w
  /\ m_dataManager (call c w) = m_dataManager w
  /\ events (call c w) = events w.
Proof.
  destruct c; simpl; unfold addObserver, removeObserver; simpl;
    try destruct (existsb _ _); now repeat split.
Qed.

Lemma calls_frame (cs : list ObserverCall) (w : t ObserverState) :
  m_directiveSequencer (calls cs w) = m_directiveSequencer w
  /\ m_connectionManager (calls cs w) = m_connectionManager w
  /\ m_dataManager (calls cs w) = m_dataManager w
  /\ events (calls cs w) = events w.
Proof.
  revert w. induction cs as [|c cs IH]; intro w; [now repeat split |].
  change (calls (c :: cs) w) with (calls cs (call c w)).
  destruct (IH (call c w)) as (H1 & H2 & H3 & H4).
  destruct (call_frame c w) as (F1 & F2 & F3 & F4).
  repeat split; congruence.
Qed.

Lemma calls_snoc (cs : list ObserverCall) (c : ObserverCall) (w : t ObserverState) :
  calls (cs ++ [c]) w = call c (calls cs w).
Proof. unfold calls. now rewrite fold_left_app. Qed.

Lemma registered_snoc (cs : list ObserverCall) (c : ObserverCall) (p : option Observer) :
  registered (cs ++ [c]) p
  = match c with
    | AddObserver x => if pointer_eqb x p then true else registered cs p
    | RemoveObserver x => if pointer_eqb x p then false else registered cs p
    end.
Proof. unfold registered. now rewrite fold_left_app. Qed.

Lemma observers_registered (cs : list ObserverCall) (w : t ObserverState) :
  m_observers w = [] ->
  NoDup (m_observers (calls cs w))
  /\ forall p, In p (m_observers (calls cs w)) <-> registered cs p = true.
Proof.
  intro H0. induction cs as [|c cs IH] using rev_ind.
  - simpl. rewrite H0. split; [constructor |]. intro p. simpl. split; [tauto | discriminate].
  - destruct IH as [Hn Hr]. rewrite calls_snoc. set (v := calls cs w) in *.
    destruct c as [x | x]; simpl.
    + unfold addObserver. destruct (existsb (pointer_eqb x) (m_observers v)) eqn:E.
      * split; [exact Hn |]. intro p. rewrite registered_snoc.
        destruct (pointer_eqb x p) eqn:Ex; [| apply Hr].
        apply pointer_eqb_eq in Ex. subst p. split; [reflexivity |]. intros _.
        apply existsb_exists in E. destruct E as (y & Hy & Exy).
        apply pointer_eqb_eq in Exy. now subst y.
      * assert (Hx : ~ In x (m_observers v)).
        { intro C. assert (existsb (pointer_eqb x) (m_observers v) = true).
          { apply existsb_exists. exists x. split; [exact C | apply pointer_eqb_refl]. }
          congruence. }
        simpl. split.
        -- apply NoDup_app; [exact Hn | repeat constructor; auto |].
           intros y Hy [<- | []]. contradiction.
        -- intro p. rewrite registered_snoc, in_app_iff. simpl.
           destruct (pointer_eqb x p) eqn:Ex.
           ++ apply pointer_eqb_eq in Ex. tauto.
           ++ assert (x <> p) by (intro C; apply pointer_eqb_eq in C; congruence).
              rewrite (Hr p). tauto.
    + unfold removeObserver. simpl. split.
      * now apply NoDup_filter.
      * intro p. rewrite registered_snoc, filter_In.
        destruct (pointer_eqb x p) eqn:Ex; simpl.
        -- split; [intros [_ C]; discriminate | discriminate].
        -- rewrite (Hr p). tauto.
Qed.

Lemma notifications_app (o : Observer) (a b : list Event) :
  notifications o (a ++ b) = notifications o a + notifications o b.
Proof. unfold notifications. now rewrite filter_app, length_app. Qed.

Lemma notifications_observers (o : Observer) (l : list Observer) :
  NoDup l ->
  notifications o (map OnLogout l) <= 1
  /\ (In o l -> notifications o (map OnLogout l) = 1)
  /\ (~ In o l -> notifications o (map OnLogout l) = 0).
Proof.
  unfold notifications. induction l as [|x l IH]; intro Hn.
  - simpl. split; [lia |]. split; [intros [] | reflexivity].
  - inversion Hn as [|? ? Hx Hl]; subst. destruct (IH Hl) as (I1 & I2 & I3).
    simpl. destruct (Nat.eqb x o) eqn:E; simpl.
    + apply Nat.eqb_eq in E. subst x. rewrite (I3 Hx).
      split; [lia |]. split; [reflexivity |]. intro C. exfalso. apply C. now left.
    + apply Nat.eqb_neq in E. split; [exact I1 |]. split.
      * intros [C | C]; [contradiction | exact (I2 C)].
      * intro C. apply I3. intro D. apply C. now right.
Qed.

Lemma notifications_quiet (o : Observer) (es : list Event) :
  (forall x, ~ In (OnLogout x) es) -> notifications o es = 0.
Proof.
  unfold notifications. induction es as [| e es IH]; intro H; [reflexivity |].
  simpl. destruct e as [| | | x |]; try (apply IH; intros y C; apply (H y); now right).
  exfalso. apply (H x). now left.
Qed.

(** The observers in front of the first null pointer are themselves in the
    list, and once each if the list has no pointer twice. *)
Lemma untilNull_In (l : list (option Observer)) (o : Observer) :
  In o (untilNull l) -> In (Some o) l.
Proof.
  induction l as [| [x |] l IH]; simpl; [tauto | | tauto].
  intros [-> | H]; [now left | right; exact (IH H)].
Qed.

Lemma untilNull_NoDup (l : list (option Observer)) : NoDup l -> NoDup (untilNull l).
Proof.
  induction l as [| [x |] l IH]; intro H; simpl; [constructor | | constructor].
  inversion H as [| ? ? Hx Hl]; subst. constructor; [| exact (IH Hl)].
  intro C. apply Hx. apply untilNull_In. exact C.
Qed.

Lemma untilNull_all (l : list (option Observer)) (o : Observer) :
  ~ In None l -> In (Some o) l -> In o (untilNull l).
Proof.
  induction l as [| [x |] l IH]; simpl; intros Hn Ho; [tauto | |].
  - destruct Ho as [Ho | Ho]; [injection Ho as ->; now left |].
    right. apply IH; [intro C; apply Hn; now right | exact Ho].
  - exfalso. apply Hn. now left.
Qed.

(** X10: after any calls of [addObserver] and [removeObserver], a null
    pointer included, [logout] returns exactly when no null pointer is
    registered, and then it has called [onLogout] once on every observer that
    is registered (added and not removed since, however often it was added)
    and on no other; when a null pointer is registered it goes through it in
    [notifyObservers], having called no observer twice and none that is not
    registered. *)
Theorem logout_notifies_registered
    (w0 : t ObserverState) (cs : list ObserverCall) (o : Observer)
    (Hfresh : m_observers w0 = [])
    (Hsequencer : m_directiveSequencer w0 = true)
    (Hconnection : m_connectionManager w0 = true)
    (Hdata : m_dataManager w0 = true) :
  let w := calls cs w0 in
  let outcome := logout onLogout metricEventBuilt exchanges w in
  NoDup (m_observers w)
  /\ (forall p, In p (m_observers w) <-> registered cs p = true)
  /\ ((exists w', outcome = Returned w') <-> registered cs None = false)
  /\ (registered cs None = false ->
      notifications o (events (state outcome))
      = notifications o (events w0) + (if registered cs (Some o) then 1 else 0))
  /\ notifications o (events (state outcome))
     <= notifications o (events w0) + (if registered cs (Some o) then 1 else 0).
Proof.
  intros w outcome.
  destruct (observers_registered cs w0 Hfresh) as [Hn Hr]. fold w in Hn, Hr.
  destruct (calls_frame cs w0) as (F1 & F2 & F3 & F4). fold w in F1, F2, F3, F4.
  rewrite <- F1 in Hsequencer. rewrite <- F2 in Hconnection. rewrite <- F3 in Hdata.
  destruct (logout_calls ObserverState onLogout metricEventBuilt exchanges w
              Hsequencer Hconnection Hdata)
    as (prepared & _ & _ & _ & _ & _ & (metric & Hev & Hmetric) & Hreturns).
  fold outcome in Hev, Hreturns.
  set (order := iteration exchanges (m_observers w)) in *.
  pose proof (iteration_permutation exchanges (m_observers w)) as Hperm. fold order in Hperm.
  assert (Hnd : NoDup (untilNull order)).
  { apply untilNull_NoDup. exact (Permutation_NoDup (Permutation_sym Hperm) Hn). }
  destruct (notifications_observers o (untilNull order) Hnd) as (N1 & N2 & N3).
  assert (Hcount : notifications o (events (state outcome))
                   = notifications o (events w0)
                     + notifications o (map OnLogout (untilNull order))).
  { rewrite Hev, !notifications_app, F4, (notifications_quiet o metric Hmetric).
    unfold notifications at 2. simpl. lia. }
  assert (Hnull : In None (m_observers w) <-> registered cs None = true) by apply Hr.
  split; [exact Hn |]. split; [exact Hr |]. split; [| split].
  - rewrite Hreturns, Hnull. destruct (registered cs None); split; congruence.
  - intro Hno. rewrite Hcount. f_equal.
    assert (Hnone : ~ In None order).
    { intro C. apply (Permutation_in _ Hperm) in C. apply Hnull in C. congruence. }
    destruct (registered cs (Some o)) eqn:Er.
    + apply N2. apply untilNull_all; [exact Hnone |].
      apply (Permutation_in _ (Permutation_sym Hperm)). apply Hr. exact Er.
    + apply N3. intro C. apply untilNull_In in C.
      apply (Permutation_in _ Hperm) in C. apply Hr in C. congruence.
  - rewrite Hcount. apply Nat.add_le_mono_l.
    destruct (registered cs (Some o)) eqn:Er; [exact N1 |].
    rewrite N3; [lia |]. intro C. apply untilNull_In in C.
    apply (Permutation_in _ Hperm) in C. apply Hr in C. congruence.
Qed.

End Registered.

Lemma logout_notifies_registered_witness :
  let w0 := construct true true true true (DirectiveSequencer.construct true true) [] in
  let cs := [AddObserver (Some 1); AddObserver None; AddObserver (Some 2);
             AddObserver (Some 1); RemoveObserver (Some 2); RemoveObserver None;
             AddObserver (Some 3)] in
  m_observers (calls cs w0) = [Some 1; Some 3]
  /\ m_observers (calls (cs ++ [AddObserver None]) w0) = [Some 1; Some 3; None]
  /\ logout sampleOnLogout true [0] (calls (cs ++ [AddObserver None]) w0)
     = NullDereference
         (callAll sampleOnLogout [3; 1]
            (state (logout_prepare (calls (cs ++ [AddObserver None]) w0))))
  /\ (let w := calls cs w0 in
      let outcome := logout sampleOnLogout true [0] w in
      NoDup (m_observers w)
      /\ (forall p, In p (m_observers w) <-> registered cs p = true)
      /\ ((exists w', outcome = Returned w') <-> registered cs None = false)
      /\ (registered cs None = false ->
          notifications 1 (events (state outcome))
          = notifications 1 (events w0) + (if registered cs (Some 1) then 1 else 0))
      /\ notifications 1 (events (state outcome))
         <= notifications 1 (events w0) + (if registered cs (Some 1) then 1 else 0)).
Proof.
  intros w0 cs. split; [reflexivity |]. split; [reflexivity |].
  split; [cbv; reflexivity |].
  refine (logout_notifies_registered (list (Observer * bool)) sampleOnLogout true [0]
            w0 cs 1 _ _ _ _); reflexivity.
Defined.

End RegistrationManagerMore.

(** ** MessagingCapabilityAgent *)

Module MessagingCapabilityAgentFacts.
Import MessagingCapabilityAgent MessagingCapabilityAgentSpec.

Section Handling.

Variable Value : Type.
Variable parse : string -> option Value.
Variable findNode : Value -> string -> option Value.
Variable retrieveValue : Value -> string -> option string.
Variable isObject : Value -> bool.

Lemma configuration_names (name : string) :
  In (NAMESPACE, name) (map fst getConfiguration)
  <-> name = snd SEND_MESSAGE \/ name = snd UPDATE_MESSAGES_STATUS
      \/ name = snd UPLOAD_CONVERSATIONS.
Proof.
  cbv [getConfiguration assignPolicy NamespaceAndName_eqb SEND_MESSAGE
       UPDATE_MESSAGES_STATUS UPLOAD_CONVERSATIONS fst snd].
  rewrite String.eqb_refl. simpl.
  split.
  - intros [H | [H | [H | []]]]; injection H as <-; auto.
  - intros [-> | [-> | ->]]; auto.
Qed.

Ltac refused :=
  split; [repeat split |];
  right; split; [reflexivity |];
  split;
  [ let token := fresh "token" in
    let H := fresh "H" in
    intros token H;
    destruct H as (_ & _ & Htoken & Hvalue & Hempty
                   & (it' & Hit & Hobject & Hname & Hdefault) & Hstatus);
    try congruence
  | eexists; reflexivity ].

Lemma executeSendMessageDirective_handled
    (info : DirectiveInfo) (d : Directive) (payload : Value) (s : t)
    (Hparse : parse (getPayload d) = Some payload)
    (Hd : getName d = snd SEND_MESSAGE) :
  handled parse findNode retrieveValue isObject info d payload s
    (executeSendMessageDirective findNode retrieveValue isObject info d payload s).
Proof.
  unfold handled, executeSendMessageDirective, failed.
  destruct (findNode payload JSON_KEY_TOKEN) as [n |] eqn:E1; [| refused].
  destruct (retrieveValue payload JSON_KEY_TOKEN) as [token |] eqn:E2; [| refused].
  destruct (empty token) eqn:E3.
  { refused. apply empty_true_iff in E3. congruence. }
  destruct (findNode payload JSON_KEY_MESSAGING_ENDPOINT_INFO) as [it |] eqn:E4; [| refused].
  destruct (isObject it) eqn:E5; simpl negb; cbv iota; [| refused].
  destruct (findNode it JSON_KEY_MESSAGING_ENDPOINT_NAME) as [n2 |] eqn:E6; [| refused].
  destruct (retrieveValue it JSON_KEY_MESSAGING_ENDPOINT_NAME) as [name |] eqn:E7; [| refused].
  destruct (String.eqb name "DEFAULT") eqn:E8.
  - apply String.eqb_eq in E8. subst name.
    split; [repeat split |]. left. split; [reflexivity |].
    exists token. split.
    + split; [exact Hparse |].
      split; [apply configuration_names; auto |].
      split; [congruence |].
      split; [exact E2 |].
      split; [intro H; subst token; discriminate |].
      split; [exists it; split; [exact E4 |]; split; [exact E5 |]; split; [congruence | exact E7] |].
      intro H. rewrite Hd in H. discriminate.
    + simpl. rewrite Hd. reflexivity.
  - refused.
    assert (it' = it) by congruence. subst it'.
    rewrite E7 in Hdefault. injection Hdefault as ->.
    discriminate.
Qed.

Lemma executeUploadConversationsDirective_handled
    (info : DirectiveInfo) (d : Directive) (payload : Value) (s : t)
    (Hparse : parse (getPayload d) = Some payload)
    (Hd : getName d = snd UPLOAD_CONVERSATIONS) :
  handled parse findNode retrieveValue isObject info d payload s
    (executeUploadConversationsDirective findNode retrieveValue isObject info d payload s).
Proof.
  unfold handled, executeUploadConversationsDirective, failed.
  destruct (findNode payload JSON_KEY_TOKEN) as [n |] eqn:E1; [| refused].
  destruct (retrieveValue payload JSON_KEY_TOKEN) as [token |] eqn:E2; [| refused].
  destruct (empty token) eqn:E3.
  { refused. apply empty_true_iff in E3. congruence. }
  destruct (findNode payload JSON_KEY_MESSAGING_ENDPOINT_INFO) as [it |] eqn:E4; [| refused].
  destruct (isObject it) eqn:E5; simpl negb; cbv iota; [| refused].
  destruct (findNode it JSON_KEY_MESSAGING_ENDPOINT_NAME) as [n2 |] eqn:E6; [| refused].
  destruct (retrieveValue it JSON_KEY_MESSAGING_ENDPOINT_NAME) as [name |] eqn:E7; [| refused].
  destruct (String.eqb name "DEFAULT") eqn:E8.
  - apply String.eqb_eq in E8. subst name.
    split; [repeat split |]. left. split; [reflexivity |].
    exists token. split.
    + split; [exact Hparse |].
      split; [apply configuration_names; auto |].
      split; [congruence |].
      split; [exact E2 |].
      split; [intro H; subst token; discriminate |].
      split; [exists it; split; [exact E4 |]; split; [exact E5 |]; split; [congruence | exact E7] |].
      intro H. rewrite Hd in H. discriminate.
    + simpl. rewrite Hd. reflexivity.
  - refused.
    assert (it' = it) by congruence. subst it'.
    rewrite E7 in Hdefault. injection Hdefault as ->.
    discriminate.
Qed.

Lemma executeUpdateMessagesStatusDirective_handled
    (info : DirectiveInfo) (d : Directive) (payload : Value) (s : t)
    (Hparse : parse (getPayload d) = Some payload)
    (Hd : getName d = snd UPDATE_MESSAGES_STATUS) :
  handled parse findNode retrieveValue isObject info d payload s
    (executeUpdateMessagesStatusDirective findNode retrieveValue isObject info d payload s).
Proof.
  unfold handled, executeUpdateMessagesStatusDirective, failed.
  destruct (findNode payload JSON_KEY_TOKEN) as [n |] eqn:E1; [| refused].
  destruct (retrieveValue payload JSON_KEY_TOKEN) as [token |] eqn:E2; [| refused].
  destruct (empty token) eqn:E3.
  { refused. apply empty_true_iff in E3. congruence. }
  destruct (findNode payload JSON_KEY_MESSAGING_ENDPOINT_INFO) as [it |] eqn:E4; [| refused].
  destruct (isObject it) eqn:E5; simpl negb; cbv iota; [| refused].
  destruct (findNode it JSON_KEY_MESSAGING_ENDPOINT_NAME) as [n2 |] eqn:E6; [| refused].
  destruct (retrieveValue it JSON_KEY_MESSAGING_ENDPOINT_NAME) as [name |] eqn:E7; [| refused].
  destruct (String.eqb name "DEFAULT") eqn:E8.
  - apply String.eqb_eq in E8. subst name.
    destruct (findNode payload JSON_KEY_CONVERSATION_ID) as [n3 |] eqn:E9.
    2: { refused. destruct (Hstatus Hd) as (Hc & _). congruence. }
    destruct (retrieveValue payload JSON_KEY_CONVERSATION_ID) as [conversationId |] eqn:E10.
    2: { refused. destruct (Hstatus Hd) as (_ & (c & Hc & _) & _). congruence. }
    destruct (empty conversationId) eqn:E11.
    { refused. destruct (Hstatus Hd) as (_ & (c & Hc & Hne) & _).
      apply empty_true_iff in E11. congruence. }
    destruct (findNode payload JSON_KEY_STATUS_MAP) as [statusMap |] eqn:E12.
    2: { refused. destruct (Hstatus Hd) as (_ & _ & (sm & Hsm & _)). congruence. }
    destruct (isObject statusMap) eqn:E13; simpl negb; cbv iota.
    2: { refused. destruct (Hstatus Hd) as (_ & _ & (sm & Hsm & Hobj)). congruence. }
    split; [repeat split |]. left. split; [reflexivity |].
    exists token. split.
    + split; [exact Hparse |].
      split; [apply configuration_names; auto |].
      split; [congruence |].
      split; [exact E2 |].
      split; [intro H; subst token; discriminate |].
      split; [exists it; split; [exact E4 |]; split; [exact E5 |]; split; [congruence | exact E7] |].
      intros _.
      split; [congruence |].
      split; [exists conversationId; split; [exact E10 | intro H; subst; discriminate] |].
      exists statusMap. split; [exact E12 | exact E13].
    + simpl. rewrite Hd. reflexivity.
  - refused.
    assert (it' = it) by congruence. subst it'.
    rewrite E7 in Hdefault. injection Hdefault as ->.
    discriminate.
Qed.

Lemma sameAgent_emit (es : list Event) (s s' : t) :
  sameAgent s s' -> sameAgent s (emit es s').
Proof. intro H. exact H. Qed.

Lemma executeSetHandlingCompleted_events (info : DirectiveInfo) (d : Directive) (s : t)
    (Hd : directive info = Some d) :
  sameAgent s (executeSetHandlingCompleted info s)
  /\ events (executeSetHandlingCompleted info s) = events s ++ completion info d.
Proof.
  unfold executeSetHandlingCompleted, removeDirective, completion.
  rewrite Hd. destruct (result info); simpl.
  - rewrite <- app_assoc. split; [repeat split | reflexivity].
  - rewrite app_nil_r. split; [repeat split | reflexivity].
Qed.

Lemma handled_completed
    (info : DirectiveInfo) (d : Directive) (payload : Value) (s : t) (r : bool * t)
    (Hd : directive info = Some d)
    (Hparse : parse (getPayload d) = Some payload)
    (H : handled parse findNode retrieveValue isObject info d payload s r) :
  exists s',
    (let (ok, s1) := r in
     if ok then Some (executeSetHandlingCompleted info s1) else Some s1) = Some s'
    /\ sameAgent s s'
    /\ ((exists token,
           acceptedWith parse findNode retrieveValue isObject d payload token
           /\ events s'
              = events s
                ++ map (observerCall (getName d) token (getPayload d)) (m_observers s)
                ++ completion info d)
        \/ (~ accepted parse findNode retrieveValue isObject d
            /\ exists message,
                 events s'
                 = events s ++ [SendExceptionEncounteredAndReportFailed info message
                                  DirectiveSequencer.UNEXPECTED_INFORMATION_RECEIVED])).
Proof.
  destruct r as [ok s1]. destruct H as (Hsame & [(Hok & token & Hacc & Hev) | (Hok & Hno & Hev)]);
    simpl in Hsame, Hok, Hev; subst ok.
  - destruct (executeSetHandlingCompleted_events info d s1 Hd) as (Hs & He).
    eexists. split; [reflexivity |]. split.
    + unfold sameAgent in *. intuition congruence.
    + left. exists token. split; [exact Hacc |].
      rewrite He, Hev. rewrite <- app_assoc. reflexivity.
  - exists s1. split; [reflexivity |]. split; [exact Hsame |].
    right. split; [| exact Hev].
    intros (payload' & token & Hacc).
    assert (payload' = payload).
    { destruct Hacc as (Hp & _). congruence. }
    subst payload'. exact (Hno token Hacc).
Qed.

(** The task of [handleDirective], by cases. *)
Lemma handleDirectiveTask_cases
    (info : DirectiveInfo) (d : Directive) (s : t)
    (Hd : directive info = Some d) :
  exists s',
    handleDirectiveTask parse findNode retrieveValue isObject info s = Some s'
    /\ sameAgent s s'
    /\ ((exists payload token,
           acceptedWith parse findNode retrieveValue isObject d payload token
           /\ events s'
              = events s
                ++ map (observerCall (getName d) token (getPayload d)) (m_observers s)
                ++ completion info d)
        \/ (~ accepted parse findNode retrieveValue isObject d
            /\ exists message,
                 events s'
                 = events s ++ [SendExceptionEncounteredAndReportFailed info message
                                  DirectiveSequencer.UNEXPECTED_INFORMATION_RECEIVED])).
Proof.
  unfold handleDirectiveTask. rewrite Hd.
  destruct (parse (getPayload d)) as [payload |] eqn:Hparse.
  - assert (Hwrap : forall r,
               handled parse findNode retrieveValue isObject info d payload s r ->
               exists s',
                 (let (ok, s1) := r in
                  if ok then Some (executeSetHandlingCompleted info s1) else Some s1)
                 = Some s'
                 /\ sameAgent s s'
                 /\ ((exists payload0 token,
                        acceptedWith parse findNode retrieveValue isObject d payload0 token
                        /\ events s'
                           = events s
                             ++ map (observerCall (getName d) token (getPayload d))
                                  (m_observers s)
                             ++ completion info d)
                     \/ (~ accepted parse findNode retrieveValue isObject d
                         /\ exists message,
                              events s'
                              = events s
                                ++ [SendExceptionEncounteredAndReportFailed info message
                                      DirectiveSequencer.UNEXPECTED_INFORMATION_RECEIVED]))).
    { intros r Hr.
      destruct (handled_completed info d payload s r Hd Hparse Hr)
        as (s' & Hs' & Hsame & [(token & Hacc & Hev) | Hrefused]).
      - exists s'. split; [exact Hs' |]. split; [exact Hsame |].
        left. exists payload, token. split; assumption.
      - exists s'. split; [exact Hs' |]. split; [exact Hsame |].
        right. exact Hrefused. }
    destruct (String.eqb (getName d) (snd SEND_MESSAGE)) eqn:E1.
    { apply String.eqb_eq in E1. apply Hwrap.
      apply executeSendMessageDirective_handled; assumption. }
    destruct (String.eqb (getName d) (snd UPDATE_MESSAGES_STATUS)) eqn:E2.
    { apply String.eqb_eq in E2. apply Hwrap.
      apply executeUpdateMessagesStatusDirective_handled; assumption. }
    destruct (String.eqb (getName d) (snd UPLOAD_CONVERSATIONS)) eqn:E3.
    { apply String.eqb_eq in E3. apply Hwrap.
      apply executeUploadConversationsDirective_handled; assumption. }
    eexists. split; [reflexivity |]. split; [repeat split |].
    right. split; [| eexists; reflexivity].
    intros (payload' & token & _ & Hname & _).
    apply configuration_names in Hname.
    apply String.eqb_neq in E1, E2, E3.
    destruct Hname as [H | [H | H]]; contradiction.
  - eexists. split; [reflexivity |]. split; [repeat split |].
    right. split; [| eexists; reflexivity].
    intros (payload' & token & Hp & _). congruence.
Qed.

(** X11: the task [handleDirective] submits for a directive that is not
    null returns, leaves observers, endpoint states, context and pending
    tasks as they are, and ends in one of two ways.  Either the directive is
    accepted (its name is declared in [getConfiguration] and its payload has
    a token that is not empty, the endpoint DEFAULT and, for
    UpdateMessagesStatus, a conversation id and a status map): then every
    observer gets the call of that directive with the token, DEFAULT and the
    payload text, followed by the completion calls when there is a result
    object, and no failure is reported.  Or it is not accepted: then the
    only call made is one failure report of type
    UNEXPECTED_INFORMATION_RECEIVED. *)
Theorem handleDirective_outcome
    (info : DirectiveInfo) (d : Directive) (s : t)
    (Hd : directive info = Some d) :
  exists s',
    handleDirectiveTask parse findNode retrieveValue isObject info s = Some s'
    /\ sameAgent s s'
    /\ ((exists payload token,
           acceptedWith parse findNode retrieveValue isObject d payload token
           /\ events s'
              = events s
                ++ map (observerCall (getName d) token (getPayload d)) (m_observers s)
                ++ completion info d)
        \/ (~ accepted parse findNode retrieveValue isObject d
            /\ exists message,
                 events s'
                 = events s ++ [SendExceptionEncounteredAndReportFailed info message
                                  DirectiveSequencer.UNEXPECTED_INFORMATION_RECEIVED])).
Proof. exact (handleDirectiveTask_cases info d s Hd). Qed.

End Handling.

Lemma handleDirective_outcome_witness :
  directive sampleInfo = Some sampleDirective
  /\ exists s',
       handleDirectiveTask sampleParse sampleFindNode sampleRetrieveValue sampleIsObject
         sampleInfo sampleAgent = Some s'
       /\ sameAgent sampleAgent s'
       /\ ((exists payload token,
              acceptedWith sampleParse sampleFindNode sampleRetrieveValue sampleIsObject
                sampleDirective payload token
              /\ events s'
                 = events sampleAgent
                   ++ map (observerCall (getName sampleDirective) token
                             (getPayload sampleDirective)) (m_observers sampleAgent)
                   ++ completion sampleInfo sampleDirective)
           \/ (~ accepted sampleParse sampleFindNode sampleRetrieveValue sampleIsObject
                  sampleDirective
               /\ exists message,
                    events s'
                    = events sampleAgent
                      ++ [SendExceptionEncounteredAndReportFailed sampleInfo message
                            DirectiveSequencer.UNEXPECTED_INFORMATION_RECEIVED])).
Proof.
  split; [reflexivity |].
  refine (handleDirective_outcome Json sampleParse sampleFindNode sampleRetrieveValue
            sampleIsObject sampleInfo sampleDirective sampleAgent _).
  reflexivity.
Defined.

(** The sample directive is accepted: both observers are called, then the
    directive is completed and removed. *)
Example handleDirective_run :
  option_map events
    (handleDirectiveTask sampleParse sampleFindNode sampleRetrieveValue sampleIsObject
       sampleInfo sampleAgent)
  = Some [SendMessage 1 "token-1" DEFAULT samplePayload;
          SendMessage 2 "token-1" DEFAULT samplePayload;
          SetCompleted "message-1"; RemoveDirective "message-1"].
Proof. vm_compute. reflexivity. Qed.

Section Runs.

Variable Value : Type.
Variable parse : string -> option Value.
Variable findNode : Value -> string -> option Value.
Variable retrieveValue : Value -> string -> option string.
Variable isObject : Value -> bool.
Variable escape : string -> string.
Variable finishObject : JsonGenerator.t -> JsonGenerator.t.
Variable startArray : string -> JsonGenerator.t -> JsonGenerator.t.
Variable startArrayElement : JsonGenerator.t -> JsonGenerator.t.
Variable finishArrayElement : JsonGenerator.t -> JsonGenerator.t.
Variable finishArray : JsonGenerator.t -> JsonGenerator.t.

Lemma agent_run_snoc (ls : list Label) (l : Label) (s : t) :
  run parse findNode retrieveValue isObject escape finishObject startArray startArrayElement finishArrayElement finishArray (ls ++ [l]) s
  = match run parse findNode retrieveValue isObject escape finishObject startArray startArrayElement finishArrayElement finishArray ls s with
    | Some s1 => step parse findNode retrieveValue isObject escape finishObject startArray startArrayElement finishArrayElement finishArray l s1
    | None => None
    end.
Proof.
  revert s. induction ls as [| l0 ls IH]; intro s; simpl.
  - destruct (step parse findNode retrieveValue isObject escape finishObject startArray startArrayElement finishArrayElement finishArray l s); reflexivity.
  - destruct (step parse findNode retrieveValue isObject escape finishObject startArray startArrayElement finishArrayElement finishArray l0 s) as [s1 |]; [apply IH | reflexivity].
Qed.

(** Induction on a run, last step last. *)
Lemma agent_run_ind (P : list Label -> t -> Prop) (s0 : t)
    (Hnil : P [] s0)
    (Hstep : forall ls l s s',
        run parse findNode retrieveValue isObject escape finishObject startArray startArrayElement finishArrayElement finishArray ls s0 = Some s -> P ls s -> step parse findNode retrieveValue isObject escape finishObject startArray startArrayElement finishArrayElement finishArray l s = Some s' -> P (ls ++ [l]) s') :
  forall ls s, run parse findNode retrieveValue isObject escape finishObject startArray startArrayElement finishArrayElement finishArray ls s0 = Some s -> P ls s.
Proof.
  induction ls as [| l ls IH] using rev_ind; intros s H.
  - injection H as <-. exact Hnil.
  - rewrite agent_run_snoc in H.
    destruct (run parse findNode retrieveValue isObject escape finishObject startArray startArrayElement finishArrayElement finishArray ls s0) as [s1 |] eqn:E; [| discriminate].
    exact (Hstep ls l s1 s E (IH s1 eq_refl) H).
Qed.

(** *** Observers *)

Lemma observers_step (l : Label) (s s' : t) (H : step parse findNode retrieveValue isObject escape finishObject startArray startArrayElement finishArrayElement finishArray l s = Some s') :
  m_observers s'
  = match l with
    | CallAddObserver (Some o) =>
        if existsb (Nat.eqb o) (m_observers s) then m_observers s
        else m_observers s ++ [o]
    | CallRemoveObserver (Some o) =>
        filter (fun x => negb (Nat.eqb o x)) (m_observers s)
    | _ => m_observers s
    end.
Proof.
  destruct l as [info | d | info | info | [o |] | [o |] | n k | st e |]; simpl in H;
    try (injection H as <-; try destruct info; reflexivity).
  - injection H as <-. unfold cancelDirective, removeDirective.
    destruct (directive info); [destruct (result info) |]; reflexivity.
  - injection H as <-. simpl. destruct (existsb (Nat.eqb o) (m_observers s)); reflexivity.
  - destruct (m_executor s) as [| task rest]; [discriminate |].
    destruct task as [info | n k | st e]; simpl in H.
    + destruct (directive info) as [d |] eqn:Hd.
      * destruct (handleDirectiveTask_cases Value parse findNode retrieveValue isObject
                    info d (set_executor rest s) Hd) as (s1 & H1 & Hsame & _).
        rewrite H1 in H. injection H as <-. destruct Hsame as (Ho & _). exact Ho.
      * unfold handleDirectiveTask in H. rewrite Hd in H. discriminate.
    + injection H as <-. reflexivity.
    + injection H as <-. reflexivity.
Qed.

Lemma agent_registered_snoc (ls : list Label) (l : Label) (o : Observer) :
  registered (ls ++ [l]) o
  = match l with
    | CallAddObserver (Some x) => if Nat.eqb x o then true else registered ls o
    | CallRemoveObserver (Some x) => if Nat.eqb x o then false else registered ls o
    | _ => registered ls o
    end.
Proof. unfold registered. rewrite fold_left_app. reflexivity. Qed.

Lemma agent_observers_registered (s0 : t) (H0 : m_observers s0 = []) :
  forall ls s,
    run parse findNode retrieveValue isObject escape finishObject startArray startArrayElement finishArrayElement finishArray ls s0 = Some s ->
    NoDup (m_observers s)
    /\ forall o, In o (m_observers s) <-> registered ls o = true.
Proof.
  apply agent_run_ind.
  - rewrite H0. split; [constructor |]. intro o. simpl. split; [tauto | discriminate].
  - intros ls l s s' _ (Hnd & Hin) Hstep.
    rewrite (observers_step l s s' Hstep).
    destruct l as [info | d | info | info | [x |] | [x |] | n k | st e |];
      try (split; [exact Hnd | intro o; rewrite agent_registered_snoc; apply Hin]).
    + destruct (existsb (Nat.eqb x) (m_observers s)) eqn:Ex.
      * split; [exact Hnd |]. intro o. rewrite agent_registered_snoc.
        destruct (Nat.eqb x o) eqn:Exo; [| apply Hin].
        apply Nat.eqb_eq in Exo. subst o.
        apply existsb_exists in Ex. destruct Ex as (y & Hy & Exy).
        apply Nat.eqb_eq in Exy. subst y. tauto.
      * assert (Hx : ~ In x (m_observers s)).
        { intro Hx. assert (existsb (Nat.eqb x) (m_observers s) = true).
          { apply existsb_exists. exists x. split; [exact Hx | apply Nat.eqb_refl]. }
          congruence. }
        split.
        -- apply NoDup_app; [exact Hnd | constructor; [simpl; tauto | constructor] |].
           intros y Hy [<- | []]. exact (Hx Hy).
        -- intro o. rewrite agent_registered_snoc. rewrite in_app_iff. simpl.
           destruct (Nat.eqb x o) eqn:Exo.
           ++ apply Nat.eqb_eq in Exo. tauto.
           ++ apply Nat.eqb_neq in Exo. rewrite <- Hin. tauto.
    + split; [apply NoDup_filter; exact Hnd |].
      intro o. rewrite agent_registered_snoc. rewrite filter_In.
      destruct (Nat.eqb x o) eqn:Exo.
      * simpl. split; [intros (_ & H); discriminate | discriminate].
      * simpl. rewrite <- Hin. tauto.
Qed.

Lemma callsOn_app (o : Observer) (es es' : list Event) :
  callsOn o (es ++ es') = callsOn o es + callsOn o es'.
Proof. unfold callsOn. rewrite filter_app, length_app. reflexivity. Qed.

Lemma callsOn_observerCall (o : Observer) (name token payload : string)
    (observers : list Observer) :
  callsOn o (map (observerCall name token payload) observers)
  = List.length (filter (fun x => Nat.eqb x o) observers).
Proof.
  unfold callsOn. induction observers as [| x rest IH]; [reflexivity |].
  simpl. unfold observerCall at 1.
  destruct (String.eqb name (snd SEND_MESSAGE));
    [| destruct (String.eqb name (snd UPDATE_MESSAGES_STATUS))];
    simpl; destruct (Nat.eqb x o); simpl; rewrite IH; reflexivity.
Qed.

Lemma callsOn_completion (o : Observer) (info : DirectiveInfo) (d : Directive) :
  callsOn o (completion info d) = 0.
Proof. unfold completion. destruct (result info); reflexivity. Qed.

Lemma NoDup_count (o : Observer) (l : list Observer) (Hnd : NoDup l) :
  List.length (filter (fun x => Nat.eqb x o) l)
  = if existsb (fun x => Nat.eqb x o) l then 1 else 0.
Proof.
  induction Hnd as [| x l Hx Hnd IH]; [reflexivity |].
  simpl. destruct (Nat.eqb x o) eqn:Exo; simpl.
  - apply Nat.eqb_eq in Exo. subst x.
    rewrite IH.
    destruct (existsb (fun x => Nat.eqb x o) l) eqn:Ex; [| reflexivity].
    apply existsb_exists in Ex. destruct Ex as (y & Hy & Eyo).
    apply Nat.eqb_eq in Eyo. subst y. contradiction.
  - exact IH.
Qed.

(** X12: whatever was called on an agent that starts without observers, the task
    of an accepted directive calls every registered observer exactly once
    and no other observer: an observer is registered when it was added and
    not removed since, to add it twice leaves it registered once, and a null
    observer is never registered. *)
Theorem observers_called_once
    (ls : list Label) (s0 s : t) (info : DirectiveInfo) (d : Directive) (o : Observer)
    (H0 : m_observers s0 = [])
    (Hrun : run parse findNode retrieveValue isObject escape finishObject startArray startArrayElement finishArrayElement finishArray ls s0 = Some s)
    (Hd : directive info = Some d)
    (Hacc : accepted parse findNode retrieveValue isObject d) :
  exists s',
    handleDirectiveTask parse findNode retrieveValue isObject info s = Some s'
    /\ callsOn o (events s')
       = callsOn o (events s) + (if registered ls o then 1 else 0).
Proof.
  destruct (handleDirectiveTask_cases Value parse findNode retrieveValue isObject
              info d s Hd) as (s' & Hs' & _ & [(payload & token & _ & Hev) | (Hno & _)]);
    [| contradiction].
  exists s'. split; [exact Hs' |].
  rewrite Hev, !callsOn_app, callsOn_observerCall, callsOn_completion, Nat.add_0_r.
  f_equal.
  destruct (agent_observers_registered s0 H0 ls s Hrun) as (Hnd & Hin).
  rewrite (NoDup_count o _ Hnd).
  destruct (registered ls o) eqn:Er.
  - apply Hin in Er.
    assert (E : existsb (fun x => Nat.eqb x o) (m_observers s) = true).
    { apply existsb_exists. exists o. split; [exact Er | apply Nat.eqb_refl]. }
    rewrite E. reflexivity.
  - destruct (existsb (fun x => Nat.eqb x o) (m_observers s)) eqn:E; [| reflexivity].
    apply existsb_exists in E. destruct E as (y & Hy & Eyo).
    apply Nat.eqb_eq in Eyo. subst y. apply Hin in Hy. congruence.
Qed.

(** *** The context *)

Lemma lastReported_app (es new : list Event) :
  lastReported (es ++ new)
  = match lastReported new with
    | Some context => Some context
    | None => lastReported es
    end.
Proof.
  induction es as [| e es IH]; simpl.
  - destruct (lastReported new); reflexivity.
  - rewrite IH. destruct (lastReported new); reflexivity.
Qed.

Lemma lastReported_quiet (new : list Event)
    (H : forallb (fun e => negb (aboutContext e)) new = true) :
  lastReported new = None.
Proof.
  induction new as [| e new IH]; [reflexivity |].
  simpl in H. apply andb_true_iff in H. destruct H as (He & H).
  simpl. rewrite (IH H). destruct e; try reflexivity; discriminate.
Qed.

Lemma quiet_observerCall (name token payload : string) (observers : list Observer) :
  forallb (fun e => negb (aboutContext e)) (map (observerCall name token payload) observers)
  = true.
Proof.
  induction observers as [| x rest IH]; [reflexivity |].
  simpl. rewrite IH. unfold observerCall.
  destruct (String.eqb name (snd SEND_MESSAGE));
    [| destruct (String.eqb name (snd UPDATE_MESSAGES_STATUS))]; reflexivity.
Qed.

Lemma quiet_completion (info : DirectiveInfo) (d : Directive) :
  forallb (fun e => negb (aboutContext e)) (completion info d) = true.
Proof. unfold completion. destruct (result info); reflexivity. Qed.

(** What a step does to the endpoint states, the context and the calls made. *)
Lemma context_step (l : Label) (s s' : t) (H : step parse findNode retrieveValue isObject escape finishObject startArray startArrayElement finishArrayElement finishArray l s = Some s') :
  exists new,
    events s' = events s ++ new
    /\ ((exists st,
           m_messagingEndpointsState s'
           = assignState (messagingEndpointToString DEFAULT) st (m_messagingEndpointsState s)
           /\ m_messagingContext s' = contextJson escape finishObject startArray startArrayElement finishArrayElement finishArray (m_messagingEndpointsState s')
           /\ new = [ReportStateChange CONTEXT_MANAGER_MESSAGING_STATE
                       (m_messagingContext s')])
        \/ (m_messagingEndpointsState s' = m_messagingEndpointsState s
            /\ m_messagingContext s' = m_messagingContext s
            /\ ((exists n k, new = [ProvideStateResponse n (m_messagingContext s) k])
                \/ forallb (fun e => negb (aboutContext e)) new = true))).
Proof.
  assert (Hquiet : forall s1 : t,
             m_messagingEndpointsState s1 = m_messagingEndpointsState s ->
             m_messagingContext s1 = m_messagingContext s ->
             events s1 = events s ->
             exists new,
               events s1 = events s ++ new
               /\ ((exists st,
                      m_messagingEndpointsState s1
                      = assignState (messagingEndpointToString DEFAULT) st
                          (m_messagingEndpointsState s)
                      /\ m_messagingContext s1 = contextJson escape finishObject startArray startArrayElement finishArrayElement finishArray (m_messagingEndpointsState s1)
                      /\ new = [ReportStateChange CONTEXT_MANAGER_MESSAGING_STATE
                                  (m_messagingContext s1)])
                   \/ (m_messagingEndpointsState s1 = m_messagingEndpointsState s
                       /\ m_messagingContext s1 = m_messagingContext s
                       /\ ((exists n k,
                              new = [ProvideStateResponse n (m_messagingContext s) k])
                           \/ forallb (fun e => negb (aboutContext e)) new = true)))).
  { intros s1 H1 H2 H3. exists []. rewrite app_nil_r.
    split; [exact H3 |]. right. split; [exact H1 |]. split; [exact H2 |]. right. reflexivity. }
  destruct l as [info | d | info | info | o | o | n k | st e |]; simpl in H.
  - injection H as <-. apply Hquiet; destruct info; reflexivity.
  - injection H as <-. apply Hquiet; reflexivity.
  - injection H as <-. apply Hquiet; reflexivity.
  - injection H as <-. unfold cancelDirective, removeDirective.
    destruct (directive info) as [d |]; [| apply Hquiet; reflexivity].
    destruct (result info); [| apply Hquiet; reflexivity].
    eexists. split; [reflexivity |]. right. split; [reflexivity |]. split; [reflexivity |].
    right. reflexivity.
  - injection H as <-. apply Hquiet; destruct o as [o |]; try reflexivity;
      simpl; destruct (existsb (Nat.eqb o) (m_observers s)); reflexivity.
  - injection H as <-. apply Hquiet; destruct o; reflexivity.
  - injection H as <-. apply Hquiet; reflexivity.
  - injection H as <-. apply Hquiet; reflexivity.
  - destruct (m_executor s) as [| task rest]; [discriminate |].
    destruct task as [info | n k | st e]; simpl in H.
    + destruct (directive info) as [d |] eqn:Hd.
      * destruct (handleDirectiveTask_cases Value parse findNode retrieveValue isObject
                    info d (set_executor rest s) Hd)
          as (s1 & H1 & (_ & Hstates & Hcontext & _) & Hcases).
        rewrite H1 in H. injection H as <-.
        destruct Hcases as [(payload & token & _ & Hev) | (_ & message & Hev)].
        -- eexists. split; [exact Hev |]. right.
           split; [exact Hstates |]. split; [exact Hcontext |]. right.
           rewrite forallb_app, quiet_observerCall, quiet_completion. reflexivity.
        -- eexists. split; [exact Hev |]. right.
           split; [exact Hstates |]. split; [exact Hcontext |]. right. reflexivity.
      * unfold handleDirectiveTask in H. rewrite Hd in H. discriminate.
    + injection H as <-. eexists. split; [reflexivity |]. right.
      split; [reflexivity |]. split; [reflexivity |]. left. exists n, k. reflexivity.
    + injection H as <-. eexists. split; [reflexivity |]. left.
      exists st. destruct e. split; [reflexivity |]. split; reflexivity.
Qed.

Lemma coherent_step (l : Label) (s s' : t)
    (Hs : coherent escape finishObject startArray startArrayElement finishArrayElement finishArray s) (H : step parse findNode retrieveValue isObject escape finishObject startArray startArrayElement finishArrayElement finishArray l s = Some s') : coherent escape finishObject startArray startArrayElement finishArrayElement finishArray s'.
Proof.
  destruct Hs as ((st0 & Hstates) & Hcontext & Hlast).
  destruct (context_step l s s' H)
    as (new & Hev & [(st & Hst & Hctx & Hnew) | (Hst & Hctx & Hnew)]).
  - split; [| split].
    + exists st. rewrite Hst, Hstates. reflexivity.
    + exact Hctx.
    + rewrite Hev, lastReported_app, Hnew. reflexivity.
  - split; [| split].
    + exists st0. congruence.
    + congruence.
    + rewrite Hev, lastReported_app, Hctx.
      destruct Hnew as [(n & k & ->) | Hq]; [exact Hlast |].
      rewrite (lastReported_quiet new Hq). exact Hlast.
Qed.

Lemma coherent_run (s0 : t) (H0 : coherent escape finishObject startArray startArrayElement finishArrayElement finishArray s0) :
  forall ls s, run parse findNode retrieveValue isObject escape finishObject startArray startArrayElement finishArrayElement finishArray ls s0 = Some s -> coherent escape finishObject startArray startArrayElement finishArrayElement finishArray s.
Proof.
  apply (agent_run_ind (fun _ s => coherent escape finishObject startArray startArrayElement finishArrayElement finishArray s)).
  - exact H0.
  - intros ls l s s' _ Hs Hstep. exact (coherent_step l s s' Hs Hstep).
Qed.

Lemma responses_run (s0 : t) (H0 : coherent escape finishObject startArray startArrayElement finishArrayElement finishArray s0)
    (Hnone : forallb (fun e => match e with
                               | ProvideStateResponse _ _ _ => false
                               | _ => true
                               end) (events s0) = true) :
  forall ls s,
    run parse findNode retrieveValue isObject escape finishObject startArray startArrayElement finishArrayElement finishArray ls s0 = Some s ->
    forall pre n c k post,
      events s = pre ++ ProvideStateResponse n c k :: post ->
      lastReported pre = Some c
      /\ exists st, c = contextJson escape finishObject startArray startArrayElement finishArrayElement finishArray [(messagingEndpointToString DEFAULT, st)].
Proof.
  apply (agent_run_ind
           (fun _ s =>
              forall pre n c k post,
                events s = pre ++ ProvideStateResponse n c k :: post ->
                lastReported pre = Some c
                /\ exists st, c = contextJson escape finishObject startArray startArrayElement finishArrayElement finishArray [(messagingEndpointToString DEFAULT, st)])).
  - intros pre n c k post Hev. exfalso.
    rewrite Hev in Hnone. rewrite forallb_app in Hnone.
    apply andb_true_iff in Hnone. destruct Hnone as (_ & Hn). discriminate.
  - intros ls l s s' Hrun IH Hstep pre n c k post Hev.
    assert (Hs : coherent escape finishObject startArray startArrayElement finishArrayElement finishArray s) by exact (coherent_run s0 H0 ls s Hrun).
    destruct (context_step l s s' Hstep) as (new & Hnew & Hcases).
    rewrite Hnew in Hev.
    apply app_eq_app in Hev. destruct Hev as (mid & [(H1 & H2) | (H1 & H2)]).
    + destruct mid as [| e mid].
      * rewrite app_nil_r in H1. simpl in H2. subst pre.
        destruct Hcases as [(st & _ & _ & Hn) | (_ & _ & [(n' & k' & Hn) | Hq])].
        -- rewrite Hn in H2. discriminate.
        -- rewrite Hn in H2. injection H2 as _ Hc _ _. subst c.
           destruct Hs as ((st & Hst) & Hctx & Hlast).
           split; [exact Hlast |]. exists st. rewrite Hctx, Hst. reflexivity.
        -- rewrite <- H2 in Hq. discriminate.
      * simpl in H2. injection H2 as <- _.
        exact (IH pre n c k mid H1).
    + assert (Hmid : mid = []).
      { destruct Hcases as [(st & _ & _ & Hn) | (_ & _ & [(n' & k' & Hn) | Hq])].
        - rewrite Hn in H2. destruct mid as [| e [| e' mid]]; [reflexivity | |]; discriminate.
        - rewrite Hn in H2. destruct mid as [| e [| e' mid]]; [reflexivity | |]; discriminate.
        - rewrite H2 in Hq. rewrite forallb_app in Hq.
          apply andb_true_iff in Hq. destruct Hq as (_ & Hq). discriminate. }
      subst mid. rewrite app_nil_r in H1. simpl in H2. subst pre.
      destruct Hcases as [(st & _ & _ & Hn) | (_ & _ & [(n' & k' & Hn) | Hq])].
      * rewrite Hn in H2. discriminate.
      * rewrite Hn in H2. injection H2 as _ Hc _ _. subst c.
        destruct Hs as ((st & Hst) & Hctx & Hlast).
        split; [exact Hlast |]. exists st. rewrite Hctx, Hst. reflexivity.
      * rewrite H2 in Hq. discriminate.
Qed.

Section Created.

Variables CAPABILITY_INTERFACE_TYPE_KEY CAPABILITY_INTERFACE_NAME_KEY
  CAPABILITY_INTERFACE_VERSION_KEY CAPABILITY_INTERFACE_CONFIGURATIONS_KEY : string.

Lemma coherent_initialize :
  coherent escape finishObject startArray startArrayElement finishArrayElement finishArray (initialize escape finishObject startArray startArrayElement finishArrayElement finishArray CAPABILITY_INTERFACE_TYPE_KEY CAPABILITY_INTERFACE_NAME_KEY
              CAPABILITY_INTERFACE_VERSION_KEY CAPABILITY_INTERFACE_CONFIGURATIONS_KEY
              construct).
Proof.
  split; [exists defaultState; reflexivity |]. split; reflexivity.
Qed.

Lemma created_initialize (exceptionSender contextManager messageSender : bool) (s0 : t)
    (H : create escape finishObject startArray startArrayElement finishArrayElement finishArray CAPABILITY_INTERFACE_TYPE_KEY CAPABILITY_INTERFACE_NAME_KEY CAPABILITY_INTERFACE_VERSION_KEY CAPABILITY_INTERFACE_CONFIGURATIONS_KEY exceptionSender contextManager messageSender = Some s0) :
  s0 = initialize escape finishObject startArray startArrayElement finishArrayElement finishArray CAPABILITY_INTERFACE_TYPE_KEY CAPABILITY_INTERFACE_NAME_KEY
         CAPABILITY_INTERFACE_VERSION_KEY CAPABILITY_INTERFACE_CONFIGURATIONS_KEY
         construct.
Proof.
  unfold create in H.
  destruct contextManager, exceptionSender, messageSender; simpl in H;
    try discriminate.
  injection H as <-. reflexivity.
Qed.

(** X13: whatever is called on an agent [create] gave, and whichever tasks the
    executor has run, the agent knows one endpoint, DEFAULT, its saved
    context is the text written from the state of that endpoint, and that
    text is the context last reported to the context manager. *)
Theorem context_coherent
    (exceptionSender contextManager messageSender : bool)
    (ls : list Label) (s0 s : t)
    (Hcreate : create escape finishObject startArray startArrayElement finishArrayElement finishArray CAPABILITY_INTERFACE_TYPE_KEY CAPABILITY_INTERFACE_NAME_KEY CAPABILITY_INTERFACE_VERSION_KEY CAPABILITY_INTERFACE_CONFIGURATIONS_KEY exceptionSender contextManager messageSender = Some s0)
    (Hrun : run parse findNode retrieveValue isObject escape finishObject startArray startArrayElement finishArrayElement finishArray ls s0 = Some s) :
  coherent escape finishObject startArray startArrayElement finishArrayElement finishArray s.
Proof.
  apply created_initialize in Hcreate. subst s0.
  exact (coherent_run _ coherent_initialize ls s Hrun).
Qed.

(** X14: every state the agent gives the context manager on request is the
    context it last reported before: the text written from the state of the
    endpoint DEFAULT at that time, as [initialize] or the last
    [updateMessagingEndpointState] run before left it. *)
Theorem provided_state_is_last_reported
    (exceptionSender contextManager messageSender : bool)
    (ls : list Label) (s0 s : t)
    (pre post : list Event) (stateProviderName : CapabilityTag) (context : string)
    (contextRequestToken : ContextRequestToken)
    (Hcreate : create escape finishObject startArray startArrayElement finishArrayElement finishArray CAPABILITY_INTERFACE_TYPE_KEY CAPABILITY_INTERFACE_NAME_KEY CAPABILITY_INTERFACE_VERSION_KEY CAPABILITY_INTERFACE_CONFIGURATIONS_KEY exceptionSender contextManager messageSender = Some s0)
    (Hrun : run parse findNode retrieveValue isObject escape finishObject startArray startArrayElement finishArrayElement finishArray ls s0 = Some s)
    (Hresponse : events s
                 = pre ++ ProvideStateResponse stateProviderName context contextRequestToken
                          :: post) :
  lastReported pre = Some context
  /\ exists st, context = contextJson escape finishObject startArray startArrayElement finishArrayElement finishArray [(messagingEndpointToString DEFAULT, st)].
Proof.
  apply created_initialize in Hcreate. subst s0.
  exact (responses_run _ coherent_initialize eq_refl ls s Hrun pre _ _ _ post Hresponse).
Qed.

End Created.

End Runs.

Lemma sampleDirective_accepted :
  accepted sampleParse sampleFindNode sampleRetrieveValue sampleIsObject sampleDirective.
Proof.
  exists sampleDocument, "token-1".
  split; [reflexivity |].
  split; [apply configuration_names; left; reflexivity |].
  split; [discriminate |].
  split; [reflexivity |].
  split; [discriminate |].
  split.
  - eexists. split; [reflexivity |]. split; [reflexivity |].
    split; [discriminate | reflexivity].
  - intro H. discriminate.
Qed.

Lemma observers_called_once_witness :
  exists s,
    run sampleParse sampleFindNode sampleRetrieveValue sampleIsObject sampleEscape
      sampleFinishObject sampleStartArray sampleStartArrayElement sampleFinishObject
      sampleFinishArray sampleCalls sampleCreated = Some s
    /\ m_observers s = [1]
    /\ registered sampleCalls 1 = true
    /\ registered sampleCalls 2 = false
    /\ exists s',
         handleDirectiveTask sampleParse sampleFindNode sampleRetrieveValue sampleIsObject
           sampleInfo s = Some s'
         /\ callsOn 1 (events s')
            = callsOn 1 (events s) + (if registered sampleCalls 1 then 1 else 0).
Proof.
  eexists. split; [cbv; reflexivity |].
  split; [reflexivity |]. split; [reflexivity |]. split; [reflexivity |].
  refine (observers_called_once Json sampleParse sampleFindNode sampleRetrieveValue
            sampleIsObject sampleEscape sampleFinishObject sampleStartArray
            sampleStartArrayElement sampleFinishObject sampleFinishArray
            sampleCalls sampleCreated _ sampleInfo sampleDirective 1 _ _ _ _).
  - reflexivity.
  - cbv; reflexivity.
  - reflexivity.
  - exact sampleDirective_accepted.
Defined.

Lemma context_coherent_witness :
  exists s,
    create sampleEscape sampleFinishObject sampleStartArray sampleStartArrayElement
      sampleFinishObject sampleFinishArray "type" "interface" "version" "configurations"
      true true true = Some sampleCreated
    /\ run sampleParse sampleFindNode sampleRetrieveValue sampleIsObject sampleEscape
         sampleFinishObject sampleStartArray sampleStartArrayElement sampleFinishObject
         sampleFinishArray sampleCalls sampleCreated = Some s
    /\ m_messagingEndpointsState s = [("DEFAULT", mkState CONNECTED ON OFF)]
    /\ coherent sampleEscape sampleFinishObject sampleStartArray sampleStartArrayElement
         sampleFinishObject sampleFinishArray s.
Proof.
  eexists. split; [reflexivity |]. split; [cbv; reflexivity |].
  split; [reflexivity |].
  refine (context_coherent Json sampleParse sampleFindNode sampleRetrieveValue
            sampleIsObject sampleEscape sampleFinishObject sampleStartArray
            sampleStartArrayElement sampleFinishObject sampleFinishArray
            "type" "interface" "version" "configurations"
            true true true sampleCalls sampleCreated _ _ _).
  - reflexivity.
  - cbv; reflexivity.
Defined.

Lemma provided_state_is_last_reported_witness :
  exists s pre post,
    create sampleEscape sampleFinishObject sampleStartArray sampleStartArrayElement
      sampleFinishObject sampleFinishArray "type" "interface" "version" "configurations"
      true true true = Some sampleCreated
    /\ run sampleParse sampleFindNode sampleRetrieveValue sampleIsObject sampleEscape
         sampleFinishObject sampleStartArray sampleStartArrayElement sampleFinishObject
         sampleFinishArray sampleCalls sampleCreated = Some s
    /\ events s
       = pre ++ ProvideStateResponse CONTEXT_MANAGER_MESSAGING_STATE
                  (m_messagingContext sampleCreated) 7 :: post
    /\ (lastReported pre = Some (m_messagingContext sampleCreated)
        /\ exists st,
             m_messagingContext sampleCreated
             = contextJson sampleEscape sampleFinishObject sampleStartArray
                 sampleStartArrayElement sampleFinishObject sampleFinishArray
                 [(messagingEndpointToString DEFAULT, st)]).
Proof.
  eexists.
  exists [AddStateProvider CONTEXT_MANAGER_MESSAGING_STATE;
          ReportStateChange CONTEXT_MANAGER_MESSAGING_STATE
            (m_messagingContext sampleCreated)].
  eexists. split; [reflexivity |]. split; [cbv; reflexivity |].
  split; [cbv; reflexivity |].
  refine (provided_state_is_last_reported Json sampleParse sampleFindNode
            sampleRetrieveValue sampleIsObject sampleEscape sampleFinishObject
            sampleStartArray sampleStartArrayElement sampleFinishObject sampleFinishArray
            "type" "interface" "version" "configurations"
            true true true sampleCalls sampleCreated _ _ _ _ _ _ _ _ _).
  - reflexivity.
  - cbv; reflexivity.
  - cbv; reflexivity.
Defined.

End MessagingCapabilityAgentFacts.
